(** * NPDS4Clib: raster labelling, bounding boxes, border clearing,
      dominant-region selection, block extraction and the trapezoid rule.

    A shallow embedding of [clear_border.cpp], [regionprops_bbox.cpp],
    [process_lung_regions.cpp], [generate_lung_tissue_blocks_slice_cpp.cpp],
    the two [generate_nodule_block_list_slice_cpp] files and
    [trapz_rcpp.cpp].  C++ [int]s are modelled as [Z].  The range
    subtraction of [process_lung_regions], which is applied to whatever
    numbers the caller's table holds, is written out with its 32-bit
    wrap-around ([int_sub]).  The other [int] arithmetic is on indices,
    counters and labels and is exact as long as those fit an [int]; the
    flood filler's differences of cell values and its [double] arithmetic
    are exact for the cells the labeller hands it, and its properties on
    other arrays are stated for cells and tolerances where they are exact
    ([small], [exact_tolerance]).  An access outside an array has no defined
    result and is modelled by [None]; loops whose trip count is not fixed by
    their bounds run on fuel. *)

From Stdlib Require Import ZArith QArith Qabs Lia Ring.
From stdpp Require Import base option list gmap strings.

Local Open Scope Z_scope.

(** ** Arrays, loops *)

(** [m[i]] for a raw pointer [m]: defined only inside the array. *)
Definition rd {A : Type} (m : list A) (i : Z) : option A :=
  if 0 <=? i then m !! Z.to_nat i else None.

(** [m[i] = v]. *)
Definition wr {A : Type} (m : list A) (i : Z) (v : A) : option (list A) :=
  if (0 <=? i) && (i <? Z.of_nat (length m))
  then Some (<[Z.to_nat i := v]> m) else None.

(** Short-circuit [&&] over conditions that may read memory. *)
Definition and_sc (a b : option bool) : option bool :=
  c ← a; if c : bool then b else Some false.
Infix "&&&" := and_sc (at level 40, left associativity).

(** [while (cond) body], on fuel. *)
Fixpoint while {St : Type} (fuel : nat) (cond : St → option bool)
    (body : St → option St) (s : St) : option St :=
  match fuel with
  | O => None
  | S fuel' =>
      c ← cond s;
      if c : bool then s' ← body s; while fuel' cond body s' else Some s
  end.

(** [for (int i = lo; i < hi; i++) body]. *)
Fixpoint for_up {St : Type} (n : nat) (i : Z) (body : Z → St → option St)
    (s : St) : option St :=
  match n with
  | O => Some s
  | S n' => s' ← body i s; for_up n' (i + 1) body s'
  end.

Definition for_ {St : Type} (lo hi : Z) (body : Z → St → option St)
    (s : St) : option St :=
  for_up (Z.to_nat (hi - lo)) lo body s.

(** [a - b] on [int].  Where the exact difference does not fit 32 bits the
    C++ standard leaves the result undefined; the compiled code wraps around
    (two's complement), and that is what is written out. *)
Definition int_sub (a b : Z) : Z :=
  (a - b + 2147483648) `mod` 4294967296 - 2147483648.

(** ** Rcpp matrices: column-major storage, [M(i, j)] is [data[i + nrow * j]]
    and is not bounds-checked against the row and column counts. *)
Record Matrix (A : Type) : Type := mkMatrix
  { nrow : Z; ncol : Z; data : list A }.
Arguments mkMatrix {A} _ _ _.
Arguments nrow {A} _.
Arguments ncol {A} _.
Arguments data {A} _.

Abbreviation IntegerMatrix := (Matrix Z).
Abbreviation LogicalMatrix := (Matrix bool).

Definition offset {A : Type} (M : Matrix A) (i j : Z) : Z := i + nrow M * j.

Definition mget {A : Type} (M : Matrix A) (i j : Z) : option A :=
  rd (data M) (offset M i j).

Definition mset {A : Type} (M : Matrix A) (i j : Z) (v : A) : option (Matrix A) :=
  d ← wr (data M) (offset M i j) v; Some (mkMatrix (nrow M) (ncol M) d).

(** [Matrix(nrow, ncol)]: filled with the default value. *)
Definition new_matrix {A : Type} (r c : Z) (dflt : A) : Matrix A :=
  mkMatrix r c (replicate (Z.to_nat (r * c)) dflt).

Definition wf_matrix {A : Type} (M : Matrix A) : Prop :=
  0 ≤ nrow M ∧ 0 ≤ ncol M ∧ Z.of_nat (length (data M)) = nrow M * ncol M.

(** ** clear_border.cpp: the flood filler *)

Record XYPoint : Type := XY { xx : Z; yy : Z }.

#[global] Instance XYPoint_eq_dec : EqDecision XYPoint.
Proof. solve_decision. Defined.

(** [std::fabs(static_cast<double>(a - b)) <= tol] *)
Definition matches (tol : Q) (a b : Z) : bool :=
  Qle_bool (Qabs (inject_Z (a - b))) tol.

(** [static_cast<int>(q)]: truncation towards zero. *)
Definition Qtrunc (q : Q) : Z := Z.quot (Qnum q) (Zpos (Qden q)).

(** Lines 23-25: the collision guard of [_floodFill<int>].  The tolerance
    is a rational and [rc + tol + 1] is the exact sum; the code adds twice
    in [double] and casts the result to [int].  The two agree where neither
    addition rounds and the sum fits an [int]: at tolerance 0 (the
    labeller's), at integer tolerances such as 1, and in general for the
    values that [small] and [exact_tolerance] describe.  Properties of the
    guard are stated for such values only. *)
Definition collision_guard (tc rc : Z) (tol : Q) : Z :=
  if matches tol tc rc then Qtrunc (inject_Z rc + tol + 1)%Q else rc.

Section FloodFill.
Context (fuel : nat) (size : XYPoint) (tc rc : Z) (tol : Q).

Definition pix (m : list Z) (px py : Z) : option Z :=
  rd m (px + py * xx size).

(** Lines 33-35: [while (pt.y >= 0 && |m[pt] - tc| <= tol) pt.y--;] *)
Definition walk_up (m : list Z) (px : Z) (py : Z) : option Z :=
  while fuel
    (λ y, Some (0 <=? y) &&& (v ← pix m px y; Some (matches tol v tc)))
    (λ y, Some (y - 1))
    py.

(** The state of the painting loop: [m], [s], [spanLeft], [spanRight],
    [pt.y]. *)
Definition span_state : Type := list Z * list XYPoint * bool * bool * Z.

Definition span_cond (px : Z) (st : span_state) : option bool :=
  let '(m, s, spanLeft, spanRight, py) := st in
  Some (py <? yy size) &&& (v ← pix m px py; Some (matches tol v tc)).

(** Lines 40-55. *)
Definition span_body (px : Z) (st : span_state) : option span_state :=
  let '(m, s, spanLeft, spanRight, py) := st in
  m ← wr m (px + py * xx size) rc;
  '(s, spanLeft) ←
    (c1 ← Some (negb spanLeft) &&& Some (0 <? px)
            &&& (v ← pix m (px - 1) py; Some (matches tol v tc));
     if c1 : bool then Some (XY (px - 1) py :: s, true)
     else
       c2 ← Some spanLeft &&& Some (0 <? px)
              &&& (v ← pix m (px - 1) py; Some (negb (matches tol v tc)));
       if c2 : bool then Some (s, false) else Some (s, spanLeft));
  '(s, spanRight) ←
    (c3 ← Some (negb spanRight) &&& Some (px <? xx size - 1)
            &&& (v ← pix m (px + 1) py; Some (matches tol v tc));
     if c3 : bool then Some (XY (px + 1) py :: s, true)
     else
       c4 ← Some spanRight &&& Some (px <? xx size - 1)
              &&& (v ← pix m (px + 1) py; Some (negb (matches tol v tc)));
       if c4 : bool then Some (s, false) else Some (s, spanRight));
  Some (m, s, spanLeft, spanRight, py + 1).

(** Lines 30-56: one iteration of the outer loop. *)
Definition fill_step (st : list Z * list XYPoint) : option (list Z * list XYPoint) :=
  match st with
  | (m, pt :: s) =>
      y1 ← walk_up m (xx pt) (yy pt);
      st' ← while fuel (span_cond (xx pt)) (span_body (xx pt))
              (m, s, false, false, y1 + 1);
      let '(m', s', _, _, _) := st' in Some (m', s')
  | (_, []) => None
  end.

Definition fill_cond (st : list Z * list XYPoint) : option bool :=
  Some (negb (bool_decide (st.2 = []))).

Definition fill_loop (m : list Z) (s : list XYPoint) : option (list Z) :=
  st ← while fuel fill_cond fill_step (m, s); Some st.1.
End FloodFill.

(** [_floodFill<int>(m, size, xy, rc, tol)]; the result is the array [m]
    after the call. *)
Definition _floodFill (fuel : nat) (m : list Z) (size xy : XYPoint) (rc : Z)
    (tol : Q) : option (list Z) :=
  tc ← pix size m (xx xy) (yy xy);
  let rc := collision_guard tc rc tol in
  fill_loop fuel size tc rc tol m [xy].

(** ** clear_border.cpp: the labeller.  The raster holds [double]s, of which
    the code only asks whether they equal [0.0]. *)
Section Labeler.
Context {R : Type} (is_zero : R → bool).

Definition _bwlabel (fuel : nat) (src : list R) (res : list Z)
    (size : XYPoint) : option (list Z * Z) :=
  res ← for_ 0 (xx size * yy size)
          (λ i res, v ← rd src i; wr res i (if is_zero v then 0 else -1)) res;
  st ← for_ 0 (yy size) (λ ky st,
         for_ 0 (xx size) (λ kx '(res, pos, idx),
           v ← rd res pos;
           '(res, idx) ←
             (if v =? -1
              then res ← _floodFill fuel res size (XY kx ky) idx 0;
                   Some (res, idx + 1)
              else Some (res, idx));
           Some (res, pos + 1, idx)) st) (res, 0, 1);
  let '(res, _, idx) := st in Some (res, idx - 1).

(** [bwlabel(x)]: the pair of [labeled_image] and [num_labels]. *)
Definition bwlabel (fuel : nat) (x : Matrix R) : option (IntegerMatrix * Z) :=
  let size := XY (nrow x) (ncol x) in
  let res := new_matrix (nrow x) (ncol x) 0 in
  r ← _bwlabel fuel (data x) (data res) size;
  Some (mkMatrix (nrow x) (ncol x) r.1, r.2).
End Labeler.

(** ** clear_border.cpp: border clearing *)

(** [get_border_indices]: the labels found under the border frame.  The
    iteration order of the [unordered_set] is left to [elements]. *)
Definition get_border_indices (labels : IntegerMatrix) (borders : LogicalMatrix)
    : option (list Z) :=
  unique_labels ← for_ 0 (nrow labels) (λ i u,
    for_ 0 (ncol labels) (λ j u,
      b ← mget borders i j;
      if b : bool then l ← mget labels i j; Some ({[ l ]} ∪ u) else Some u) u)
    (∅ : gset Z);
  Some (elements unique_labels).

(** [create_label_mask]. *)
Definition create_label_mask (indices borders_indices : list Z) : option (list bool) :=
  let borders_set : gset Z := list_to_set borders_indices in
  for_ 0 (Z.of_nat (length indices)) (λ i label_mask,
    v ← rd indices i; wr label_mask i (bool_decide (v ∈ borders_set)))
    (replicate (length indices) false).

(** [create_clear_mask]. *)
Definition create_clear_mask (labels : IntegerMatrix) (label_mask : list bool)
    : option LogicalMatrix :=
  for_ 0 (nrow labels) (λ i mask,
    for_ 0 (ncol labels) (λ j mask,
      label ← mget labels i j;
      b ← rd label_mask label;
      mset mask i j b) mask)
    (new_matrix (nrow labels) (ncol labels) false).

(** [clear_border_pixels]: works on [out] in place and returns it. *)
Definition clear_border_pixels {R : Type} (out : Matrix R) (mask : LogicalMatrix)
    (bgval : R) : option (Matrix R) :=
  for_ 0 (nrow out) (λ i out,
    for_ 0 (ncol out) (λ j out,
      b ← mget mask i j;
      if b : bool then mset out i j bgval else Some out) out) out.

(** Lines 203-216 of [clear_border], over the operation [mark i j] that
    stands for [borders(i, j) = true]. *)
Definition border_frame_loops {St : Type} (mark : Z → Z → St → option St)
    (nrow ncol ext : Z) (s : St) : option St :=
  s ← for_ 0 ext (λ i s,
         for_ 0 ncol (λ j s,
           s ← mark i j s; mark (nrow - i - 1) j s) s) s;
  for_ 0 ext (λ i s,
    for_ 0 nrow (λ j s,
      s ← mark j i s; mark j (ncol - i - 1) s) s) s.

(** The index pairs the two loops compute, in order. *)
Definition border_frame_accesses (nrow ncol ext : Z) : list (Z * Z) :=
  default [] (border_frame_loops (λ i j l, Some (l ++ [(i, j)])) nrow ncol ext []).

(** [clear_border(labels, buffer_size, bgval)]: the matrix [out] it returns.
    [out] starts as a clone of [labels]. *)
Definition clear_border {R : Type} (is_zero : R → bool) (fuel : nat)
    (labels : Matrix R) (buffer_size : Z) (bgval : R) : option (Matrix R) :=
  let out := labels in
  let ext := buffer_size + 1 in
  let borders := new_matrix (nrow out) (ncol out) false in
  borders ← border_frame_loops (λ i j b, mset b i j true)
              (nrow out) (ncol out) ext borders;
  labeled_result ← bwlabel is_zero fuel out;
  let labeled_image := labeled_result.1 in
  let num_labels := labeled_result.2 in
  border_indices ← get_border_indices labeled_image borders;
  let indices := seqZ 0 (num_labels + 1) in
  label_mask ← create_label_mask indices border_indices;
  mask ← create_clear_mask labeled_image label_mask;
  clear_border_pixels out mask bgval.

(** ** regionprops_bbox.cpp *)

Definition NA_INTEGER : Z := -2147483648.

Definition regionprops_bbox (labeled_image : IntegerMatrix) (num_labels : Z)
    : option IntegerMatrix :=
  for_ 1 (num_labels + 1) (λ label bboxes,
    ext ← for_ 0 (nrow labeled_image) (λ i ext,
      for_ 0 (ncol labeled_image) (λ j '(x_min, x_max, y_min, y_max),
        l ← mget labeled_image i j;
        if l =? label then
          Some (if i <? x_min then i else x_min,
                if x_max <? i then i else x_max,
                if j <? y_min then j else y_min,
                if y_max <? j then j else y_max)
        else Some (x_min, x_max, y_min, y_max)) ext)
      (nrow labeled_image, -1, ncol labeled_image, -1);
    let '(x_min, x_max, y_min, y_max) := ext in
    if negb (x_max =? -1) then
      bboxes ← mset bboxes (label - 1) 0 x_min;
      bboxes ← mset bboxes (label - 1) 1 x_max;
      bboxes ← mset bboxes (label - 1) 2 y_min;
      mset bboxes (label - 1) 3 y_max
    else
      bboxes ← mset bboxes (label - 1) 0 NA_INTEGER;
      bboxes ← mset bboxes (label - 1) 1 NA_INTEGER;
      bboxes ← mset bboxes (label - 1) 2 NA_INTEGER;
      mset bboxes (label - 1) 3 NA_INTEGER)
    (new_matrix num_labels 4 0).

(** ** process_lung_regions.cpp *)

(** A call returns a value with the warnings it raised, or is stopped by
    [Rcpp::stop], or has no defined result. *)
Inductive result (A : Type) : Type :=
  | Return (a : A) (warnings : list string)
  | Stop (msg : string)
  | Undef.
Arguments Return {A} _ _.
Arguments Stop {A} _.
Arguments Undef {A}.

#[global] Instance result_ret : MRet result := λ A a, Return a [].
#[global] Instance result_bind : MBind result := λ A B f m,
  match m with
  | Return a w =>
      match f a with
      | Return b w' => Return b (w ++ w')
      | Stop msg => Stop msg
      | Undef => Undef
      end
  | Stop msg => Stop msg
  | Undef => Undef
  end.

Definition lift {A : Type} (o : option A) : result A :=
  match o with Some a => Return a [] | None => Undef end.

Definition warning (msg : string) : result unit := Return tt [msg].

Fixpoint forR_up {St : Type} (n : nat) (i : Z) (body : Z → St → result St)
    (s : St) : result St :=
  match n with
  | O => Return s []
  | S n' => s' ← body i s; forR_up n' (i + 1) body s'
  end.

Definition forR {St : Type} (lo hi : Z) (body : Z → St → result St)
    (s : St) : result St :=
  forR_up (Z.to_nat (hi - lo)) lo body s.

(** [for (int label : v) body]. *)
Fixpoint foreachR {A St : Type} (v : list A) (body : A → St → result St)
    (s : St) : result St :=
  match v with
  | [] => Return s []
  | a :: v' => s' ← body a s; foreachR v' body s'
  end.

Definition filter_lung_regions (valid_regions region_areas : list Z)
    : result (list Z) :=
  if bool_decide (valid_regions = []) || bool_decide (region_areas = []) then
    Stop "filter_lung_regions: Empty input vectors detected."
  else
    _ ← foreachR valid_regions (λ label (_ : unit),
          if (label <=? 0) || (Z.of_nat (length region_areas) <? label)
          then Stop "filter_lung_regions: Invalid label found in valid_regions."
          else Return tt []) tt;
    best ← foreachR valid_regions (λ label '(max_area_1, max_area_2, max_label_1, max_label_2),
          area ← lift (rd region_areas (label - 1));
          if max_area_1 <? area then
            Return (area, max_area_1, label, max_label_1) []
          else if max_area_2 <? area then
            Return (max_area_1, area, max_label_1, label) []
          else Return (max_area_1, max_area_2, max_label_1, max_label_2) [])
        (-1, -1, -1, -1);
    let '(_, _, max_label_1, max_label_2) := best in
    let top_two_labels := [] in
    let top_two_labels :=
      if negb (max_label_1 =? -1) then top_two_labels ++ [max_label_1]
      else top_two_labels in
    let top_two_labels :=
      if negb (max_label_2 =? -1) then top_two_labels ++ [max_label_2]
      else top_two_labels in
    _ ← (if (length top_two_labels <? 2)%nat
         then warning "filter_lung_regions: Less than two valid lung regions were found."
         else Return tt []);
    Return top_two_labels [].

(** [process_lung_regions(label_image, regions)]: the pair of
    [processed_image] (the contents of [label_image] at return) and
    [valid_regions]. *)
Definition process_lung_regions (label_image regions : IntegerMatrix)
    : result (IntegerMatrix * list Z) :=
  let n_labels := nrow regions in
  if n_labels =? 0 then Stop "process_lung_regions: No regions provided."
  else
    region_areas ← forR 0 (nrow label_image) (λ i region_areas,
      forR 0 (ncol label_image) (λ j region_areas,
        label ← lift (mget label_image i j);
        if 0 <? label then
          if n_labels <? label then
            Stop "process_lung_regions: Detected a label greater than available regions."
          else
            a ← lift (rd region_areas (label - 1));
            lift (wr region_areas (label - 1) (a + 1))
        else Return region_areas []) region_areas)
      (replicate (Z.to_nat n_labels) 0);
    valid_regions ← forR 0 n_labels (λ i valid_regions,
      x_min ← lift (mget regions i 0);
      x_max ← lift (mget regions i 1);
      y_min ← lift (mget regions i 2);
      y_max ← lift (mget regions i 3);
      let x_range := int_sub x_max x_min in
      let y_range := int_sub y_max y_min in
      if (x_range <? 350) && (y_range <? 350)
      then Return (valid_regions ++ [i + 1]) []
      else Return valid_regions []) [];
    top_two_labels ←
      (if (2 <? length valid_regions)%nat
       then filter_lung_regions valid_regions region_areas
       else Return valid_regions []);
    label_image ← forR 0 (nrow label_image) (λ i label_image,
      forR 0 (ncol label_image) (λ j label_image,
        label ← lift (mget label_image i j);
        if (0 <? label) && negb (bool_decide (label ∈ top_two_labels))
        then lift (mset label_image i j 0)
        else Return label_image []) label_image) label_image;
    Return (label_image, top_two_labels) [].

(** ** Calls from R: who owns the buffers

    An Rcpp matrix is a handle on an R object.  A matrix parameter wraps the
    caller's object without copying it (when the storage type agrees);
    [clone] allocates a fresh object.  The store maps object addresses to
    matrix contents. *)

Definition clone {A : Type} (σ : gmap nat (Matrix A)) (l : nat)
    : option (gmap nat (Matrix A) * nat) :=
  M ← σ !! l;
  let l' := fresh (dom σ) in
  Some (<[l' := M]> σ, l').

(** [clear_border] called on the object at [labels]: line 190 clones it into
    [out], every later write goes to [out], which is returned. *)
Definition clear_border_call {R : Type} (is_zero : R → bool) (fuel : nat)
    (σ : gmap nat (Matrix R)) (labels : nat) (buffer_size : Z) (bgval : R)
    : option (gmap nat (Matrix R) * nat) :=
  '(σ, out) ← clone σ labels;
  M ← σ !! out;
  M' ← clear_border is_zero fuel M buffer_size bgval;
  Some (<[out := M']> σ, out).

(** [process_lung_regions] called on the integer matrix at [label_image]:
    there is no clone, line 108 writes into the caller's object, and
    [processed_image] is that same object. *)
Definition process_lung_regions_call (σ : gmap nat IntegerMatrix)
    (label_image : nat) (regions : IntegerMatrix)
    : result (gmap nat IntegerMatrix * (nat * list Z)) :=
  M ← lift (σ !! label_image);
  r ← process_lung_regions M regions;
  Return (<[label_image := r.1]> σ, (label_image, r.2)) [].

(** ** The block extractors

    [Matrix(nrow, ncol)] with computed extents: R rejects negative ones. *)
Definition alloc_matrix {A : Type} (r c : Z) (dflt : A) : option (Matrix A) :=
  if (r <? 0) || (c <? 0) then None else Some (new_matrix r c dflt).

(** ** generate_lung_tissue_blocks_slice_cpp.cpp *)


(** ** generate_nodule_block_list_slice_cpp.cpp *)

Definition generate_nodule_block_list_slice_cpp {R : Type} (zero : R)
    (image_slice image_reg_slice : Matrix R)
    (x_start x_end y_start y_end split_size : Z) : option (Matrix R) :=
  nodule_block_list_slice ← alloc_matrix 2 (split_size * split_size) zero;
  st ← for_ y_start y_end (λ k st,
    for_ x_start x_end (λ l '(nodule_block_list_slice, pixel_index),
      v ← mget image_slice k l;
      nodule_block_list_slice ← mset nodule_block_list_slice 0 pixel_index v;
      w ← mget image_reg_slice k l;
      nodule_block_list_slice ← mset nodule_block_list_slice 1 pixel_index w;
      Some (nodule_block_list_slice, pixel_index + 1)) st)
    (nodule_block_list_slice, 0);
  Some st.1.

(** ** generate_nodule_block_list_slice_cpp_v2.cpp *)

Definition generate_nodule_block_list_slice_cpp_v2 {R : Type} (zero : R)
    (image_slice image_reg_slice : Matrix R)
    (x_start x_end y_start y_end split_size : Z) : option (list R) :=
  let current_slice := replicate (Z.to_nat (2 * split_size * split_size)) zero in
  st ← for_ y_start y_end (λ k st,
    for_ x_start x_end (λ l '(current_slice, pixel_index),
      v ← mget image_slice k l;
      current_slice ← wr current_slice pixel_index v;
      w ← mget image_reg_slice k l;
      current_slice ← wr current_slice (split_size * split_size + pixel_index) w;
      Some (current_slice, pixel_index + 1)) st)
    (current_slice, 0);
  Some st.1.

(** ** trapz_rcpp.cpp.  The arithmetic of [double] is a parameter: the
    constants [0.0] and [0.5] and the three operations the code uses. *)
Section Trapz.
Context {D : Type} (zero half : D) (add sub mul : D → D → D).

Definition trapz_rcpp (x y : list D) : result D :=
  let m := Z.of_nat (length x) in
  if negb (Z.of_nat (length y) =? m) then
    Stop "Arguments 'x' and 'y' must have the same length."
  else if m <=? 0 then Return zero []
  else
    let xp := replicate (Z.to_nat (m * 2)) zero in
    let yp := replicate (Z.to_nat (m * 2)) zero in
    '(xp, yp) ← forR 0 m (λ i '(xp, yp),
      xi ← lift (rd x i);
      xp ← lift (wr xp i xi);
      xr ← lift (rd x (m - i - 1));
      xp ← lift (wr xp (m + i) xr);
      yp ← lift (wr yp i zero);
      yr ← lift (rd y (m - i - 1));
      yp ← lift (wr yp (m + i) yr);
      Return (xp, yp) []) (xp, yp);
    let n := 2 * m in
    '(p1, p2) ← forR 0 (n - 1) (λ i '(p1, p2),
      a ← lift (rd xp i);
      b ← lift (rd yp (i + 1));
      c ← lift (rd xp (i + 1));
      d ← lift (rd yp i);
      Return (add p1 (mul a b), add p2 (mul c d)) []) (zero, zero);
    a ← lift (rd xp (n - 1));
    b ← lift (rd yp 0);
    let p1 := add p1 (mul a b) in
    c ← lift (rd xp 0);
    d ← lift (rd yp (n - 1));
    let p2 := add p2 (mul c d) in
    Return (mul half (sub p1 p2)) [].
End Trapz.

(** * Specification vocabulary *)

(** A cell is addressed by [XY row col]. *)
Definition in_matrix {A : Type} (M : Matrix A) (p : XYPoint) : Prop :=
  0 ≤ xx p < nrow M ∧ 0 ≤ yy p < ncol M.

(** Two cells are neighbours iff they share an edge. *)
Definition adj4 (p q : XYPoint) : Prop :=
  (xx p = xx q ∧ (yy p = yy q + 1 ∨ yy q = yy p + 1)) ∨
  (yy p = yy q ∧ (xx p = xx q + 1 ∨ xx q = xx p + 1)).

(** [conn P p q]: a path of edge-sharing cells, all satisfying [P], leads
    from [p] to [q]. *)
Inductive conn (P : XYPoint → Prop) (p : XYPoint) : XYPoint → Prop :=
  | conn_refl : P p → conn P p p
  | conn_step q r : conn P p q → adj4 q r → P r → conn P p r.

(** [P] has exactly [n] maximal 4-connected components: there are [n]
    representatives, pairwise unconnected, that reach every cell of [P]. *)
Definition component_count (P : XYPoint → Prop) (n : Z) : Prop :=
  ∃ reps : list XYPoint,
    Z.of_nat (length reps) = n ∧
    (∀ r, r ∈ reps → P r) ∧
    (∀ i j r r', reps !! i = Some r → reps !! j = Some r' → conn P r r' → i = j) ∧
    (∀ p, P p → ∃ r, r ∈ reps ∧ conn P r p).

(** [k] occurs at storage position [i] and nowhere before it. *)
Definition first_at (m : list Z) (k i : Z) : Prop :=
  rd m i = Some k ∧ ∀ j, 0 ≤ j < i → rd m j ≠ Some k.

Section RasterSpec.
Context {R : Type} (is_zero : R → bool).

(** Foreground: a cell of the raster whose value is not [0.0]. *)
Definition foreground (x : Matrix R) (p : XYPoint) : Prop :=
  in_matrix x p ∧ ∃ v, mget x (xx p) (yy p) = Some v ∧ is_zero v = false.

Definition background (x : Matrix R) (p : XYPoint) : Prop :=
  in_matrix x p ∧ ∃ v, mget x (xx p) (yy p) = Some v ∧ is_zero v = true.

Definition connected (x : Matrix R) (p q : XYPoint) : Prop :=
  conn (foreground x) p q.
End RasterSpec.

Definition cell {A : Type} (M : Matrix A) (p : XYPoint) : option A :=
  mget M (xx p) (yy p).

(** The pixel area of a label: the number of pixels that carry it. *)
Definition area (label_image : IntegerMatrix) (l : Z) : Z :=
  Z.of_nat (length (filter (λ v, v = l) (data label_image))).

(** Label [l] passes the extent filter: both ranges of its bounding box, as
    the [int] subtraction gives them, are strictly below 350. *)
Definition passes (regions : IntegerMatrix) (l : Z) : bool :=
  default false
    (x_min ← mget regions (l - 1) 0;
     x_max ← mget regions (l - 1) 1;
     y_min ← mget regions (l - 1) 2;
     y_max ← mget regions (l - 1) 3;
     Some ((int_sub x_max x_min <? 350) && (int_sub y_max y_min <? 350))).

(** The candidate list, in the order the code builds it. *)
Definition candidates (regions : IntegerMatrix) : list Z :=
  filter (λ l, passes regions l = true) (seqZ 1 (nrow regions)).

(** [z] is a value of type [int]. *)
Definition in_int (z : Z) : Prop := -2147483648 ≤ z ≤ 2147483647.

(** [z] lies between [-2^29] and [2^29]: differences of two such values,
    and of such a value and a guarded fill value, fit an [int]. *)
Definition small (z : Z) : Prop := -536870912 ≤ z ≤ 536870912.

(** A tolerance at which the guard computes in [double] what it computes in
    exact arithmetic: a multiple of [2^-20] between 0 and [2^29].  For a
    [small] fill value [rc], both [rc + tol] and [rc + tol + 1] are then
    multiples of [2^-20] of magnitude at most [2^30 + 1]; they have at most
    51 significant bits, so neither [double] addition rounds (binary64
    carries 53 bits), and the truncated sum fits an [int]. *)
Definition exact_tolerance (tol : Q) : Prop :=
  (0 <= tol)%Q ∧ (tol <= 536870912)%Q ∧ (Z.pos (Qden tol) | 1048576).

(** Both ranges of every row of the table fit an [int]: no range
    subtraction overflows.  Every table that [regionprops_bbox] makes for a
    grid with [int] extents is of this kind (a row holds bounds inside the
    grid, or NA four times). *)
Definition ranges_fit (regions : IntegerMatrix) : Prop :=
  ∀ i x_min x_max y_min y_max, 0 ≤ i < nrow regions →
    cell regions (XY i 0) = Some x_min → cell regions (XY i 1) = Some x_max →
    cell regions (XY i 2) = Some y_min → cell regions (XY i 3) = Some y_max →
    in_int (x_max - x_min) ∧ in_int (y_max - y_min).

(** [m] is the first element of [l] with the largest [f]. *)
Definition first_max (f : Z → Z) (l : list Z) (m : Z) : Prop :=
  ∃ pre post, l = pre ++ m :: post ∧
    (∀ x, x ∈ pre → f x < f m) ∧ (∀ x, x ∈ post → f x ≤ f m).

(** [m1] is the first maximum of [l] and [m2] the first maximum of the
    rest. *)
Definition top_two (f : Z → Z) (l : list Z) (m1 m2 : Z) : Prop :=
  ∃ pre post, l = pre ++ m1 :: post ∧
    (∀ x, x ∈ pre → f x < f m1) ∧ (∀ x, x ∈ post → f x ≤ f m1) ∧
    first_max f (pre ++ post) m2.

(** The border frame: the outer [ext] rows and columns on all four sides. *)
Definition in_frame (nr nc ext : Z) (p : XYPoint) : Prop :=
  xx p < ext ∨ nr - ext ≤ xx p ∨ yy p < ext ∨ nc - ext ≤ yy p.

(** The border frame of [x] for [buffer_size]: [buffer_size + 1] layers. *)
Definition frame {A : Type} (x : Matrix A) (buffer_size : Z) (p : XYPoint) : Prop :=
  in_frame (nrow x) (ncol x) (buffer_size + 1) p.

(** Some pixel of the grid carries [L] and has [f p = k]. *)
Definition attained (li : IntegerMatrix) (L : Z) (f : XYPoint → Z) (k : Z) : Prop :=
  ∃ p, in_matrix li p ∧ cell li p = Some L ∧ f p = k.

(** No two pixels of label [l] are 350 or more rows apart, or 350 or more
    columns apart: with the bounds of its box, [row_max - row_min < 350] and
    [col_max - col_min < 350], so the label covers at most 350 rows and at
    most 350 columns. *)
Definition compact (L : IntegerMatrix) (l : Z) : Prop :=
  ∀ p q, in_matrix L p → in_matrix L q → cell L p = Some l → cell L q = Some l →
    xx q - xx p < 350 ∧ yy q - yy p < 350.

(** The flat vector [vec] holds row 0 of the 2-row matrix [M], then row 1. *)
Definition rows_laid_out {R : Type} (n : Z) (M : Matrix R) (vec : list R) : Prop :=
  nrow M = 2 ∧ Z.of_nat (length (data M)) = 2 * n ∧ Z.of_nat (length vec) = 2 * n ∧
  ∀ q, 0 ≤ q < n →
    rd vec q = cell M (XY 0 q) ∧ rd vec (n + q) = cell M (XY 1 q).

(** [v[i]], and 0.0 outside the vector. *)
Definition at_ {D : Type} (zero : D) (v : list D) (i : Z) : D :=
  default zero (rd v i).

(** The sum [f 0 + ... + f (k - 1)], added up from the left. *)
Fixpoint sum_upto {D : Type} (zero : D) (add : D → D → D) (f : Z → D) (k : nat) : D :=
  match k with
  | O => zero
  | S k' => add (sum_upto zero add f k') (f (Z.of_nat k'))
  end.

(** The trapezoid rule over the nodes [x], [y], without the factor one
    half. *)
Definition trapezoids {D : Type} (zero : D) (add mul sub : D → D → D)
    (x y : list D) : D :=
  sum_upto zero add
    (λ s, mul (sub (at_ zero x (s + 1)) (at_ zero x s))
              (add (at_ zero y (s + 1)) (at_ zero y s)))
    (length x - 1).

(** ** Sample inputs *)

(** Two nonzero cells that touch only at a corner. *)
Definition diagonal_raster : Matrix Z := mkMatrix 2 2 [1; 0; 0; 1].

(** A corner pixel and the centre pixel of a 3-by-3 raster. *)
Definition two_component_raster : Matrix Z :=
  mkMatrix 3 3 [1; 0; 0;  0; 1; 0;  0; 0; 0].

(** Three regions of areas 2, 1 and 3 with small bounding boxes. *)
Definition three_region_labels : IntegerMatrix :=
  mkMatrix 2 3 [1; 1;  2; 3;  3; 3].
Definition three_region_bboxes : IntegerMatrix :=
  mkMatrix 3 4 [0; 0; 0;  1; 0; 1;  0; 1; 1;  0; 1; 2].

(** * Proofs *)

(** ** Loop rules *)

Lemma while_rule {St : Type} (I : St → Prop) (mu : St → nat)
    (cond : St → option bool) (body : St → option St) :
  (∀ s, I s → ∃ c, cond s = Some c ∧
     (c = true → ∃ s', body s = Some s' ∧ I s' ∧ (mu s' < mu s)%nat)) →
  ∀ fuel s, I s → (mu s < fuel)%nat →
    ∃ s', while fuel cond body s = Some s' ∧ I s' ∧ cond s' = Some false.
Proof.
  intros Hstep fuel. induction fuel as [|fuel IH]; intros s Hs Hmu; [lia|].
  destruct (Hstep s Hs) as (c & Hc & Hbody). simpl. rewrite Hc. simpl.
  destruct c.
  - destruct (Hbody eq_refl) as (s' & Hb & Hs' & Hlt). rewrite Hb. simpl.
    apply IH; [done | lia].
  - eauto.
Qed.

Lemma for_up_rule {St : Type} (I : Z → St → Prop) (body : Z → St → option St)
    (n : nat) (lo : Z) (s : St) :
  I lo s →
  (∀ i s, lo ≤ i < lo + Z.of_nat n → I i s → ∃ s', body i s = Some s' ∧ I (i + 1) s') →
  ∃ s', for_up n lo body s = Some s' ∧ I (lo + Z.of_nat n) s'.
Proof.
  revert lo s. induction n as [|n IH]; intros lo s Hs Hstep.
  - exists s. split; [done|]. by replace (lo + Z.of_nat 0) with lo by lia.
  - destruct (Hstep lo s) as (s1 & Hb & H1); [lia | done |].
    simpl. rewrite Hb. simpl.
    destruct (IH (lo + 1) s1) as (s2 & Hf & H2); [done | |].
    + intros i t Hi. apply Hstep. lia.
    + exists s2. split; [done|].
      by replace (lo + Z.of_nat (S n)) with (lo + 1 + Z.of_nat n) by lia.
Qed.

Lemma for_rule {St : Type} (I : Z → St → Prop) (body : Z → St → option St)
    (lo hi : Z) (s : St) :
  lo ≤ hi → I lo s →
  (∀ i s, lo ≤ i < hi → I i s → ∃ s', body i s = Some s' ∧ I (i + 1) s') →
  ∃ s', for_ lo hi body s = Some s' ∧ I hi s'.
Proof.
  intros Hle Hs Hstep. unfold for_.
  destruct (for_up_rule I body (Z.to_nat (hi - lo)) lo s) as (s' & Hf & Hs');
    [done | |].
  - intros i t Hi. apply Hstep. lia.
  - exists s'. split; [done|].
    by replace (lo + Z.of_nat (Z.to_nat (hi - lo))) with hi in Hs' by lia.
Qed.

Lemma for_empty {St : Type} (body : Z → St → option St) (lo hi : Z) (s : St) :
  hi ≤ lo → for_ lo hi body s = Some s.
Proof. intros H. unfold for_. by replace (Z.to_nat (hi - lo)) with O by lia. Qed.

(** ** Array accesses *)

Lemma rd_Some {A : Type} (m : list A) (i : Z) (v : A) :
  rd m i = Some v ↔ 0 ≤ i ∧ m !! Z.to_nat i = Some v.
Proof.
  unfold rd. destruct (0 <=? i) eqn:E.
  - apply Z.leb_le in E. tauto.
  - apply Z.leb_gt in E. split; [done | lia].
Qed.

Lemma rd_is_Some {A : Type} (m : list A) (i : Z) :
  0 ≤ i < Z.of_nat (length m) → ∃ v, rd m i = Some v.
Proof.
  intros Hi. destruct (lookup_lt_is_Some_2 m (Z.to_nat i)) as [v Hv]; [lia|].
  exists v. apply rd_Some. split; [lia | done].
Qed.

Lemma rd_bound {A : Type} (m : list A) (i : Z) (v : A) :
  rd m i = Some v → 0 ≤ i < Z.of_nat (length m).
Proof.
  intros [H0 Hl]%rd_Some. apply lookup_lt_Some in Hl. lia.
Qed.

Lemma wr_Some {A : Type} (m m' : list A) (i : Z) (v : A) :
  wr m i v = Some m' ↔
  0 ≤ i < Z.of_nat (length m) ∧ m' = <[Z.to_nat i := v]> m.
Proof.
  unfold wr. destruct (0 <=? i) eqn:E1; simpl.
  - apply Z.leb_le in E1. destruct (i <? Z.of_nat (length m)) eqn:E2.
    + apply Z.ltb_lt in E2. split; [intros [= <-]; auto | intros [_ ->]; auto].
    + apply Z.ltb_ge in E2. split; [done | lia].
  - apply Z.leb_gt in E1. split; [done | lia].
Qed.

Lemma wr_is_Some {A : Type} (m : list A) (i : Z) (v : A) :
  0 ≤ i < Z.of_nat (length m) → wr m i v = Some (<[Z.to_nat i := v]> m).
Proof. intros Hi. by apply wr_Some. Qed.

Lemma wr_length {A : Type} (m m' : list A) (i : Z) (v : A) :
  wr m i v = Some m' → length m' = length m.
Proof. intros [_ ->]%wr_Some. apply length_insert. Qed.

Lemma rd_wr_eq {A : Type} (m m' : list A) (i : Z) (v : A) :
  wr m i v = Some m' → rd m' i = Some v.
Proof.
  intros [Hi ->]%wr_Some. apply rd_Some. split; [lia|].
  apply list_lookup_insert_eq. lia.
Qed.

Lemma rd_wr_ne {A : Type} (m m' : list A) (i j : Z) (v : A) :
  wr m i v = Some m' → i ≠ j → rd m' j = rd m j.
Proof.
  intros [Hi ->]%wr_Some Hne. unfold rd. destruct (Z.leb_spec 0 j); [|done].
  apply list_lookup_insert_ne. lia.
Qed.

(** ** 4-connectivity *)

Lemma adj4_sym (p q : XYPoint) : adj4 p q → adj4 q p.
Proof. unfold adj4. lia. Qed.

Lemma conn_start (P : XYPoint → Prop) (p q : XYPoint) : conn P p q → P p.
Proof. induction 1; auto. Qed.

Lemma conn_end (P : XYPoint → Prop) (p q : XYPoint) : conn P p q → P q.
Proof. destruct 1; auto. Qed.

Lemma conn_trans (P : XYPoint → Prop) (p q r : XYPoint) :
  conn P p q → conn P q r → conn P p r.
Proof. intros Hpq Hqr. induction Hqr; eauto using conn_step. Qed.

Lemma conn_sym (P : XYPoint → Prop) (p q : XYPoint) : conn P p q → conn P q p.
Proof.
  intros Hpq. induction Hpq as [Hp | q r Hpq IH Hadj Hr].
  - by apply conn_refl.
  - apply conn_trans with q; [|done].
    apply conn_step with r; [by apply conn_refl | by apply adj4_sym |].
    by apply (conn_end P p q).
Qed.

Lemma conn_mono (P Q : XYPoint → Prop) (p q : XYPoint) :
  (∀ r, P r → Q r) → conn P p q → conn Q p q.
Proof. intros HPQ. induction 1; eauto using conn_refl, conn_step. Qed.

(** Restricting to a set closed under [P]-neighbours keeps connectivity. *)
Lemma conn_closed (P Q : XYPoint → Prop) (p q : XYPoint) :
  (∀ a b, Q a → P a → adj4 a b → P b → Q b) →
  Q p → conn P p q → conn (λ r, P r ∧ Q r) p q ∧ Q q.
Proof.
  intros Hcl Hp. induction 1 as [Hpp | q r Hpq [IH1 IH2] Hadj Hr].
  - split; [by apply conn_refl | done].
  - assert (Q r) by (apply (Hcl q r); [done | by apply (conn_end P p q) | done..]).
    split; [|done]. by apply conn_step with q.
Qed.

(** The number of components is determined by the set: two families of
    representatives have the same size. *)
Lemma pigeonhole_rel (n m : nat) (Rel : nat → nat → Prop) :
  (∀ i, (i < n)%nat → ∃ j, (j < m)%nat ∧ Rel i j) →
  (∀ i1 i2 j, (i1 < n)%nat → (i2 < n)%nat → Rel i1 j → Rel i2 j → i1 = i2) →
  (n ≤ m)%nat.
Proof.
  revert m Rel. induction n as [|n IH]; intros m Rel Htot Hinj; [lia|].
  destruct (Htot n) as (j0 & Hj0 & Hr0); [lia|].
  destruct m as [|m]; [lia|]. apply le_n_S.
  apply (IH m (λ i j, Rel i (if decide (j < j0)%nat then j else S j))).
  - intros i Hi. destruct (Htot i) as (j & Hj & Hr); [lia|].
    assert (j ≠ j0).
    { intros ->. assert (i = n) by (apply (Hinj i n j0); done || lia). lia. }
    destruct (decide (j < j0)%nat) as [Hlt|Hge].
    + exists j. split; [lia|]. by rewrite decide_True.
    + exists (j - 1)%nat. split; [lia|]. rewrite decide_False by lia.
      by replace (S (j - 1)) with j by lia.
  - intros i1 i2 j Hi1 Hi2 H1 H2. cbv beta in H1, H2.
    eapply Hinj; [| | exact H1 | exact H2]; lia.
Qed.

Lemma component_count_le (P : XYPoint → Prop) (n m : Z) :
  component_count P n → component_count P m → n ≤ m.
Proof.
  intros (reps & <- & HP & Hsep & Hcov) (reps' & <- & HP' & Hsep' & Hcov').
  apply inj_le.
  apply (pigeonhole_rel _ _
    (λ i j, ∃ r r', reps !! i = Some r ∧ reps' !! j = Some r' ∧ conn P r r')).
  - intros i Hi. destruct (lookup_lt_is_Some_2 reps i Hi) as [r Hr].
    assert (Pr : P r) by (apply HP; by apply list_elem_of_lookup_2 in Hr).
    destruct (Hcov' r Pr) as (r' & [j Hj]%list_elem_of_lookup & Hc).
    exists j. split; [by apply lookup_lt_Some in Hj|].
    exists r, r'. split; [done|]. split; [done|]. by apply conn_sym.
  - intros i1 i2 j _ _ (r1 & r' & H1 & Hj & Hc1) (r2 & r'' & H2 & Hj' & Hc2).
    assert (r'' = r') as -> by congruence.
    apply (Hsep i1 i2 r1 r2 H1 H2). apply conn_trans with r'; [done|].
    by apply conn_sym.
Qed.

Lemma component_count_unique (P : XYPoint → Prop) (n m : Z) :
  component_count P n → component_count P m → n = m.
Proof.
  intros Hn Hm. pose proof (component_count_le P n m Hn Hm).
  pose proof (component_count_le P m n Hm Hn). lia.
Qed.

(** ** Grids *)

Section Grid.
Context (size : XYPoint).
Let W := xx size.
Let H := yy size.

Definition inb (x y : Z) : Prop := 0 ≤ x < W ∧ 0 ≤ y < H.

Definition grid {A : Type} (m : list A) : Prop :=
  Z.of_nat (length m) = W * H.

Lemma inb_index (x y : Z) : inb x y → 0 ≤ x + y * W < W * H.
Proof. unfold inb. nia. Qed.

Lemma index_inj (x y x' y' : Z) :
  0 ≤ x < W → 0 ≤ x' < W → x + y * W = x' + y' * W → x = x' ∧ y = y'.
Proof. intros Hx Hx' He. assert (y = y') by nia. subst. lia. Qed.

Lemma pix_inb (m : list Z) (x y : Z) :
  grid m → inb x y → ∃ v, pix size m x y = Some v.
Proof.
  intros Hg Hi. apply rd_is_Some. rewrite Hg. by apply inb_index.
Qed.

Lemma pix_wr_eq (m m' : list Z) (x y v : Z) :
  wr m (x + y * xx size) v = Some m' → pix size m' x y = Some v.
Proof. apply rd_wr_eq. Qed.

Lemma pix_wr_ne (m m' : list Z) (x y x' y' v : Z) :
  wr m (x + y * xx size) v = Some m' →
  0 ≤ x < W → 0 ≤ x' < W → (x, y) ≠ (x', y') →
  pix size m' x' y' = pix size m x' y'.
Proof.
  intros Hw Hx Hx' Hne. eapply rd_wr_ne; [done|].
  intros He. apply index_inj in He as [-> ->]; done.
Qed.
End Grid.

Lemma flat_inb (size : XYPoint) (i : Z) :
  0 ≤ xx size → 0 ≤ i < xx size * yy size →
  inb size (i `mod` xx size) (i `div` xx size) ∧
  i = i `mod` xx size + i `div` xx size * xx size.
Proof.
  intros HW Hi.
  assert (0 < xx size).
  { destruct (Z.eq_dec (xx size) 0) as [E|]; [rewrite E in Hi|]; lia. }
  pose proof (Z.mod_pos_bound i (xx size)).
  pose proof (Z.div_mod i (xx size)).
  assert (i `div` xx size < yy size) by (apply Z.div_lt_upper_bound; lia).
  assert (0 ≤ i `div` xx size) by (apply Z.div_pos; lia).
  unfold inb. lia.
Qed.

(** ** The flood filler paints the 4-connected region of the seed *)

Section FillCorrect.
Context (fuel : nat) (size : XYPoint) (tc rc : Z) (tol : Q).
Hypothesis Hrc : matches tol rc tc = false.

(** The cell [(x, y)] is in the grid and its value is within [tol] of the
    target. *)
Definition hit (m : list Z) (x y : Z) : Prop :=
  inb size x y ∧ ∃ v, pix size m x y = Some v ∧ matches tol v tc = true.

Definition hitp (m : list Z) (p : XYPoint) : Prop := hit m (xx p) (yy p).

Lemma probe (m : list Z) (x y : Z) :
  grid size m → inb size x y →
  ∃ b, (v ← pix size m x y; Some (matches tol v tc)) = Some b ∧
       (b = true ↔ hit m x y).
Proof.
  intros Hg Hi. destruct (pix_inb size m x y Hg Hi) as [v Hv].
  exists (matches tol v tc). rewrite Hv. split; [done|]. unfold hit. split.
  - intros Hm. eauto.
  - intros (_ & v' & Hv' & Hm). congruence.
Qed.

Lemma hit_inb (m : list Z) (x y : Z) : hit m x y → inb size x y.
Proof. by intros [? _]. Qed.

Lemma hit_not_rc (m : list Z) (x y : Z) :
  pix size m x y = Some rc → ¬ hit m x y.
Proof. intros Hp (_ & v & Hv & Hm). congruence. Qed.

Lemma hit_ext (m m' : list Z) (x y : Z) :
  pix size m' x y = pix size m x y → hit m x y → hit m' x y.
Proof. unfold hit. intros ->. done. Qed.

Lemma walk_up_spec (m : list Z) (x y0 : Z) :
  grid size m → 0 ≤ x < xx size → -1 ≤ y0 < yy size →
  (Z.to_nat (y0 + 1) < fuel)%nat →
  ∃ y1, walk_up fuel size tc tol m x y0 = Some y1 ∧ -1 ≤ y1 ≤ y0 ∧
        (∀ y, y1 < y ≤ y0 → hit m x y) ∧ ¬ hit m x y1.
Proof.
  intros Hg Hx Hy Hf. unfold walk_up.
  match goal with |- context [while _ ?c ?b _] =>
    destruct (while_rule
      (λ y, -1 ≤ y ≤ y0 ∧ ∀ y', y < y' ≤ y0 → hit m x y')
      (λ y, Z.to_nat (y + 1)) c b) with (fuel := fuel) (s := y0)
      as (y1 & Hw & [Hr Hall] & Hc)
  end.
  - intros y [Hyr Hall]. destruct (Z.leb_spec 0 y) as [Hy0|Hy0]; simpl.
    + destruct (probe m x y) as (b & Hb & Hbh); [done | unfold inb; lia |].
      exists b. split; [done|]. intros ->. eexists. split; [done|].
      split; [|lia]. split; [lia|]. intros y' Hy'.
      destruct (decide (y' = y)) as [->|]; [by apply Hbh | apply Hall; lia].
    + exists false. split; [done|]. done.
  - split; [lia|]. intros; lia.
  - done.
  - exists y1. split; [done|]. split; [done|]. split; [done|].
    intros Hh. destruct (Z.leb_spec 0 y1) as [Hy0|Hy0]; simpl in Hc.
    + destruct (probe m x y1) as (b & Hb & Hbh); [done | by apply hit_inb in Hh |].
      rewrite Hb in Hc. apply Hbh in Hh. congruence.
    + apply hit_inb in Hh. unfold inb in Hh. lia.
Qed.

(** The number of cells still matching the target: the variant of the
    outer loop. *)
Fixpoint tally (m : list Z) : nat :=
  match m with
  | [] => O
  | v :: m' => ((if matches tol v tc then 1 else 0) + tally m')%nat
  end.

Lemma tally_le (m : list Z) : (tally m ≤ length m)%nat.
Proof. induction m as [|v m IH]; simpl; [lia|]. destruct (matches tol v tc); lia. Qed.

Lemma tally_insert (m : list Z) (i : nat) (v : Z) :
  m !! i = Some v → matches tol v tc = true →
  (tally (<[i := rc]> m) + 1 = tally m)%nat.
Proof.
  revert i. induction m as [|w m IH]; intros [|i] Hl Hm; simplify_eq/=.
  - rewrite Hrc, Hm. lia.
  - rewrite <- (IH i Hl Hm). lia.
Qed.

Lemma tally_paint (m m' : list Z) (x y : Z) :
  hit m x y → wr m (x + y * xx size) rc = Some m' →
  (tally m' + 1 = tally m)%nat.
Proof.
  intros (_ & v & Hv & Hm) [_ ->]%wr_Some.
  apply rd_Some in Hv as [_ Hv]. by apply tally_insert with v.
Qed.

(** One neighbour test of the painting loop (the [if]/[else if] pairs of
    lines 42-47 and 49-54): [g] is the bounds guard, [pr] the read. *)
Lemma side_check (g b sp : bool) (pt : XYPoint) (s : list XYPoint)
    (pr : option Z) :
  (g = true → ∃ v, pr = Some v ∧ matches tol v tc = b) →
  (c1 ← Some (negb sp) &&& Some g &&& (v ← pr; Some (matches tol v tc));
   if c1 : bool then Some (pt :: s, true)
   else
     c2 ← Some sp &&& Some g &&& (v ← pr; Some (negb (matches tol v tc)));
     if c2 : bool then Some (s, false) else Some (s, sp))
  = Some (if negb sp && g && b then pt :: s else s, if g then b else sp).
Proof.
  intros Hg. destruct g.
  - destruct (Hg eq_refl) as (v & -> & <-).
    destruct sp; simpl; by destruct (matches tol v tc).
  - by destruct sp.
Qed.

Lemma span_body_spec (m : list Z) (s : list XYPoint) (sl sr : bool) (x y : Z) :
  grid size m → inb size x y →
  ∃ m1 bl br,
    wr m (x + y * xx size) rc = Some m1 ∧
    span_body size tc rc tol x (m, s, sl, sr, y) =
      Some (m1,
            (if negb sr && (x <? xx size - 1) && br then [XY (x + 1) y] else [])
            ++ (if negb sl && (0 <? x) && bl then [XY (x - 1) y] else []) ++ s,
            if 0 <? x then bl else sl,
            if x <? xx size - 1 then br else sr,
            y + 1) ∧
    (0 < x → (bl = true ↔ hit m (x - 1) y)) ∧
    (x < xx size - 1 → (br = true ↔ hit m (x + 1) y)).
Proof.
  intros Hg Hi.
  assert (Hw : wr m (x + y * xx size) rc
               = Some (<[Z.to_nat (x + y * xx size) := rc]> m)).
  { apply wr_is_Some. rewrite Hg. by apply inb_index. }
  set (m1 := <[Z.to_nat (x + y * xx size) := rc]> m) in *.
  assert (HL : ∃ bl, ((0 <? x) = true →
                ∃ v, pix size m1 (x - 1) y = Some v ∧ matches tol v tc = bl) ∧
               (0 < x → (bl = true ↔ hit m (x - 1) y))).
  { destruct (Z.ltb_spec 0 x) as [Hx|Hx].
    - assert (Hi' : inb size (x - 1) y) by (unfold inb in *; lia).
      destruct (pix_inb size m (x - 1) y Hg Hi') as [v Hv].
      exists (matches tol v tc). split.
      + intros _. exists v. split; [|done]. rewrite <- Hv.
        eapply pix_wr_ne; [done | unfold inb in *; lia.. | intros [=]; lia].
      + intros _. unfold hit. split; [eauto|].
        intros (_ & v' & Hv' & Hm). congruence.
    - exists false. split; [done | lia]. }
  assert (HR : ∃ br, ((x <? xx size - 1) = true →
                ∃ v, pix size m1 (x + 1) y = Some v ∧ matches tol v tc = br) ∧
               (x < xx size - 1 → (br = true ↔ hit m (x + 1) y))).
  { destruct (Z.ltb_spec x (xx size - 1)) as [Hx|Hx].
    - assert (Hi' : inb size (x + 1) y) by (unfold inb in *; lia).
      destruct (pix_inb size m (x + 1) y Hg Hi') as [v Hv].
      exists (matches tol v tc). split.
      + intros _. exists v. split; [|done]. rewrite <- Hv.
        eapply pix_wr_ne; [done | unfold inb in *; lia.. | intros [=]; lia].
      + intros _. unfold hit. split; [eauto|].
        intros (_ & v' & Hv' & Hm). congruence.
    - exists false. split; [done | lia]. }
  destruct HL as (bl & HL1 & HL2), HR as (br & HR1 & HR2).
  exists m1, bl, br. split; [done|]. split; [|done].
  unfold span_body. rewrite Hw. cbn [mbind option_bind].
  rewrite (side_check (0 <? x) bl sl _ _ _ HL1). cbn [mbind option_bind].
  rewrite (side_check (x <? xx size - 1) br sr _ _ _ HR1). cbn [mbind option_bind].
  f_equal. f_equal. f_equal. f_equal.
  destruct (negb sr && (x <? xx size - 1) && br),
           (negb sl && (0 <? x) && bl); done.
Qed.

(** *** The painting loop (lines 39-56) started at [(x, ys)] *)
Section SpanLoop.
Context (m : list Z) (s : list XYPoint) (x ys : Z).
Hypothesis Hg : grid size m.
Hypothesis Hx : 0 ≤ x < xx size.
Hypothesis Hys : 0 ≤ ys ≤ yy size.

(** Every matching cell of column [x'] in rows [ys .. y - 1] lies below
    a pushed seed of that column, with matching cells in between. *)
Definition cover (pushes : list XYPoint) (x' y : Z) : Prop :=
  ∀ y1, ys ≤ y1 < y → hit m x' y1 →
    ∃ y0, XY x' y0 ∈ pushes ∧ ys ≤ y0 ≤ y1 ∧ ∀ y', y0 ≤ y' ≤ y1 → hit m x' y'.

(** What a set span flag stands for. *)
Definition flag (sp : bool) (pushes : list XYPoint) (x' y : Z) : Prop :=
  sp = true →
    ∃ y0, XY x' y0 ∈ pushes ∧ ys ≤ y0 < y ∧ ∀ y', y0 ≤ y' < y → hit m x' y'.

Lemma side_step (pushes pushes' : list XYPoint) (x' y : Z) (g b sp : bool) :
  ys ≤ y →
  cover pushes x' y → flag sp pushes x' y →
  (∀ p, p ∈ pushes → p ∈ pushes') →
  (g = true → (b = true ↔ hit m x' y)) →
  (g = false → ∀ y', ¬ hit m x' y') →
  (negb sp && g && b = true → XY x' y ∈ pushes') →
  cover pushes' x' (y + 1) ∧ flag (if g then b else sp) pushes' x' (y + 1).
Proof.
  intros Hy Hcov Hflag Hincl Hgb Hgf Hpush.
  assert (Hcur : hit m x' y → ∃ y0, XY x' y0 ∈ pushes' ∧ ys ≤ y0 ≤ y ∧
                   ∀ y', y0 ≤ y' ≤ y → hit m x' y').
  { intros Hh. destruct g; [|by destruct (Hgf eq_refl y)].
    assert (b = true) as -> by by apply Hgb.
    destruct sp.
    - destruct (Hflag eq_refl) as (y0 & Hin & Hr & Hall).
      exists y0. split; [by apply Hincl|]. split; [lia|].
      intros y' Hy'. destruct (decide (y' = y)) as [->|]; [done|].
      apply Hall. lia.
    - exists y. split; [by apply Hpush|]. split; [lia|].
      intros y' Hy'. by replace y' with y by lia. }
  split.
  - intros y1 Hy1 Hh. destruct (decide (y1 = y)) as [->|Hne]; [by apply Hcur|].
    destruct (Hcov y1) as (y0 & Hin & Hr & Hall); [lia | done |].
    exists y0. split; [by apply Hincl | done].
  - intros Hsp.
    assert (Hh : hit m x' y).
    { destruct g; [by apply Hgb|]. subst sp.
      destruct (Hflag eq_refl) as (y0 & _ & Hr & Hall).
      destruct (Hgf eq_refl y0). apply Hall. lia. }
    destruct (Hcur Hh) as (y0 & Hin & Hr & Hall).
    exists y0. split; [done|]. split; [lia|]. intros y' Hy'. apply Hall. lia.
Qed.

Definition span_inv (st : span_state) : Prop :=
  let '(mc, sc, sl, sr, y) := st in
  ys ≤ y ≤ yy size ∧ grid size mc ∧
  (∀ y', ys ≤ y' < y → hit m x y') ∧
  (∀ x' y', inb size x' y' →
     pix size mc x' y' =
       if bool_decide (x' = x ∧ ys ≤ y' < y) then Some rc else pix size m x' y') ∧
  (tally mc + Z.to_nat (y - ys) = tally m)%nat ∧
  ∃ pushes, sc = pushes ++ s ∧
    (∀ p, p ∈ pushes →
       hitp m p ∧ (xx p = x - 1 ∨ xx p = x + 1) ∧ ys ≤ yy p < y) ∧
    (length pushes ≤ 2 * Z.to_nat (y - ys))%nat ∧
    cover pushes (x - 1) y ∧ cover pushes (x + 1) y ∧
    flag sl pushes (x - 1) y ∧ flag sr pushes (x + 1) y.

Lemma span_inv_init : span_inv (m, s, false, false, ys).
Proof.
  split; [lia|]. split; [done|]. split; [intros; lia|]. split.
  { intros x' y' Hi. rewrite bool_decide_eq_false_2; [done | lia]. }
  split; [lia|]. exists []. split; [done|]. split.
  { intros p Hp. by apply not_elem_of_nil in Hp. }
  split; [simpl; lia|].
  repeat split; try (intros y1 Hy1; lia); done.
Qed.

Lemma span_inv_hit (mc : list Z) (sc : list XYPoint) (sl sr : bool) (y x' y' : Z) :
  span_inv (mc, sc, sl, sr, y) → ¬ (x' = x ∧ ys ≤ y' < y) →
  hit mc x' y' ↔ hit m x' y'.
Proof.
  intros (_ & _ & _ & Hpix & _) Hout.
  split; intros Hh; pose proof (hit_inb _ _ _ Hh) as Hi;
    (eapply hit_ext; [|done]); rewrite (Hpix x' y' Hi);
    by rewrite bool_decide_eq_false_2.
Qed.

Lemma span_cond_spec (mc : list Z) (sc : list XYPoint) (sl sr : bool) (y : Z) :
  span_inv (mc, sc, sl, sr, y) →
  ∃ c, span_cond size tc tol x (mc, sc, sl, sr, y) = Some c ∧
       (c = true ↔ hit m x y).
Proof.
  intros Hinv. pose proof Hinv as (Hy & Hgc & _). unfold span_cond.
  destruct (Z.ltb_spec y (yy size)) as [Hlt|Hge]; simpl.
  - destruct (probe mc x y) as (b & Hb & Hbh); [done | unfold inb; lia |].
    exists b. split; [done|]. rewrite Hbh.
    apply (span_inv_hit _ _ _ _ _ _ _ Hinv). lia.
  - exists false. split; [done|]. split; [done|].
    intros Hh%hit_inb. unfold inb in Hh. lia.
Qed.

Lemma span_inv_step (mc : list Z) (sc : list XYPoint) (sl sr : bool) (y : Z) :
  span_inv (mc, sc, sl, sr, y) → hit m x y →
  ∃ m1 s1 sl1 sr1,
    span_body size tc rc tol x (mc, sc, sl, sr, y) = Some (m1, s1, sl1, sr1, y + 1) ∧
    span_inv (m1, s1, sl1, sr1, y + 1) ∧ y < yy size.
Proof.
  intros Hinv Hh. pose proof (hit_inb _ _ _ Hh) as Hi.
  pose proof Hinv as (Hy & Hgc & Hrun & Hpix & Htal & pushes & -> & Hps & Hlen
                      & HcL & HcR & HfL & HfR).
  destruct (span_body_spec mc (pushes ++ s) sl sr x y Hgc Hi)
    as (m1 & bl & br & Hw & Hbody & HbL & HbR).
  set (L := if negb sl && (0 <? x) && bl then [XY (x - 1) y] else []) in *.
  set (R := if negb sr && (x <? xx size - 1) && br then [XY (x + 1) y] else []) in *.
  assert (HhitL : 0 < x → bl = true ↔ hit m (x - 1) y).
  { intros H0. rewrite (HbL H0). apply (span_inv_hit _ _ _ _ _ _ _ Hinv). lia. }
  assert (HhitR : x < xx size - 1 → br = true ↔ hit m (x + 1) y).
  { intros H0. rewrite (HbR H0). apply (span_inv_hit _ _ _ _ _ _ _ Hinv). lia. }
  assert (HinL : ∀ p, p ∈ L → p = XY (x - 1) y ∧ hit m (x - 1) y).
  { intros p. unfold L. destruct sl, (Z.ltb_spec 0 x), bl; simpl;
      try (by intros ?%not_elem_of_nil).
    intros ->%list_elem_of_singleton. split; [done|]. by apply HhitL. }
  assert (HinR : ∀ p, p ∈ R → p = XY (x + 1) y ∧ hit m (x + 1) y).
  { intros p. unfold R. destruct sr, (Z.ltb_spec x (xx size - 1)), br; simpl;
      try (by intros ?%not_elem_of_nil).
    intros ->%list_elem_of_singleton. split; [done|]. by apply HhitR. }
  assert (HlenL : (length L ≤ 1)%nat) by (unfold L; destruct (negb sl && (0 <? x) && bl); simpl; lia).
  assert (HlenR : (length R ≤ 1)%nat) by (unfold R; destruct (negb sr && (x <? xx size - 1) && br); simpl; lia).
  exists m1, (R ++ L ++ pushes ++ s),
    (if 0 <? x then bl else sl), (if x <? xx size - 1 then br else sr).
  split; [done|]. split; [|unfold inb in Hi; lia].
  split; [unfold inb in Hi; lia|].
  split; [unfold grid; by rewrite (wr_length _ _ _ _ Hw)|].
  split.
  { intros y' Hy'. destruct (decide (y' = y)) as [->|]; [done|]. apply Hrun. lia. }
  split.
  { intros x' y' Hi'. destruct (decide ((x, y) = (x', y'))) as [[= <- <-]|Hne].
    - rewrite bool_decide_eq_true_2 by lia. by eapply pix_wr_eq.
    - rewrite (pix_wr_ne size mc m1 x y x' y' rc Hw) by (unfold inb in *; done || lia).
      rewrite (Hpix x' y' Hi').
      erewrite (bool_decide_ext (x' = x ∧ ys ≤ y' < y)); [done|].
      split; intros [-> Hr]; (split; [done|]);
        [lia | destruct (decide (y' = y)) as [->|]; [done | lia]]. }
  split.
  { assert (tally m1 + 1 = tally mc)%nat; [|lia].
    eapply tally_paint; [|done].
    apply (span_inv_hit _ _ _ _ _ _ _ Hinv); [lia | done]. }
  exists (R ++ L ++ pushes). split; [by rewrite <- !app_assoc|].
  split.
  { intros p [Hp|[Hp|Hp]%elem_of_app]%elem_of_app.
    - destruct (HinR p Hp) as [-> Hhp]. simpl. split; [done|]. lia.
    - destruct (HinL p Hp) as [-> Hhp]. simpl. split; [done|]. lia.
    - destruct (Hps p Hp) as (? & ? & ?). split; [done|]. lia. }
  split; [rewrite !length_app; lia|].
  destruct (side_step pushes (R ++ L ++ pushes) (x - 1) y (0 <? x) bl sl)
    as [HcL' HfL']; try done; try lia.
  { intros p Hp. rewrite !elem_of_app. auto. }
  { intros ?%Z.ltb_lt. by apply HhitL. }
  { intros ?%Z.ltb_ge y' Hh'%hit_inb. unfold inb in Hh'. lia. }
  { intros Hc. rewrite !elem_of_app. right; left. unfold L. rewrite Hc.
    by apply list_elem_of_singleton. }
  destruct (side_step pushes (R ++ L ++ pushes) (x + 1) y (x <? xx size - 1) br sr)
    as [HcR' HfR']; try done; try lia.
  { intros p Hp. rewrite !elem_of_app. auto. }
  { intros ?%Z.ltb_lt. by apply HhitR. }
  { intros ?%Z.ltb_ge y' Hh'%hit_inb. unfold inb in Hh'. lia. }
  { intros Hc. rewrite !elem_of_app. left. unfold R. rewrite Hc.
    by apply list_elem_of_singleton. }
Qed.

Lemma span_loop_spec :
  (Z.to_nat (yy size - ys) < fuel)%nat →
  ∃ m' sc sl sr ye,
    while fuel (span_cond size tc tol x) (span_body size tc rc tol x)
      (m, s, false, false, ys) = Some (m', sc, sl, sr, ye) ∧
    span_inv (m', sc, sl, sr, ye) ∧ ¬ hit m x ye.
Proof.
  intros Hf.
  destruct (while_rule span_inv (λ st, Z.to_nat (yy size - st.2))
              (span_cond size tc tol x) (span_body size tc rc tol x))
    with (fuel := fuel) (s := (m, s, false, false, ys))
    as (st' & Hw & Hinv & Hc).
  - intros [[[[mc sc] sl] sr] y] Hinv.
    destruct (span_cond_spec mc sc sl sr y Hinv) as (c & Hc & Hch).
    exists c. split; [done|]. intros ->.
    destruct (span_inv_step mc sc sl sr y Hinv) as (m1 & s1 & sl1 & sr1 & Hb & Hinv1 & Hlt);
      [by apply Hch|].
    eexists. split; [done|]. split; [done|]. simpl. lia.
  - apply span_inv_init.
  - done.
  - destruct st' as [[[[m' sc] sl] sr] ye]. exists m', sc, sl, sr, ye.
    split; [done|]. split; [done|].
    destruct (span_cond_spec m' sc sl sr ye Hinv) as (c & Hc' & Hch).
    intros Hh%Hch. congruence.
Qed.
End SpanLoop.

(** *** The outer loop (lines 29-57) *)
Section FillLoop.
Context (m0 : list Z) (seed : XYPoint).
Hypothesis Hg0 : grid size m0.

(** The cells reachable from the seed through matching cells. *)
Definition region (p : XYPoint) : Prop := conn (hitp m0) seed p.

Definition painted (m : list Z) (x y : Z) : Prop :=
  hit m0 x y ∧ pix size m x y = Some rc.

Definition covered (m : list Z) (s : list XYPoint) (x y : Z) : Prop :=
  ∃ y0, XY x y0 ∈ s ∧ y0 ≤ y ∧ ∀ y', y0 ≤ y' ≤ y → hit m x y'.

Definition fill_inv (st : list Z * list XYPoint) : Prop :=
  let '(m, s) := st in
  grid size m ∧
  (∀ x y, inb size x y →
     pix size m x y = pix size m0 x y ∨
     (region (XY x y) ∧ pix size m x y = Some rc)) ∧
  (∀ p, p ∈ s → inb size (xx p) (yy p) ∧ region p) ∧
  (∀ x y y', painted m x y → y' = y + 1 ∨ y' = y - 1 → ¬ hit m x y') ∧
  (∀ x y, hit m x y →
     XY x y = seed ∨ (∃ x', (x' = x + 1 ∨ x' = x - 1) ∧ painted m x' y) →
     covered m s x y).

Lemma fill_inv_hit0 (m : list Z) (s : list XYPoint) (x y : Z) :
  fill_inv (m, s) → hit m x y → hit m0 x y.
Proof.
  intros (_ & Ha & _) Hh. destruct (Ha x y (hit_inb _ _ _ Hh)) as [He|[_ He]].
  - by apply (hit_ext m).
  - by destruct (hit_not_rc m x y).
Qed.

Lemma region_up (x ya : Z) (k : nat) :
  region (XY x ya) →
  (∀ y, ya < y ≤ ya + Z.of_nat k → hit m0 x y) →
  region (XY x (ya + Z.of_nat k)).
Proof.
  intros Hr. induction k as [|k IH]; intros Hall.
  - by replace (ya + Z.of_nat 0) with ya by lia.
  - apply conn_step with (XY x (ya + Z.of_nat k)).
    + apply IH. intros y Hy. apply Hall. lia.
    + left. cbn [xx yy]. lia.
    + apply (Hall (ya + Z.of_nat (S k))). lia.
Qed.

Lemma region_down (x ya : Z) (k : nat) :
  region (XY x ya) →
  (∀ y, ya - Z.of_nat k ≤ y < ya → hit m0 x y) →
  region (XY x (ya - Z.of_nat k)).
Proof.
  intros Hr. induction k as [|k IH]; intros Hall.
  - by replace (ya - Z.of_nat 0) with ya by lia.
  - apply conn_step with (XY x (ya - Z.of_nat k)).
    + apply IH. intros y Hy. apply Hall. lia.
    + left. cbn [xx yy]. lia.
    + apply (Hall (ya - Z.of_nat (S k))). lia.
Qed.

Lemma fill_step_spec (m : list Z) (p : XYPoint) (s : list XYPoint) :
  (Z.to_nat (yy size) < fuel)%nat →
  fill_inv (m, p :: s) →
  ∃ m' s', fill_step fuel size tc rc tol (m, p :: s) = Some (m', s') ∧
           fill_inv (m', s') ∧
           (2 * tally m' + length s' < 2 * tally m + length (p :: s))%nat.
Proof.
  intros Hf Hinv. pose proof Hinv as (Hg & Ha & Hb & Hd & Hc).
  destruct p as [x y0].
  destruct (Hb (XY x y0)) as [Hip Hrp]; [by apply list_elem_of_here|].
  cbn [xx yy] in Hip. pose proof Hip as [Hx Hy0].
  destruct (walk_up_spec m x y0) as (y1 & Hwu & Hy1 & Hup & Hn1);
    [done | done | lia | lia |].
  destruct (span_loop_spec m s x (y1 + 1))
    as (m' & sc & sl & sr & ye & Hw & Hsinv & Hn2); [done | done | lia | lia |].
  destruct Hsinv as (Hye & Hg' & Hrun & Hpix & Htal & pushes & -> & Hps & Hlen
                     & HcL & HcR & _ & _).
  exists m', (pushes ++ s). split.
  { unfold fill_step. cbn [xx yy]. rewrite Hwu. cbn [mbind option_bind].
    by rewrite Hw. }
  remember (y1 + 1) as ys eqn:Hys.
  assert (Hm0 : ∀ x' y', hit m x' y' → hit m0 x' y').
  { intros x' y'. apply (fill_inv_hit0 m (XY x y0 :: s) x' y' Hinv). }
  assert (F1 : hit m x y0 → ys ≤ y0 < ye).
  { intros Hh. assert (y1 ≠ y0) by (by intros ->).
    split; [lia|]. destruct (Z.lt_ge_cases y0 ye) as [|Hge]; [done|].
    destruct Hn2. apply Hup. lia. }
  assert (F2 : ∀ y, ys ≤ y < ye → region (XY x y)).
  { intros y Hy. destruct (Z.le_gt_cases y0 y) as [Hle|Hgt].
    - replace y with (y0 + Z.of_nat (Z.to_nat (y - y0))) by lia.
      apply region_up; [done|]. intros y' Hy'. apply Hm0, Hrun. lia.
    - replace y with (y0 - Z.of_nat (Z.to_nat (y0 - y))) by lia.
      apply region_down; [done|]. intros y' Hy'. apply Hm0, Hup. lia. }
  assert (Fin : ∀ x' y', inb size x' y' → x' = x ∧ ys ≤ y' < ye →
                  pix size m' x' y' = Some rc).
  { intros x' y' Hi Hr. rewrite (Hpix x' y' Hi). by rewrite bool_decide_eq_true_2. }
  assert (Fout : ∀ x' y', inb size x' y' → ¬ (x' = x ∧ ys ≤ y' < ye) →
                  pix size m' x' y' = pix size m x' y').
  { intros x' y' Hi Hr. rewrite (Hpix x' y' Hi). by rewrite bool_decide_eq_false_2. }
  assert (F4 : ∀ x' y', hit m' x' y' →
                 hit m x' y' ∧ ¬ (x' = x ∧ ys ≤ y' < ye)).
  { intros x' y' Hh. pose proof (hit_inb _ _ _ Hh) as Hi.
    destruct (decide (x' = x ∧ ys ≤ y' < ye)) as [Hr|Hr].
    - by destruct (hit_not_rc m' x' y' (Fin x' y' Hi Hr)).
    - split; [|done]. apply (hit_ext m'); [|done]. symmetry. by apply Fout. }
  assert (F5 : ∀ x' y', hit m x' y' → ¬ (x' = x ∧ ys ≤ y' < ye) → hit m' x' y').
  { intros x' y' Hh Hr. apply (hit_ext m); [|done].
    apply Fout; [by apply hit_inb in Hh | done]. }
  split; [|rewrite length_app; simpl; lia].
  split; [done|]. split.
  { (* cells outside the region are untouched *)
    intros x' y' Hi. destruct (decide (x' = x ∧ ys ≤ y' < ye)) as [Hr|Hr].
    - right. split; [|by apply Fin]. destruct Hr as [-> Hr]. by apply F2.
    - rewrite (Fout x' y' Hi Hr). by apply Ha. }
  split.
  { (* the stack holds cells of the region *)
    intros q [Hq|Hq]%elem_of_app.
    - destruct (Hps q Hq) as (Hhq & Hxq & Hyq). split; [by apply hit_inb in Hhq|].
      apply conn_step with (XY x (yy q)); [by apply F2 | |by apply Hm0].
      right. cbn [xx yy]. lia.
    - apply Hb. by apply list_elem_of_further. }
  split.
  { (* painted runs are vertically maximal *)
    intros x' y y' [Hh0 Hp] Hy' Hh'. apply F4 in Hh' as [Hh' Hout].
    pose proof (hit_inb _ _ _ Hh0) as Hi.
    destruct (decide (x' = x ∧ ys ≤ y < ye)) as [[-> Hr]|Hr].
    - assert (y' = ye ∨ y' = y1) as [->| ->] by lia; [by apply Hn2 | by apply Hn1].
    - rewrite (Fout x' y Hi Hr) in Hp. by apply (Hd x' y y'). }
  (* matching cells beside painted ones are covered by the stack *)
  intros x' y Hh' Htrig. apply F4 in Hh' as [Hh Hout].
  assert (Hold : XY x' y = seed ∨ (∃ x'', (x'' = x' + 1 ∨ x'' = x' - 1) ∧ painted m x'' y)
                 → covered m' (pushes ++ s) x' y).
  { intros Ht. destruct (Hc x' y Hh Ht) as (yc & Hin & Hyc & Hseg).
    assert (Hdis : ∀ y'', yc ≤ y'' ≤ y → ¬ (x' = x ∧ ys ≤ y'' < ye)).
    { intros y'' Hy'' [-> Hr]. apply Hn2, Hseg. lia. }
    apply elem_of_cons in Hin as [[= -> ->]|Hin].
    - destruct (Hdis y0); [lia|]. split; [done|]. apply F1, Hseg. lia.
    - exists yc. split; [by apply elem_of_app; right|]. split; [done|].
      intros y'' Hy''. apply F5; [by apply Hseg | by apply Hdis]. }
  destruct Htrig as [Hs|(x'' & Hx'' & Hh0 & Hp)]; [by apply Hold; left|].
  pose proof (hit_inb _ _ _ Hh0) as Hi.
  destruct (decide (x'' = x ∧ ys ≤ y < ye)) as [[-> Hr]|Hr].
  - assert (Hcov : ∃ y0', XY x' y0' ∈ pushes ∧ ys ≤ y0' ≤ y ∧
                     ∀ y', y0' ≤ y' ≤ y → hit m x' y').
    { destruct Hx'' as [Hx''|Hx''].
      - replace x' with (x - 1) in * by lia. by apply HcL.
      - replace x' with (x + 1) in * by lia. by apply HcR. }
    destruct Hcov as (yc & Hin & Hyc & Hseg). exists yc.
    split; [by apply elem_of_app; left|]. split; [lia|].
    intros y' Hy'. apply F5; [by apply Hseg | lia].
  - apply Hold. right. exists x''. split; [done|]. split; [done|].
    by rewrite <- (Fout x'' y Hi Hr).
Qed.

Lemma fill_inv_init : hitp m0 seed → fill_inv (m0, [seed]).
Proof.
  intros Hs. split; [done|]. split; [by left|]. split.
  { intros p ->%list_elem_of_singleton. split; [by apply hit_inb in Hs|].
    by apply conn_refl. }
  split.
  { intros x y y' [Hh Hp]. by destruct (hit_not_rc m0 x y). }
  intros x y Hh [<-|(x' & _ & Hh' & Hp)].
  - exists y. split; [by apply list_elem_of_singleton|]. split; [lia|].
    intros y' Hy'. by replace y' with y by lia.
  - by destruct (hit_not_rc m0 x' y).
Qed.

Lemma fill_inv_final (m : list Z) (p : XYPoint) :
  fill_inv (m, []) → region p → painted m (xx p) (yy p).
Proof.
  intros (Hg & Ha & _ & Hd & Hc) Hr.
  assert (Hnc : ∀ x y, ¬ covered m [] x y).
  { intros x y (y0 & Hin & _). by apply not_elem_of_nil in Hin. }
  induction Hr as [Hs | q r Hq IH Hadj Hr].
  - split; [done|]. destruct (Ha _ _ (hit_inb _ _ _ Hs)) as [He|[_ He]]; [|done].
    destruct (Hnc (xx seed) (yy seed)). apply Hc; [by apply (hit_ext m0)|].
    left. by destruct seed.
  - split; [done|]. destruct (Ha _ _ (hit_inb _ _ _ Hr)) as [He|[_ He]]; [|done].
    assert (Hh : hit m (xx r) (yy r)) by by apply (hit_ext m0).
    destruct Hadj as [[Hx Hy]|[Hy Hx]].
    + destruct (Hd (xx q) (yy q) (yy r) IH); [lia|]. by rewrite Hx.
    + destruct (Hnc (xx r) (yy r)). apply Hc; [done|]. right.
      exists (xx q). split; [lia|]. by rewrite <- Hy.
Qed.

Lemma fill_loop_spec :
  hitp m0 seed → (2 * length m0 + 1 < fuel)%nat →
  ∃ m', fill_loop fuel size tc rc tol m0 [seed] = Some m' ∧ grid size m' ∧
    ∀ x y, inb size x y →
      (region (XY x y) ∧ pix size m' x y = Some rc) ∨
      (¬ region (XY x y) ∧ pix size m' x y = pix size m0 x y).
Proof.
  intros Hs Hf.
  assert (Hfy : (Z.to_nat (yy size) < fuel)%nat).
  { apply hit_inb in Hs. unfold inb in Hs. unfold grid in Hg0.
    assert (yy size ≤ xx size * yy size) by nia. lia. }
  destruct (while_rule fill_inv (λ st, (2 * tally st.1 + length st.2)%nat)
              fill_cond (fill_step fuel size tc rc tol))
    with (fuel := fuel) (s := (m0, [seed])) as ([m' s'] & Hw & Hinv & Hc).
  - intros [m [|p s]] Hinv.
    + exists false. split; [done|]. done.
    + exists true. split; [done|]. intros _.
      destruct (fill_step_spec m p s Hfy Hinv) as (m' & s' & Hst & Hinv' & Hlt).
      exists (m', s'). done.
  - by apply fill_inv_init.
  - pose proof (tally_le m0). simpl. lia.
  - assert (s' = []) as ->.
    { unfold fill_cond in Hc. simpl in Hc. by destruct s'. }
    exists m'. split; [unfold fill_loop; by rewrite Hw|].
    pose proof Hinv as (Hg & Ha & _). split; [done|].
    intros x y Hi. destruct (Ha x y Hi) as [He|[Hr He]]; [right | by left].
    split; [|done]. intros Hr.
    destruct (fill_inv_final m' (XY x y) Hinv Hr) as [Hh Hp].
    apply (hit_not_rc m0 x y); [|done]. by rewrite <- He.
Qed.
End FillLoop.
End FillCorrect.

Lemma matches_0 (a b : Z) : matches 0 a b = true ↔ a = b.
Proof.
  unfold matches, Qle_bool, Qabs, inject_Z. cbn [Qnum Qden].
  rewrite Z.leb_le. lia.
Qed.

Lemma matches_0_false (a b : Z) : matches 0 a b = false ↔ a ≠ b.
Proof. rewrite <- matches_0. by destruct (matches 0 a b). Qed.

(** [_floodFill] paints exactly the cells connected to the seed through
    cells within [tol] of the seed value, provided the painted value itself
    is not within [tol] of it. *)
Lemma floodFill_spec (fuel : nat) (m : list Z) (size seed : XYPoint) (rc tc : Z) (tol : Q) :
  grid size m → inb size (xx seed) (yy seed) →
  (2 * length m + 1 < fuel)%nat →
  pix size m (xx seed) (yy seed) = Some tc →
  matches tol tc tc = true →
  matches tol (collision_guard tc rc tol) tc = false →
  ∃ m', _floodFill fuel m size seed rc tol = Some m' ∧ grid size m' ∧
    ∀ x y, inb size x y →
      (conn (hitp size tc tol m) seed (XY x y) ∧
         pix size m' x y = Some (collision_guard tc rc tol)) ∨
      (¬ conn (hitp size tc tol m) seed (XY x y) ∧
         pix size m' x y = pix size m x y).
Proof.
  intros Hg Hi Hf Htc Hself Hguard. unfold _floodFill. rewrite Htc.
  cbn [mbind option_bind].
  apply fill_loop_spec; try done.
  split; [done|]. eauto.
Qed.

(** ** The labeller numbers the 4-connected components of the foreground *)

Lemma first_at_unique (m : list Z) (k i j : Z) :
  first_at m k i → first_at m k j → i = j.
Proof.
  intros [Hi Hbi] [Hj Hbj].
  pose proof (rd_bound _ _ _ Hi). pose proof (rd_bound _ _ _ Hj).
  destruct (Z.lt_trichotomy i j) as [Hlt|[->|Hlt]]; [|done|].
  - destruct (Hbj i); [lia | done].
  - destruct (Hbi j); [lia | done].
Qed.

Section LabelerCorrect.
Context {R : Type} (is_zero : R → bool).
Context (fuel : nat) (src : list R) (size : XYPoint).
Hypothesis Hsrc : grid size src.
Hypothesis Hfuel : (2 * length src + 1 < fuel)%nat.
Hypothesis HW : 0 ≤ xx size.
Hypothesis HH : 0 ≤ yy size.

(** Foreground: a cell of the raster whose value is not [0.0]. *)
Definition fg (p : XYPoint) : Prop :=
  inb size (xx p) (yy p) ∧
  ∃ v, rd src (xx p + yy p * xx size) = Some v ∧ is_zero v = false.

(** Cells still carrying the "unvisited" mark [-1]. *)
Definition unvisited (res : list Z) (p : XYPoint) : Prop :=
  hitp size (-1) 0 res p.

Lemma unvisited_iff (res : list Z) (p : XYPoint) :
  unvisited res p ↔
  inb size (xx p) (yy p) ∧ pix size res (xx p) (yy p) = Some (-1).
Proof.
  unfold unvisited, hitp, hit. split.
  - intros (Hi & v & Hv & Hm). apply matches_0 in Hm. by subst.
  - intros (Hi & Hv). split; [done|]. exists (-1). split; [done|].
    by apply matches_0.
Qed.

(** The state of the scan when it stands at storage position [pos] with
    next label [idx]. *)
Definition lab_inv (pos : Z) (res : list Z) (idx : Z) : Prop :=
  grid size res ∧ 1 ≤ idx ∧
  (∀ x y, inb size x y → ∃ l, pix size res x y = Some l ∧
     ((¬ fg (XY x y) ∧ l = 0) ∨ (fg (XY x y) ∧ (l = -1 ∨ 1 ≤ l < idx)))) ∧
  (∀ p q lp lq, fg p → fg q →
     pix size res (xx p) (yy p) = Some lp →
     pix size res (xx q) (yy q) = Some lq →
     1 ≤ lp → (lq = lp ↔ conn fg p q)) ∧
  (∀ i, 0 ≤ i < pos → rd res i ≠ Some (-1)) ∧
  (∀ k, 1 ≤ k < idx → ∃ i, first_at res k i ∧ 0 ≤ i < pos) ∧
  (∀ k i i', 1 ≤ k → k + 1 < idx →
     first_at res k i → first_at res (k + 1) i' → i < i').

Lemma lab_inv_fg (pos : Z) (res : list Z) (idx : Z) (p : XYPoint) :
  lab_inv pos res idx → unvisited res p → fg p.
Proof.
  intros (_ & _ & Hl & _) [Hi Hp]%unvisited_iff. destruct p as [x y].
  destruct (Hl x y Hi) as (l & Hl' & [[_ ->]|[Hf _]]); [|done].
  cbn [xx yy] in Hp. congruence.
Qed.

(** Under the invariant, the unvisited region of a seed is its whole
    foreground component. *)
Lemma lab_inv_comp (pos : Z) (res : list Z) (idx : Z) (seed q : XYPoint) :
  lab_inv pos res idx → unvisited res seed →
  conn (unvisited res) seed q ↔ conn fg seed q.
Proof.
  intros Hinv Hs. split.
  - apply conn_mono. intros r. by apply (lab_inv_fg pos res idx).
  - intros Hc.
    destruct (conn_closed fg (unvisited res) seed q) as [Hc' _]; [|done|done|].
    + intros a b Ha Hfa Hadj Hfb. pose proof Hinv as (_ & _ & Hl & Hsame & _).
      apply unvisited_iff in Ha as [Hia Hpa].
      destruct Hfb as [Hib Hvb]. destruct b as [bx by_]. cbn [xx yy] in *.
      destruct (Hl bx by_ Hib) as (l & Hlb & [[Hnf _]|[Hf [->|Hpos]]]).
      * by destruct Hnf.
      * by apply unvisited_iff.
      * assert (-1 = l); [|lia].
        apply (Hsame (XY bx by_) a l (-1)); try done.
        -- lia.
        -- apply conn_step with (XY bx by_); [by apply conn_refl| |done].
           by apply adj4_sym.
    + eapply conn_mono; [|done]. by intros r [_ ?].
Qed.

(** The effect of one fill started at an unvisited cell. *)
Lemma bw_fill (pos : Z) (res : list Z) (idx kx ky : Z) :
  lab_inv pos res idx → inb size kx ky → pix size res kx ky = Some (-1) →
  ∃ res', _floodFill fuel res size (XY kx ky) idx 0 = Some res' ∧ grid size res' ∧
    ∀ x y, inb size x y →
      (conn fg (XY kx ky) (XY x y) ∧ pix size res x y = Some (-1) ∧
         pix size res' x y = Some idx) ∨
      (¬ conn fg (XY kx ky) (XY x y) ∧ pix size res' x y = pix size res x y).
Proof.
  intros Hinv Hi Hp. pose proof Hinv as (Hg & Hidx & _).
  assert (Hgd : collision_guard (-1) idx 0 = idx).
  { unfold collision_guard. replace (matches 0 (-1) idx) with false; [done|].
    symmetry. apply matches_0_false. lia. }
  assert (Hs : unvisited res (XY kx ky)) by by apply unvisited_iff.
  destruct (floodFill_spec fuel res size (XY kx ky) idx (-1) 0)
    as (res' & Hff & Hg' & Heff);
    [done | done | | done | by apply matches_0 | |].
  - unfold grid in Hg, Hsrc. lia.
  - rewrite Hgd. apply matches_0_false. lia.
  - exists res'. split; [done|]. split; [done|]. intros x y Hxy.
    rewrite Hgd in Heff.
    destruct (Heff x y Hxy) as [[Hc He]|[Hc He]]; [left | right].
    + split; [by apply (lab_inv_comp pos res idx)|]. split; [|done].
      apply conn_end in Hc. by apply unvisited_iff in Hc as [_ ?].
    + split; [|done]. intros Hc'. apply Hc. by apply (lab_inv_comp pos res idx).
Qed.

Lemma bw_step_skip (pos : Z) (res : list Z) (idx v : Z) :
  lab_inv pos res idx → rd res pos = Some v → v ≠ -1 →
  lab_inv (pos + 1) res idx.
Proof.
  intros (Hg & Hidx & Hl & Hsame & Hvis & Hfirst & Hord) Hv Hne.
  repeat (split; [done|]). split; [|split; [|done]].
  - intros i Hi. destruct (decide (i = pos)) as [->|]; [congruence|].
    apply Hvis. lia.
  - intros k Hk. destruct (Hfirst k Hk) as (i & Hf & Hi). exists i.
    split; [done | lia].
Qed.

Lemma bw_step_fill (pos : Z) (res res' : list Z) (idx kx ky : Z) :
  lab_inv pos res idx → inb size kx ky → pos = kx + ky * xx size →
  grid size res' →
  (∀ x y, inb size x y →
     (conn fg (XY kx ky) (XY x y) ∧ pix size res x y = Some (-1) ∧
        pix size res' x y = Some idx) ∨
     (¬ conn fg (XY kx ky) (XY x y) ∧ pix size res' x y = pix size res x y)) →
  fg (XY kx ky) →
  lab_inv (pos + 1) res' (idx + 1).
Proof.
  intros Hinv Hi Hpos Hg' Heff Hseed.
  pose proof Hinv as (Hg & Hidx & Hl & Hsame & Hvis & Hfirst & Hord).
  set (seed := XY kx ky) in *.
  assert (Hposb : 0 ≤ pos < xx size * yy size) by (subst pos; by apply inb_index).
  (* the effect, by storage position *)
  assert (Hflat : ∀ i, 0 ≤ i < xx size * yy size →
            (rd res i = Some (-1) ∧ rd res' i = Some idx) ∨
            (rd res' i = rd res i ∧ (i = pos → False))).
  { intros i Hib. destruct (flat_inb size i HW Hib) as [Hxy Hie].
    unfold pix in Heff.
    destruct (Heff _ _ Hxy) as [(_ & H1 & H2)|[Hn He]];
      rewrite <- Hie in *; [by left | right].
    split; [done|]. intros ->. apply Hn.
    assert (pos `mod` xx size = kx ∧ pos `div` xx size = ky) as [-> ->].
    { apply (index_inj size); [apply Hxy | apply Hi | lia]. }
    by apply conn_refl. }
  (* labels below [idx] stay where they are *)
  assert (Hrange : ∀ i l, rd res i = Some l → l = 0 ∨ l = -1 ∨ 1 ≤ l < idx).
  { intros i l Hr. pose proof (rd_bound _ _ _ Hr) as Hib. rewrite Hg in Hib.
    destruct (flat_inb size i HW Hib) as [Hxy Hie].
    destruct (Hl _ _ Hxy) as (l' & Hl' & Hcase). unfold pix in Hl'.
    rewrite <- Hie in Hl'. assert (l' = l) as -> by congruence.
    destruct Hcase as [[_ ->]|[_ ?]]; lia. }
  assert (Hkeep : ∀ k i, 1 ≤ k < idx → first_at res k i → first_at res' k i).
  { intros k i Hk [Hr Hb]. pose proof (rd_bound _ _ _ Hr) as Hib. rewrite Hg in Hib.
    split.
    - destruct (Hflat i Hib) as [[H1 _]|[-> _]]; [|done].
      rewrite Hr in H1. injection H1 as ->. lia.
    - intros j Hj. destruct (Hflat j) as [[_ ->]|[-> _]]; [lia | | by apply Hb].
      intros [= ->]. lia. }
  assert (Hnew : first_at res' idx pos).
  { split.
    - destruct (Hflat pos Hposb) as [[_ ?]|[_ []]]; done.
    - intros j Hj. destruct (Hflat j) as [[H1 _]|[-> _]]; [lia | |].
      + by destruct (Hvis j).
      + intros Hr. apply Hrange in Hr. lia. }
  split; [done|]. split; [lia|]. split.
  { intros x y Hxy. destruct (Hl x y Hxy) as (l & Hl' & Hcase).
    destruct (Heff x y Hxy) as [(Hc & _ & He)|[_ He]].
    - exists idx. split; [done|]. right. split; [by apply conn_end in Hc | lia].
    - exists l. split; [congruence|]. destruct Hcase as [?|[? ?]]; [by left|].
      right. split; [done | lia]. }
  split.
  { intros p q lp lq Hfp Hfq Hp Hq Hlp.
    destruct p as [px py], q as [qx qy]. cbn [xx yy] in Hp, Hq.
    pose proof Hfp as [Hip _]. pose proof Hfq as [Hiq _]. cbn [xx yy] in Hip, Hiq.
    destruct (Hl px py Hip) as (lp0 & Hlp0 & Hcp).
    destruct (Hl qx qy Hiq) as (lq0 & Hlq0 & Hcq).
    destruct (Heff px py Hip) as [(Hcp' & _ & Hep)|[Hcp' Hep]];
      destruct (Heff qx qy Hiq) as [(Hcq' & _ & Heq)|[Hcq' Heq]].
    - assert (lp = idx ∧ lq = idx) as [-> ->] by (split; congruence).
      split; [|done]. intros _. apply conn_trans with seed; [|done].
      by apply conn_sym.
    - assert (lp = idx ∧ lq = lq0) as [-> ->] by (split; congruence).
      split.
      + intros ->. destruct Hcq as [[? _]|[_ ?]]; [done | lia].
      + intros Hc. destruct Hcq'. by apply conn_trans with (XY px py).
    - assert (lp = lp0 ∧ lq = idx) as [-> ->] by (split; congruence).
      split.
      + intros <-. destruct Hcp as [[? _]|[_ ?]]; [done | lia].
      + intros Hc. destruct Hcp'. apply conn_trans with (XY qx qy); [done|].
        by apply conn_sym.
    - assert (lp = lp0 ∧ lq = lq0) as [-> ->] by (split; congruence).
      by apply (Hsame (XY px py) (XY qx qy)). }
  split.
  { intros i Hib. destruct (Hflat i) as [[_ ->]|[-> Hne]]; [lia | |].
    - intros [= ?]. lia.
    - apply Hvis. destruct (decide (i = pos)); [done | lia]. }
  split.
  { intros k Hk. destruct (decide (k = idx)) as [->|Hne].
    - exists pos. split; [done | lia].
    - destruct (Hfirst k) as (i & Hf & Hib); [lia|]. exists i.
      split; [apply Hkeep; [lia | done] | lia]. }
  intros k i i' Hk1 Hk2 Hf Hf'.
  destruct (Hfirst k) as (j & Hj & Hjb); [lia|].
  assert (i = j) as -> by (apply (first_at_unique res' k); [done|apply Hkeep; [lia|done]]).
  destruct (decide (k + 1 = idx)) as [He|Hne].
  - rewrite He in Hf'. assert (i' = pos) as -> by by apply (first_at_unique res' idx).
    lia.
  - destruct (Hfirst (k + 1)) as (j' & Hj' & Hjb'); [lia|].
    assert (i' = j') as ->
      by (apply (first_at_unique res' (k + 1)); [done|apply Hkeep; [lia|done]]).
    apply (Hord k); [done | lia | done | done].
Qed.

(** Lines 67-69. *)
Lemma bwlabel_init (res0 : list Z) :
  grid size res0 →
  ∃ res, for_ 0 (xx size * yy size)
           (λ i res, v ← rd src i; wr res i (if is_zero v then 0 else -1)) res0
         = Some res ∧ lab_inv 0 res 1.
Proof.
  intros Hg0.
  destruct (for_rule
    (λ k res, grid size res ∧
       ∀ i, 0 ≤ i < k → ∃ v, rd src i = Some v ∧
                             rd res i = Some (if is_zero v then 0 else -1))
    (λ i res, v ← rd src i; wr res i (if is_zero v then 0 else -1))
    0 (xx size * yy size) res0) as (res & Hfor & Hg & Hpost).
  - nia.
  - split; [done|]. intros; lia.
  - intros i res Hi [Hg Hdone].
    destruct (rd_is_Some src i) as [v Hv]; [unfold grid in Hsrc; lia|]. rewrite Hv.
    cbn [mbind option_bind].
    assert (Hw : wr res i (if is_zero v then 0 else -1)
                 = Some (<[Z.to_nat i := if is_zero v then 0 else -1]> res))
      by (apply wr_is_Some; unfold grid in Hg; lia).
    eexists. split; [done|]. split.
    + unfold grid. by rewrite length_insert.
    + intros j Hj. destruct (decide (j = i)) as [->|Hne].
      * exists v. split; [done|]. by apply (rd_wr_eq res _ _ _ Hw).
      * destruct (Hdone j) as (w & Hw1 & Hw2); [lia|]. exists w. split; [done|].
        rewrite <- Hw2. by apply (rd_wr_ne res _ i j _ Hw).
  - exists res. split; [done|].
    assert (Hcell : ∀ x y, inb size x y → ∃ v,
              rd src (x + y * xx size) = Some v ∧
              pix size res x y = Some (if is_zero v then 0 else -1)).
    { intros x y Hxy. apply Hpost. by apply inb_index. }
    assert (Hl : ∀ x y, inb size x y → ∃ l, pix size res x y = Some l ∧
              ((¬ fg (XY x y) ∧ l = 0) ∨ (fg (XY x y) ∧ (l = -1 ∨ 1 ≤ l < 1)))).
    { intros x y Hxy. destruct (Hcell x y Hxy) as (v & Hv1 & Hv2).
      eexists. split; [done|]. destruct (is_zero v) eqn:Hz; [left | right].
      - split; [|done]. intros (_ & v' & Hv' & Hz'). cbn [xx yy] in Hv'. congruence.
      - split; [|by left]. split; [done|]. eauto. }
    split; [done|]. split; [done|]. split; [done|]. split.
    { intros [px py] q lp lq [Hip _] _ Hp _ Hlp. cbn [xx yy] in *.
      destruct (Hl px py Hip) as (l & Hl' & Hcase).
      assert (l = lp) as -> by congruence. lia. }
    split; [intros; lia|]. split; intros; lia.
Qed.

(** Lines 71-80. *)
Lemma bwlabel_scan (res0 : list Z) :
  lab_inv 0 res0 1 →
  ∃ res pos idx,
    for_ 0 (yy size) (λ ky st,
      for_ 0 (xx size) (λ kx '(res, pos, idx),
        v ← rd res pos;
        '(res, idx) ←
          (if v =? -1
           then res ← _floodFill fuel res size (XY kx ky) idx 0;
                Some (res, idx + 1)
           else Some (res, idx));
        Some (res, pos + 1, idx)) st) (res0, 0, 1)
    = Some (res, pos, idx) ∧
    lab_inv (xx size * yy size) res idx.
Proof.
  intros Hinv0.
  match goal with |- context [for_ 0 (yy size) ?body _] =>
    destruct (for_rule
      (λ ky (st : list Z * Z * Z), lab_inv (ky * xx size) st.1.1 st.2 ∧
                 st.1.2 = ky * xx size)
      body 0 (yy size) (res0, 0, 1)) as ([[res pos] idx] & Hfor & Hinv & Hpos)
  end.
  - done.
  - done.
  - intros ky [[res pos] idx] Hky [Hinv Hpos]. cbn [fst snd] in Hinv, Hpos.
    match goal with |- context [for_ 0 (xx size) ?body _] =>
      destruct (for_rule
        (λ kx (st : list Z * Z * Z), lab_inv (kx + ky * xx size) st.1.1 st.2 ∧
                   st.1.2 = kx + ky * xx size)
        body 0 (xx size) (res, pos, idx)) as (st' & Hfor & Hinv' & Hpos')
    end.
    + done.
    + split; [done|]. cbn [fst snd]. lia.
    + intros kx [[res1 pos1] idx1] Hkx [Hinv1 Hpos1]. cbn [fst snd] in Hinv1, Hpos1.
      assert (Hxy : inb size kx ky) by (unfold inb; lia).
      pose proof Hinv1 as (Hg1 & _).
      destruct (pix_inb size res1 kx ky Hg1 Hxy) as [v Hv].
      unfold pix in Hv. rewrite <- Hpos1 in Hv. rewrite Hv.
      cbn [mbind option_bind].
      destruct (Z.eqb_spec v (-1)) as [->|Hne].
      * rewrite Hpos1 in Hv.
        destruct (bw_fill _ res1 idx1 kx ky Hinv1 Hxy Hv) as (res2 & Hff & Hg2 & Heff).
        rewrite Hff. cbn [mbind option_bind]. eexists. split; [done|].
        cbn [fst snd]. split; [|lia].
        replace (kx + 1 + ky * xx size) with (kx + ky * xx size + 1) by lia.
        apply (bw_step_fill _ res1 res2 idx1 kx ky); try done.
        apply (lab_inv_fg (kx + ky * xx size) res1 idx1); [done|].
        by apply unvisited_iff.
      * cbn [mbind option_bind]. eexists. split; [done|].
        cbn [fst snd]. split; [|lia].
        replace (kx + 1 + ky * xx size) with (kx + ky * xx size + 1) by lia.
        apply (bw_step_skip _ res1 idx1 v); [done | by rewrite <- Hpos1 | done].
    + exists st'. split; [done|].
      replace ((ky + 1) * xx size) with (xx size + ky * xx size) by lia. done.
  - exists res, pos, idx. split; [done|].
    by replace (xx size * yy size) with (yy size * xx size) by lia.
Qed.

Lemma _bwlabel_spec (res0 : list Z) :
  grid size res0 →
  ∃ res n, _bwlabel is_zero fuel src res0 size = Some (res, n) ∧
           lab_inv (xx size * yy size) res (n + 1).
Proof.
  intros Hg0. unfold _bwlabel.
  destruct (bwlabel_init res0 Hg0) as (res1 & -> & Hinv1).
  cbn [mbind option_bind].
  destruct (bwlabel_scan res1 Hinv1) as (res & pos & idx & -> & Hinv).
  cbn [mbind option_bind]. exists res, (idx - 1). split; [done|].
  by replace (idx - 1 + 1) with idx by lia.
Qed.
End LabelerCorrect.

(** ** The collision guard *)

(** With a tolerance below one the guard does its job for [int] cells: the
    only colliding fill value is the target itself, and it is moved away. *)
Lemma collision_guard_exact (tc rc : Z) :
  matches 0 (collision_guard tc rc 0) tc = false.
Proof.
  unfold collision_guard. destruct (matches 0 tc rc) eqn:Hm.
  - apply matches_0 in Hm as <-. apply matches_0_false.
    unfold Qtrunc. cbn. rewrite Z.quot_1_r. lia.
  - apply matches_0_false. apply matches_0_false in Hm. congruence.
Qed.

Lemma matches_scaled (tol : Q) (a b : Z) :
  matches tol a b = true ↔ Z.abs (a - b) * Zpos (Qden tol) ≤ Qnum tol.
Proof.
  unfold matches, Qle_bool, Qabs, inject_Z. cbn [Qnum Qden].
  rewrite Z.leb_le. lia.
Qed.

(** It also does its job, at any tolerance, for a fill value that is not
    below the target. *)
Lemma collision_guard_above (tc rc : Z) (tol : Q) :
  (0 <= tol)%Q → tc ≤ rc → matches tol (collision_guard tc rc tol) tc = false.
Proof.
  intros Htol Hle. apply not_true_is_false. rewrite matches_scaled.
  unfold collision_guard. destruct (matches tol tc rc) eqn:Hm.
  - destruct tol as [n d]. unfold Qle in Htol. cbn [Qnum Qden] in *.
    unfold Qtrunc, Qplus, inject_Z. cbn [Qnum Qden].
    set (num := (rc * Z.pos d + n * 1) * 1 + 1 * Z.pos (1 * d)).
    replace (Z.pos (1 * d * 1)) with (Z.pos d) by lia.
    assert (Hnum : num = rc * Z.pos d + n + Z.pos d) by (unfold num; lia).
    assert (Hq : num - Z.pos d < Z.pos d * (num ÷ Z.pos d)).
    { destruct (Z.le_gt_cases 0 num) as [Hn|Hn].
      - rewrite Z.quot_div_nonneg by lia.
        pose proof (Z.mul_succ_div_gt num (Z.pos d) ltac:(lia)). lia.
      - replace num with (- - num) at 2 by lia.
        rewrite Z.quot_opp_l, Z.quot_div_nonneg by lia.
        pose proof (Z.mul_div_le (- num) (Z.pos d) ltac:(lia)). lia. }
    intros Hc. nia.
  - apply not_true_iff_false in Hm. rewrite matches_scaled in Hm.
    intros Hc. apply Hm. replace (tc - rc) with (-(rc - tc)) by lia.
    by rewrite Z.abs_opp.
Qed.

Section Collision.
Let size := XY 2 1.
Let stA : list Z * list XYPoint := ([6; 6], [XY 0 0]).
Let stB : list Z * list XYPoint := ([6; 6], [XY 1 0]).

Lemma collision_step_A (fuel : nat) :
  fill_step fuel size 5 6 1 stA = None ∨ fill_step fuel size 5 6 1 stA = Some stB.
Proof. destruct fuel as [|[|fuel]]; [by left | by left | by right]. Qed.

Lemma collision_step_B (fuel : nat) :
  fill_step fuel size 5 6 1 stB = None ∨ fill_step fuel size 5 6 1 stB = Some stA.
Proof. destruct fuel as [|[|fuel]]; [by left | by left | by right]. Qed.

Lemma collision_cycle (fuel n : nat) :
  while n fill_cond (fill_step fuel size 5 6 1) stA = None ∧
  while n fill_cond (fill_step fuel size 5 6 1) stB = None.
Proof.
  induction n as [|n [IHA IHB]]; [done|]. split.
  - change (while (S n) fill_cond (fill_step fuel size 5 6 1) stA)
      with (s' ← fill_step fuel size 5 6 1 stA;
            while n fill_cond (fill_step fuel size 5 6 1) s').
    by destruct (collision_step_A fuel) as [-> | ->].
  - change (while (S n) fill_cond (fill_step fuel size 5 6 1) stB)
      with (s' ← fill_step fuel size 5 6 1 stB;
            while n fill_cond (fill_step fuel size 5 6 1) s').
    by destruct (collision_step_B fuel) as [-> | ->].
Qed.
End Collision.

(** C3 (defect).  The guard adds [tol + 1] to the fill value whatever side of
    the target it lies on.  For target 5, fill value 4 and tolerance 1 the
    painted value is 6, still within the tolerance of the target; on the
    1-by-2 grid [5 5] the fill then keeps re-seeding painted cells and
    returns on no amount of fuel. *)
Theorem collision_guard_misses_below :
  collision_guard 5 4 1 = 6 ∧ matches 1 6 5 = true ∧
  ∀ fuel, _floodFill fuel [5; 5] (XY 2 1) (XY 0 0) 4 1 = None.
Proof.
  split; [done|]. split; [done|]. intros fuel.
  unfold _floodFill. cbn [pix rd xx yy mbind option_bind].
  change (fill_loop fuel (XY 2 1) 5 (collision_guard 5 4 1) 1 [5; 5] [XY 0 0] = None).
  change (collision_guard 5 4 1) with 6. unfold fill_loop.
  destruct fuel as [|fuel]; [done|].
  change (while (S fuel) fill_cond (fill_step (S fuel) (XY 2 1) 5 6 1) ([5; 5], [XY 0 0]))
    with (s' ← fill_step (S fuel) (XY 2 1) 5 6 1 ([5; 5], [XY 0 0]);
          while fuel fill_cond (fill_step (S fuel) (XY 2 1) 5 6 1) s').
  destruct fuel as [|fuel]; [done|].
  change (fill_step (S (S fuel)) (XY 2 1) 5 6 1 ([5; 5], [XY 0 0]))
    with (Some ([6; 5], [XY 1 0])).
  cbn [mbind option_bind].
  change (while (S fuel) fill_cond (fill_step (S (S fuel)) (XY 2 1) 5 6 1) ([6; 5], [XY 1 0]))
    with (s' ← fill_step (S (S fuel)) (XY 2 1) 5 6 1 ([6; 5], [XY 1 0]);
          while fuel fill_cond (fill_step (S (S fuel)) (XY 2 1) 5 6 1) s').
  change (fill_step (S (S fuel)) (XY 2 1) 5 6 1 ([6; 5], [XY 1 0]))
    with (Some ([6; 6], [XY 0 0])).
  cbn [mbind option_bind].
  by destruct (collision_cycle (S (S fuel)) fuel) as [-> _].
Qed.

(** ** [bwlabel] on matrices *)

Lemma mget_pix {A : Type} (M : Matrix A) (i j : Z) :
  mget M i j = rd (data M) (i + j * nrow M).
Proof. unfold mget, offset. f_equal. lia. Qed.

Lemma wf_new_matrix {A : Type} (r c : Z) (d : A) :
  0 ≤ r → 0 ≤ c → wf_matrix (new_matrix r c d).
Proof.
  intros Hr Hc. unfold wf_matrix, new_matrix. cbn [nrow ncol data].
  rewrite length_replicate. split; [done|]. split; [done|]. nia.
Qed.

Section BwlabelCorrect.
Context {R : Type} (is_zero : R → bool).
Context (x : Matrix R).
Hypothesis Hwf : wf_matrix x.

Let size := XY (nrow x) (ncol x).

Lemma foreground_fg (p : XYPoint) :
  foreground is_zero x p ↔ fg is_zero (data x) size p.
Proof. unfold foreground, fg, in_matrix, inb. by rewrite mget_pix. Qed.

Lemma connected_fg (p q : XYPoint) :
  connected is_zero x p q ↔ conn (fg is_zero (data x) size) p q.
Proof.
  split; apply conn_mono; intros r; by rewrite foreground_fg.
Qed.

Lemma bwlabel_lab_inv (fuel : nat) :
  (2 * length (data x) + 1 < fuel)%nat →
  ∃ L n, bwlabel is_zero fuel x = Some (L, n) ∧
    nrow L = nrow x ∧ ncol L = ncol x ∧
    lab_inv is_zero (data x) size (nrow x * ncol x) (data L) (n + 1).
Proof.
  intros Hfuel. destruct Hwf as (Hr & Hc & Hlen).
  destruct (_bwlabel_spec is_zero fuel (data x) size) with
    (res0 := data (new_matrix (nrow x) (ncol x) 0)) as (res & n & Hbw & Hinv);
    try done.
  - apply wf_new_matrix; done.
  - exists (mkMatrix (nrow x) (ncol x) res), n. split; [|done].
    unfold bwlabel. cbv zeta. fold size. by rewrite Hbw.
Qed.

(** What the final state of the scan says about the returned pair. *)
Section Final.
Context (L : IntegerMatrix) (n : Z).
Hypothesis HnL : nrow L = nrow x.
Hypothesis HcL : ncol L = ncol x.
Hypothesis Hinv : lab_inv is_zero (data x) size (nrow x * ncol x) (data L) (n + 1).

Lemma cell_pix (p : XYPoint) : cell L p = pix size (data L) (xx p) (yy p).
Proof. unfold cell. rewrite mget_pix, HnL. done. Qed.

Lemma final_label (p : XYPoint) :
  in_matrix x p →
  ∃ l, cell L p = Some l ∧
    ((¬ foreground is_zero x p ∧ l = 0) ∨ (foreground is_zero x p ∧ 1 ≤ l ≤ n)).
Proof.
  intros Hp. destruct Hinv as (Hg & _ & Hl & _ & Hvis & _).
  destruct p as [px py]. destruct (Hl px py Hp) as (l & Hl' & Hcase).
  exists l. rewrite cell_pix. split; [done|]. rewrite foreground_fg.
  destruct Hcase as [?|[Hf Hr]]; [by left | right]. split; [done|].
  assert (l ≠ -1); [|lia]. intros ->.
  apply (Hvis (px + py * nrow x)); [|done].
  apply (inb_index size px py Hp).
Qed.

Lemma final_same (p q : XYPoint) (lp lq : Z) :
  foreground is_zero x p → foreground is_zero x q →
  cell L p = Some lp → cell L q = Some lq →
  lq = lp ↔ connected is_zero x p q.
Proof.
  intros Hp Hq Hlp Hlq. pose proof Hinv as (_ & _ & _ & Hsame & _).
  rewrite connected_fg. rewrite cell_pix in Hlp, Hlq.
  apply (Hsame p q lp lq); try done; try by apply foreground_fg.
  pose proof Hp as [Hip _]. destruct (final_label p Hip) as (l & Hl & Hcase).
  rewrite cell_pix in Hl. assert (l = lp) as -> by congruence.
  destruct Hcase as [[Hn _]|[_ ?]]; [by destruct Hn | lia].
Qed.

Lemma final_first (k : Z) : 1 ≤ k ≤ n → ∃ i, first_at (data L) k i.
Proof.
  intros Hk. destruct Hinv as (_ & _ & _ & _ & _ & Hfirst & _).
  destruct (Hfirst k) as (i & Hi & _); [lia | eauto].
Qed.

Lemma final_order (k i i' : Z) :
  1 ≤ k → k < n → first_at (data L) k i → first_at (data L) (k + 1) i' → i < i'.
Proof.
  intros Hk1 Hk2. destruct Hinv as (_ & _ & _ & _ & _ & _ & Hord).
  apply Hord; lia.
Qed.

Lemma final_position (i l : Z) :
  rd (data L) i = Some l →
  ∃ p, in_matrix x p ∧ cell L p = Some l ∧ i = xx p + yy p * nrow x.
Proof.
  intros Hr. pose proof Hinv as (Hg & _). destruct Hwf as (Hr0 & Hc0 & _).
  pose proof (rd_bound _ _ _ Hr) as Hb. rewrite Hg in Hb.
  destruct (flat_inb size i Hr0 Hb) as [Hxy Hie].
  exists (XY (i `mod` xx size) (i `div` xx size)). split; [done|]. split.
  - rewrite cell_pix. unfold pix. cbn [xx yy]. by rewrite <- Hie.
  - exact Hie.
Qed.

Lemma final_range (l : Z) : l ∈ data L → 0 ≤ l ≤ n.
Proof.
  intros [i Hi]%list_elem_of_lookup.
  assert (Hr : rd (data L) (Z.of_nat i) = Some l).
  { apply rd_Some. split; [lia|]. by rewrite Nat2Z.id. }
  destruct (final_position _ _ Hr) as (p & Hp & Hc & _).
  destruct (final_label p Hp) as (l' & Hl' & Hcase).
  assert (Hn : 0 ≤ n) by (destruct Hinv as (_ & ? & _); lia).
  assert (l' = l) as -> by congruence. destruct Hcase as [[_ ->]|[_ ?]]; lia.
Qed.

Lemma final_reps (m : nat) :
  Z.of_nat m ≤ n →
  ∃ reps : list XYPoint, length reps = m ∧
    ∀ j r, reps !! j = Some r →
      foreground is_zero x r ∧ cell L r = Some (Z.of_nat j + 1).
Proof.
  induction m as [|m IH]; intros Hm.
  - exists []. split; [done|]. intros j r Hj. by rewrite lookup_nil in Hj.
  - destruct IH as (reps & Hlen & Hreps); [lia|].
    destruct (final_first (Z.of_nat m + 1)) as (i & Hi & _); [lia|].
    destruct (final_position _ _ Hi) as (p & Hp & Hc & _).
    exists (reps ++ [p]). split; [rewrite length_app; simpl; lia|].
    intros j r Hj. apply lookup_app_Some in Hj as [Hj|[Hge Hj]]; [by apply Hreps|].
    apply list_lookup_singleton_Some in Hj as [Hj0 <-].
    assert (j = m) as -> by lia. split; [|done].
    destruct (final_label p Hp) as (l & Hl & Hcase).
    destruct Hcase as [[_ ->]|[? _]]; [|done].
    assert (0 = Z.of_nat m + 1) by congruence. lia.
Qed.

Lemma final_count : component_count (foreground is_zero x) n.
Proof.
  assert (Hn : 0 ≤ n) by (destruct Hinv as (_ & ? & _); lia).
  destruct (final_reps (Z.to_nat n)) as (reps & Hlen & Hreps); [lia|].
  exists reps. split; [lia|]. split.
  { intros r [j Hj]%list_elem_of_lookup. by apply (Hreps j). }
  split.
  { intros i j r r' Hi Hj Hc.
    destruct (Hreps i r Hi) as [Hf Hl]. destruct (Hreps j r' Hj) as [Hf' Hl'].
    apply (final_same r r' _ _ Hf Hf' Hl Hl') in Hc. lia. }
  intros p Hp. pose proof Hp as [Hip _].
  destruct (final_label p Hip) as (l & Hl & [[Hn' _]|[_ Hr]]); [done|].
  destruct (lookup_lt_is_Some_2 reps (Z.to_nat (l - 1))) as [r Hr']; [lia|].
  exists r. split; [by apply list_elem_of_lookup; eauto|].
  destruct (Hreps _ r Hr') as [Hf Hlr].
  apply (final_same r p _ l Hf Hp Hlr Hl). lia.
Qed.

Lemma final_all_zero :
  (∀ v, v ∈ data x → is_zero v = true) → n = 0 ∧ ∀ l, l ∈ data L → l = 0.
Proof.
  intros Hz.
  assert (Hnofg : ∀ p, ¬ foreground is_zero x p).
  { intros p (_ & v & Hv & Hzv). rewrite mget_pix in Hv.
    apply rd_Some in Hv as [_ Hv]. apply list_elem_of_lookup_2 in Hv.
    apply Hz in Hv. congruence. }
  split.
  - assert (Hn : 0 ≤ n) by (destruct Hinv as (_ & ? & _); lia).
    destruct (decide (n = 0)) as [|Hne]; [done|].
    destruct (final_first 1) as (i & Hi & _); [lia|].
    destruct (final_position _ _ Hi) as (p & Hp & Hc & _).
    destruct (final_label p Hp) as (l & Hl & [[_ ->]|[Hf _]]).
    + congruence.
    + by destruct (Hnofg p).
  - intros l [i Hi]%list_elem_of_lookup.
    assert (Hr : rd (data L) (Z.of_nat i) = Some l).
    { apply rd_Some. split; [lia|]. by rewrite Nat2Z.id. }
    destruct (final_position _ _ Hr) as (p & Hp & Hc & _).
    destruct (final_label p Hp) as (l' & Hl' & [[_ ->]|[Hf _]]).
    + congruence.
    + by destruct (Hnofg p).
Qed.
End Final.
End BwlabelCorrect.

Lemma background_not_foreground {R : Type} (is_zero : R → bool) (x : Matrix R)
    (p : XYPoint) :
  background is_zero x p → ¬ foreground is_zero x p.
Proof. intros (_ & v & Hv & Hz) (_ & v' & Hv' & Hz'). congruence. Qed.

(** C1.  For every raster, [bwlabel] returns as [num_labels] the number of
    maximal 4-connected components of the nonzero cells, where cells are
    connected only through shared edges (never through a corner alone).  In
    the label grid two nonzero cells carry the same label exactly when they
    are connected, nonzero cells carry positive labels and zero cells carry
    0; an all-zero raster gives [num_labels = 0] and an all-zero grid. *)
Theorem bwlabel_components {R : Type} (is_zero : R → bool) (fuel : nat)
    (x : Matrix R) :
  wf_matrix x → (2 * length (data x) + 1 < fuel)%nat →
  ∃ L n, bwlabel is_zero fuel x = Some (L, n) ∧
    nrow L = nrow x ∧ ncol L = ncol x ∧
    component_count (foreground is_zero x) n ∧
    (∀ p, foreground is_zero x p → ∃ l, cell L p = Some l ∧ 1 ≤ l ≤ n) ∧
    (∀ p q lp lq, foreground is_zero x p → foreground is_zero x q →
       cell L p = Some lp → cell L q = Some lq →
       lp = lq ↔ connected is_zero x p q) ∧
    (∀ p, background is_zero x p → cell L p = Some 0) ∧
    ((∀ v, v ∈ data x → is_zero v = true) → n = 0 ∧ ∀ l, l ∈ data L → l = 0).
Proof.
  intros Hwf Hfuel.
  destruct (bwlabel_lab_inv is_zero x Hwf fuel Hfuel) as (L & n & Hbw & HnL & HcL & Hinv).
  exists L, n. split; [done|]. split; [done|]. split; [done|].
  split; [by apply (final_count is_zero x Hwf L n)|].
  split.
  { intros p Hp. pose proof Hp as [Hip _].
    destruct (final_label is_zero x L n HnL Hinv p Hip) as (l & Hl & [[Hn _]|[_ Hr]]);
      [done | eauto]. }
  split.
  { intros p q lp lq Hp Hq Hlp Hlq.
    rewrite <- (final_same is_zero x L n HnL Hinv p q lp lq Hp Hq Hlp Hlq).
    split; congruence. }
  split.
  { intros p Hp. pose proof Hp as [Hip _].
    destruct (final_label is_zero x L n HnL Hinv p Hip) as (l & Hl & [[_ ->]|[Hf _]]);
      [done|]. by destruct (background_not_foreground is_zero x p). }
  by apply (final_all_zero is_zero x Hwf L n).
Qed.

Lemma in_matrix_cell {A : Type} (M : Matrix A) (p : XYPoint) :
  wf_matrix M → in_matrix M p → ∃ v, cell M p = Some v.
Proof.
  intros (Hr & Hc & Hlen) [Hx Hy]. unfold cell. rewrite mget_pix.
  apply rd_is_Some. rewrite Hlen.
  apply (inb_index (XY (nrow M) (ncol M))). by split.
Qed.

Lemma cell_elem {A : Type} (M : Matrix A) (p : XYPoint) (v : A) :
  cell M p = Some v → v ∈ data M.
Proof.
  unfold cell, mget. intros [_ Hl]%rd_Some. by apply list_elem_of_lookup_2 in Hl.
Qed.

(** C9 (amended).  The label grid holds only values of
    [{0} ∪ {1, ..., num_labels}], and 0 is among them exactly when the raster
    has a zero cell; every label from 1 to [num_labels] occurs, no label is
    shared by two components, and labels are handed out in first-encounter
    order of the scan, which follows the column-major storage order: the
    first storage position of label [k] precedes the first storage position
    of label [k + 1]. *)
Theorem bwlabel_labels_sequential {R : Type} (is_zero : R → bool) (fuel : nat)
    (x : Matrix R) :
  wf_matrix x → (2 * length (data x) + 1 < fuel)%nat →
  ∃ L n, bwlabel is_zero fuel x = Some (L, n) ∧
    (∀ l, l ∈ data L → 0 ≤ l ≤ n) ∧
    (0 ∈ data L ↔ ∃ p, background is_zero x p) ∧
    (∀ k, 1 ≤ k ≤ n → ∃ i, first_at (data L) k i) ∧
    (∀ p q l, foreground is_zero x p → foreground is_zero x q →
       cell L p = Some l → cell L q = Some l → connected is_zero x p q) ∧
    (∀ k i i', 1 ≤ k → k < n →
       first_at (data L) k i → first_at (data L) (k + 1) i' → i < i').
Proof.
  intros Hwf Hfuel.
  destruct (bwlabel_lab_inv is_zero x Hwf fuel Hfuel) as (L & n & Hbw & HnL & HcL & Hinv).
  exists L, n. split; [done|].
  split; [by apply (final_range is_zero x Hwf L n)|].
  split.
  { split.
    - intros [i Hi]%list_elem_of_lookup.
      assert (Hr : rd (data L) (Z.of_nat i) = Some 0).
      { apply rd_Some. split; [lia|]. by rewrite Nat2Z.id. }
      destruct (final_position is_zero x Hwf L n HnL Hinv _ _ Hr) as (p & Hp & Hc & _).
      exists p. split; [done|].
      destruct (in_matrix_cell x p Hwf Hp) as [v Hv]. exists v. split; [done|].
      destruct (is_zero v) eqn:Hz; [done|].
      destruct (final_label is_zero x L n HnL Hinv p Hp) as (l & Hl & [[Hn _]|[_ Hrg]]).
      + destruct Hn. split; [done|]. eauto.
      + assert (l = 0) by congruence. lia.
    - intros [p Hp]. apply (cell_elem L p). pose proof Hp as [Hip _].
      destruct (final_label is_zero x L n HnL Hinv p Hip) as (l & Hl & [[_ ->]|[Hf _]]);
        [done|]. by destruct (background_not_foreground is_zero x p). }
  split; [by apply (final_first is_zero x L n)|].
  split.
  { intros p q l Hp Hq Hlp Hlq.
    by apply (final_same is_zero x L n HnL Hinv p q l l Hp Hq Hlp Hlq). }
  by apply (final_order is_zero x L n).
Qed.

(** C9 as stated fails: it lists 0 among the values of every label grid,
    but on the 1-by-1 raster [1] the grid is [1] with [num_labels = 1] and
    holds no 0. *)
Lemma bwlabel_grid_without_zero :
  ∃ L n, bwlabel (Z.eqb 0) 10 (mkMatrix 1 1 [1]) = Some (L, n) ∧
    n = 1 ∧ data L = [1] ∧ 0 ∉ data L.
Proof.
  exists (mkMatrix 1 1 [1]), 1. split; [by vm_compute|]. split; [done|].
  split; [done|]. cbn [data]. intros [H|H]%elem_of_cons; [lia|].
  by apply elem_of_nil in H.
Qed.

(** Two cells that touch only at a corner get separate labels. *)
Example bwlabel_diagonal :
  bwlabel (Z.eqb 0) 10 diagonal_raster = Some (mkMatrix 2 2 [1; 0; 0; 2], 2).
Proof. vm_compute. reflexivity. Qed.

Lemma bwlabel_components_witness :
  ∃ L n, bwlabel (Z.eqb 0) 10 diagonal_raster = Some (L, n) ∧
    nrow L = 2 ∧ ncol L = 2 ∧
    component_count (foreground (Z.eqb 0) diagonal_raster) n ∧
    (∀ p, foreground (Z.eqb 0) diagonal_raster p → ∃ l, cell L p = Some l ∧ 1 ≤ l ≤ n) ∧
    (∀ p q lp lq, foreground (Z.eqb 0) diagonal_raster p →
       foreground (Z.eqb 0) diagonal_raster q →
       cell L p = Some lp → cell L q = Some lq →
       lp = lq ↔ connected (Z.eqb 0) diagonal_raster p q) ∧
    (∀ p, background (Z.eqb 0) diagonal_raster p → cell L p = Some 0) ∧
    ((∀ v, v ∈ data diagonal_raster → (0 =? v) = true) →
       n = 0 ∧ ∀ l, l ∈ data L → l = 0).
Proof.
  apply (bwlabel_components (Z.eqb 0) 10 diagonal_raster).
  - unfold wf_matrix. simpl. lia.
  - simpl. lia.
Defined.

Lemma bwlabel_labels_sequential_witness :
  ∃ L n, bwlabel (Z.eqb 0) 10 diagonal_raster = Some (L, n) ∧
    (∀ l, l ∈ data L → 0 ≤ l ≤ n) ∧
    (0 ∈ data L ↔ ∃ p, background (Z.eqb 0) diagonal_raster p) ∧
    (∀ k, 1 ≤ k ≤ n → ∃ i, first_at (data L) k i) ∧
    (∀ p q l, foreground (Z.eqb 0) diagonal_raster p →
       foreground (Z.eqb 0) diagonal_raster q →
       cell L p = Some l → cell L q = Some l →
       connected (Z.eqb 0) diagonal_raster p q) ∧
    (∀ k i i', 1 ≤ k → k < n →
       first_at (data L) k i → first_at (data L) (k + 1) i' → i < i').
Proof.
  apply (bwlabel_labels_sequential (Z.eqb 0) 10 diagonal_raster).
  - unfold wf_matrix. simpl. lia.
  - simpl. lia.
Defined.

(** ** Matrix cells *)

Lemma cell_offset {A : Type} (M : Matrix A) (p q : XYPoint) :
  in_matrix M p → in_matrix M q →
  offset M (xx p) (yy p) = offset M (xx q) (yy q) → p = q.
Proof.
  intros [Hpx Hpy] [Hqx Hqy] He. unfold offset in He.
  destruct p as [px py], q as [qx qy]. cbn [xx yy] in *.
  destruct (index_inj (XY (nrow M) (ncol M)) px py qx qy) as [-> ->];
    [done | done | cbn [xx]; lia | done].
Qed.

Lemma mset_spec {A : Type} (M : Matrix A) (i j : Z) (v : A) :
  wf_matrix M → in_matrix M (XY i j) →
  ∃ M', mset M i j v = Some M' ∧
    nrow M' = nrow M ∧ ncol M' = ncol M ∧ wf_matrix M' ∧
    cell M' (XY i j) = Some v ∧
    ∀ p, in_matrix M p → p ≠ XY i j → cell M' p = cell M p.
Proof.
  intros (Hr & Hc & Hlen) Hij. pose proof Hij as [Hi Hj]. cbn [xx yy] in Hi, Hj.
  assert (Hoff : 0 ≤ offset M i j < Z.of_nat (length (data M))).
  { rewrite Hlen. unfold offset.
    pose proof (inb_index (XY (nrow M) (ncol M)) i j (conj Hi Hj)) as Hb.
    cbn [xx yy] in Hb. lia. }
  pose proof (wr_is_Some (data M) (offset M i j) v Hoff) as Hw.
  exists (mkMatrix (nrow M) (ncol M) (<[Z.to_nat (offset M i j) := v]> (data M))).
  split; [unfold mset; by rewrite Hw|]. split; [done|]. split; [done|].
  split; [unfold wf_matrix; cbn [nrow ncol data]; by rewrite length_insert|].
  split.
  - unfold cell, mget. cbn [xx yy data]. by apply (rd_wr_eq (data M)).
  - intros p Hp Hne. unfold cell, mget. cbn [data].
    apply (rd_wr_ne (data M) _ (offset M i j) _ v); [done|].
    change (offset M (xx (XY i j)) (yy (XY i j)) ≠ offset M (xx p) (yy p)).
    intros He. apply Hne. symmetry. by apply (cell_offset M).
Qed.

(** ** The border frame *)

Section Marking.
Context (nr nc : Z).

(** [b] is a mask of the given shape that is true exactly on [Q]. *)
Definition marked (b : LogicalMatrix) (Q : XYPoint → Prop) : Prop :=
  nrow b = nr ∧ ncol b = nc ∧ wf_matrix b ∧
  ∀ p, in_matrix b p → ∃ t, cell b p = Some t ∧ (t = true ↔ Q p).

Lemma marked_ext (b : LogicalMatrix) (Q Q' : XYPoint → Prop) :
  (∀ p, in_matrix b p → Q p ↔ Q' p) → marked b Q → marked b Q'.
Proof.
  intros He (Hr & Hc & Hwf & Hcells). repeat (split; [done|]).
  intros p Hp. destruct (Hcells p Hp) as (t & Ht & Hiff). exists t.
  split; [done|]. by rewrite <- He.
Qed.

Lemma marked_set (b : LogicalMatrix) (Q : XYPoint → Prop) (i j : Z) :
  marked b Q → 0 ≤ i < nr → 0 ≤ j < nc →
  ∃ b', mset b i j true = Some b' ∧ marked b' (λ p, Q p ∨ p = XY i j).
Proof.
  intros (Hr & Hc & Hwf & Hcells) Hi Hj.
  assert (Hij : in_matrix b (XY i j)) by (unfold in_matrix; cbn [xx yy]; lia).
  destruct (mset_spec b i j true Hwf Hij) as (b' & Hset & Hr' & Hc' & Hwf' & Hsame & Hother).
  exists b'. split; [done|]. split; [lia|]. split; [lia|]. split; [done|].
  intros p Hp. destruct (decide (p = XY i j)) as [->|Hne].
  - exists true. split; [done|]. split; auto.
  - assert (Hp' : in_matrix b p) by (unfold in_matrix in *; lia).
    destruct (Hcells p Hp') as (t & Ht & Hiff). exists t.
    split; [by rewrite Hother|]. rewrite Hiff. tauto.
Qed.

Lemma marked_for (M : Z → XYPoint → Prop) (body : Z → LogicalMatrix → option LogicalMatrix)
    (lo hi : Z) (b0 : LogicalMatrix) (Q0 : XYPoint → Prop) :
  (∀ i b Q, lo ≤ i < hi → marked b Q →
     ∃ b', body i b = Some b' ∧ marked b' (λ p, Q p ∨ M i p)) →
  marked b0 Q0 →
  ∃ b', for_ lo hi body b0 = Some b' ∧
        marked b' (λ p, Q0 p ∨ ∃ i, lo ≤ i < hi ∧ M i p).
Proof.
  intros Hbody H0. destruct (Z.le_gt_cases lo hi) as [Hle|Hgt].
  - destruct (for_rule (λ k b, marked b (λ p, Q0 p ∨ ∃ i, lo ≤ i < k ∧ M i p))
                body lo hi b0) as (b' & Hfor & Hb'); [done | | | by exists b'].
    + apply (marked_ext b0 Q0); [|done]. intros p _. split; [by left|].
      intros [?|(i & ? & _)]; [done | lia].
    + intros i b Hi Hb. destruct (Hbody i b _ Hi Hb) as (b' & Hb' & Hm).
      exists b'. split; [done|]. eapply marked_ext; [|done].
      intros p _. split.
      * intros [[?|(k & ? & ?)]|?]; [by left | right; exists k; split; [lia|done] |].
        right. exists i. split; [lia | done].
      * intros [?|(k & Hk & ?)]; [by left; left|].
        destruct (decide (k = i)) as [->|]; [by right|].
        left. right. exists k. split; [lia | done].
  - exists b0. split; [apply for_empty; lia|].
    apply (marked_ext b0 Q0); [|done]. intros p _. split; [by left|].
    intros [?|(i & ? & _)]; [done | lia].
Qed.
End Marking.

Lemma new_matrix_cell {A : Type} (r c : Z) (d : A) (p : XYPoint) :
  in_matrix (new_matrix r c d) p → cell (new_matrix r c d) p = Some d.
Proof.
  intros [Hx Hy]. cbn [nrow ncol new_matrix] in Hx, Hy.
  unfold cell. rewrite mget_pix. cbn [nrow data new_matrix].
  apply rd_Some.
  pose proof (inb_index (XY r c) (xx p) (yy p) (conj Hx Hy)) as Hb.
  cbn [xx yy] in Hb. split; [lia|]. apply lookup_replicate_2. lia.
Qed.

Lemma border_frame_marked (nr nc ext : Z) :
  0 ≤ nr → 0 ≤ nc → ext ≤ nr → ext ≤ nc →
  ∃ b, border_frame_loops (λ i j b, mset b i j true) nr nc ext
         (new_matrix nr nc false) = Some b ∧
       marked nr nc b (in_frame nr nc ext).
Proof.
  intros Hnr Hnc Her Hec. unfold border_frame_loops.
  assert (H0 : marked nr nc (new_matrix nr nc false) (λ _, False)).
  { split; [done|]. split; [done|]. split; [by apply wf_new_matrix|].
    intros p Hp. exists false. split; [by apply new_matrix_cell | done]. }
  cbv beta.
  destruct (marked_for nr nc
    (λ i p, ∃ j, 0 ≤ j < nc ∧ (p = XY i j ∨ p = XY (nr - i - 1) j))
    (λ i s, for_ 0 nc (λ j s, s ← mset s i j true; mset s (nr - i - 1) j true) s)
    0 ext (new_matrix nr nc false) (λ _, False)) as (b1 & Hf1 & Hb1); [|done|].
  { intros i b Q Hi Hb.
    apply (marked_for nr nc (λ j p, p = XY i j ∨ p = XY (nr - i - 1) j)); [|done].
    intros j b2 Q2 Hj Hb2.
    destruct (marked_set nr nc b2 Q2 i j Hb2) as (b3 & -> & Hb3); [lia | lia |].
    cbn [mbind option_bind].
    destruct (marked_set nr nc b3 _ (nr - i - 1) j Hb3) as (b4 & -> & Hb4); [lia | lia |].
    exists b4. split; [done|]. eapply marked_ext; [|done]. intros p _. tauto. }
  rewrite Hf1. cbn [mbind option_bind].
  edestruct (marked_for nr nc
    (λ i p, ∃ j, 0 ≤ j < nr ∧ (p = XY j i ∨ p = XY j (nc - i - 1)))
    (λ i s, for_ 0 nr (λ j s, s ← mset s j i true; mset s j (nc - i - 1) true) s)
    0 ext b1) as (b2 & Hf2 & Hb2); [|exact Hb1|].
  { intros i b Q Hi Hb.
    apply (marked_for nr nc (λ j p, p = XY j i ∨ p = XY j (nc - i - 1))); [|done].
    intros j b2 Q2 Hj Hb2.
    destruct (marked_set nr nc b2 Q2 j i Hb2) as (b3 & -> & Hb3); [lia | lia |].
    cbn [mbind option_bind].
    destruct (marked_set nr nc b3 _ j (nc - i - 1) Hb3) as (b4 & -> & Hb4); [lia | lia |].
    exists b4. split; [done|]. eapply marked_ext; [|done]. intros p _. tauto. }
  rewrite Hf2.
  exists b2. split; [done|]. eapply marked_ext; [|done].
  pose proof Hb2 as (Hr2 & Hc2 & _).
  intros [px py] [Hx Hy]. cbn [xx yy] in Hx, Hy. rewrite Hr2 in Hx. rewrite Hc2 in Hy.
  unfold in_frame. cbn [xx yy]. split.
  - intros [[[]|(i & Hi & j & Hj & [[= -> ->]|[= -> ->]])]
           |(i & Hi & j & Hj & [[= -> ->]|[= -> ->]])]; lia.
  - intros [H|[H|[H|H]]].
    + left. right. exists px. split; [lia|]. exists py. split; [lia | by left].
    + left. right. exists (nr - px - 1). split; [lia|]. exists py. split; [lia|].
      right. f_equal. lia.
    + right. exists py. split; [lia|]. exists px. split; [lia | by left].
    + right. exists (nc - py - 1). split; [lia|]. exists px. split; [lia|].
      right. f_equal. lia.
Qed.

(** A loop that only adds to a collection. *)
Lemma for_collect {St T : Type} (mem : T → St → Prop) (P : Z → T → Prop)
    (body : Z → St → option St) (lo hi : Z) (s0 : St) :
  (∀ i s, lo ≤ i < hi →
     ∃ s', body i s = Some s' ∧ ∀ x, mem x s' ↔ mem x s ∨ P i x) →
  ∃ s', for_ lo hi body s0 = Some s' ∧
        ∀ x, mem x s' ↔ mem x s0 ∨ ∃ i, lo ≤ i < hi ∧ P i x.
Proof.
  intros Hbody. destruct (Z.le_gt_cases lo hi) as [Hle|Hgt].
  - destruct (for_rule (λ k s, ∀ x, mem x s ↔ mem x s0 ∨ ∃ i, lo ≤ i < k ∧ P i x)
                body lo hi s0) as (s' & Hfor & Hs'); [done | | | by exists s'].
    + intros x. split; [by left|]. intros [?|(i & ? & _)]; [done | lia].
    + intros i s Hi Hs. destruct (Hbody i s Hi) as (s' & Hb & Hs').
      exists s'. split; [done|]. intros x. rewrite Hs', Hs. split.
      * intros [[?|(k & ? & ?)]|?]; [by left | right; exists k; split; [lia|done] |].
        right. exists i. split; [lia | done].
      * intros [?|(k & Hk & ?)]; [by left; left|].
        destruct (decide (k = i)) as [->|]; [by right|].
        left. right. exists k. split; [lia | done].
  - exists s0. split; [apply for_empty; lia|].
    intros x. split; [by left|]. intros [?|(i & ? & _)]; [done | lia].
Qed.

(** A loop that only appends to a log. *)
Lemma for_members {T : Type} (P : Z → T → Prop)
    (body : Z → list T → option (list T)) (lo hi : Z) (l0 : list T) :
  (∀ i l, lo ≤ i < hi →
     ∃ l', body i l = Some l' ∧ ∀ x, x ∈ l' ↔ x ∈ l ∨ P i x) →
  ∃ l', for_ lo hi body l0 = Some l' ∧
        ∀ x, x ∈ l' ↔ x ∈ l0 ∨ ∃ i, lo ≤ i < hi ∧ P i x.
Proof. apply (for_collect (λ (x : T) (l : list T), x ∈ l)). Qed.

Lemma border_frame_accesses_spec (nr nc ext : Z) (a : Z * Z) :
  a ∈ border_frame_accesses nr nc ext ↔
  (∃ i, 0 ≤ i < ext ∧ ∃ j, 0 ≤ j < nc ∧ (a = (i, j) ∨ a = (nr - i - 1, j))) ∨
  (∃ i, 0 ≤ i < ext ∧ ∃ j, 0 ≤ j < nr ∧ (a = (j, i) ∨ a = (j, nc - i - 1))).
Proof.
  unfold border_frame_accesses, border_frame_loops. cbv beta.
  cbn [mbind option_bind].
  destruct (for_members
    (λ i a, ∃ j, 0 ≤ j < nc ∧ (a = (i, j) ∨ a = (nr - i - 1, j)))
    (λ i (s : list (Z * Z)),
       for_ 0 nc (λ j s, Some ((s ++ [(i, j)]) ++ [(nr - i - 1, j)])) s)
    0 ext []) as (l1 & Hf1 & Hl1).
  { intros i l Hi.
    apply (for_members (λ j a, a = (i, j) ∨ a = (nr - i - 1, j))).
    intros j l2 Hj. eexists. split; [done|]. intros x.
    rewrite !elem_of_app, !list_elem_of_singleton. tauto. }
  rewrite Hf1. cbn [mbind option_bind].
  destruct (for_members
    (λ i a, ∃ j, 0 ≤ j < nr ∧ (a = (j, i) ∨ a = (j, nc - i - 1)))
    (λ i (s : list (Z * Z)),
       for_ 0 nr (λ j s, Some ((s ++ [(j, i)]) ++ [(j, nc - i - 1)])) s)
    0 ext l1) as (l2 & Hf2 & Hl2).
  { intros i l Hi.
    apply (for_members (λ j a, a = (j, i) ∨ a = (j, nc - i - 1))).
    intros j l3 Hj. eexists. split; [done|]. intros x.
    rewrite !elem_of_app, !list_elem_of_singleton. tauto. }
  rewrite Hf2. cbn [default]. rewrite Hl2, Hl1.
  split; [intros [[[]%elem_of_nil|?]|?]; tauto | tauto].
Qed.

(** C10 (amended).  With [ext = buffer_size + 1]: if [ext] exceeds neither
    the row nor the column count, every index pair the two frame loops
    compute lies inside the matrix and the construction of [borders] has a
    defined result; if [ext] exceeds the row or the column count and the
    matrix has a row or a column, some iteration computes a negative index. *)
Theorem border_frame_bounds (nr nc buffer_size : Z) :
  0 ≤ nr → 0 ≤ nc →
  (buffer_size + 1 ≤ nr → buffer_size + 1 ≤ nc →
     (∀ i j, (i, j) ∈ border_frame_accesses nr nc (buffer_size + 1) →
        0 ≤ i < nr ∧ 0 ≤ j < nc) ∧
     ∃ b, border_frame_loops (λ i j b, mset b i j true) nr nc (buffer_size + 1)
            (new_matrix nr nc false) = Some b) ∧
  (nr < buffer_size + 1 ∨ nc < buffer_size + 1 → 0 < nr ∨ 0 < nc →
     ∃ i j, (i, j) ∈ border_frame_accesses nr nc (buffer_size + 1) ∧
            (i < 0 ∨ j < 0)).
Proof.
  intros Hnr Hnc. split.
  - intros Her Hec. split.
    + intros i j Hin. apply border_frame_accesses_spec in Hin.
      destruct Hin as [(k & Hk & l & Hl & [[= -> ->]|[= -> ->]])
                      |(k & Hk & l & Hl & [[= -> ->]|[= -> ->]])]; lia.
    + destruct (border_frame_marked nr nc (buffer_size + 1)) as (b & Hb & _);
        [done.. | by exists b].
  - intros Hext Hne.
    assert (Hcase : (nr < buffer_size + 1 ∧ 0 < nc) ∨ (nc < buffer_size + 1 ∧ 0 < nr))
      by lia.
    destruct Hcase as [[Hr Hc]|[Hc Hr]].
    + exists (nr - nr - 1), 0. split; [|lia].
      apply border_frame_accesses_spec. left. exists nr. split; [lia|].
      exists 0. split; [lia | by right].
    + exists 0, (nc - nc - 1). split; [|lia].
      apply border_frame_accesses_spec. right. exists nc. split; [lia|].
      exists 0. split; [lia | by right].
Qed.

Lemma border_frame_bounds_witness :
  (0 + 1 ≤ 3 → 0 + 1 ≤ 3 →
     (∀ i j, (i, j) ∈ border_frame_accesses 3 3 (0 + 1) → 0 ≤ i < 3 ∧ 0 ≤ j < 3) ∧
     ∃ b, border_frame_loops (λ i j b, mset b i j true) 3 3 (0 + 1)
            (new_matrix 3 3 false) = Some b) ∧
  (3 < 0 + 1 ∨ 3 < 0 + 1 → 0 < 3 ∨ 0 < 3 →
     ∃ i j, (i, j) ∈ border_frame_accesses 3 3 (0 + 1) ∧ (i < 0 ∨ j < 0)).
Proof. apply (border_frame_bounds 3 3 0); lia. Defined.

(** C10 as stated fails on the empty matrix: [buffer_size + 1 = 1] exceeds
    both counts, yet the loop bodies never run and no index is computed. *)
Lemma border_frame_empty_matrix :
  0 < 0 + 1 ∧
  ¬ ∃ i j, (i, j) ∈ border_frame_accesses 0 0 (0 + 1) ∧ (i < 0 ∨ j < 0).
Proof.
  split; [lia|]. intros (i & j & Hin & _).
  change (border_frame_accesses 0 0 (0 + 1)) with (@nil (Z * Z)) in Hin.
  by apply elem_of_nil in Hin.
Qed.

(** ** Loops that rewrite a matrix cell by cell

    The two loop constructs (over [option] and over [result]) obey the same
    invariant rule; the lemmas on row-by-row rewriting are proved once. *)

Definition shape {A : Type} (nr nc : Z) (M : Matrix A) : Prop :=
  nrow M = nr ∧ ncol M = nc ∧ wf_matrix M.

Section LoopRules.
Context {F : Type → Type}.
Context (ok : ∀ St : Type, St → F St).
Context (loop : ∀ St : Type, Z → Z → (Z → St → F St) → St → F St).
Hypothesis loop_rule :
  ∀ (St : Type) (I : Z → St → Prop) (body : Z → St → F St) (lo hi : Z) (s : St),
    lo ≤ hi → I lo s →
    (∀ i s, lo ≤ i < hi → I i s → ∃ s', body i s = ok St s' ∧ I (i + 1) s') →
    ∃ s', loop St lo hi body s = ok St s' ∧ I hi s'.

Context {A : Type} (nr nc : Z) (tgt : XYPoint → A → A).

(** [step] rewrites cell [(i, j)] by [tgt] and nothing else. *)
Definition updates_cell (step : Matrix A → F (Matrix A)) (i j : Z) : Prop :=
  ∀ M v, shape nr nc M → cell M (XY i j) = Some v →
    ∃ M', step M = ok _ M' ∧ shape nr nc M' ∧
      cell M' (XY i j) = Some (tgt (XY i j) v) ∧
      ∀ p, in_matrix M p → p ≠ XY i j → cell M' p = cell M p.

(** [M] is [M0] with the cells of [D] rewritten. *)
Definition updated (M0 M : Matrix A) (D : XYPoint → bool) : Prop :=
  shape nr nc M ∧
  ∀ p, in_matrix M0 p →
    ∃ v, cell M0 p = Some v ∧ cell M p = Some (if D p then tgt p v else v).

Lemma updated_ext (M0 M : Matrix A) (D D' : XYPoint → bool) :
  (∀ p, in_matrix M0 p → D p = D' p) → updated M0 M D → updated M0 M D'.
Proof.
  intros He [Hs Hc]. split; [done|]. intros p Hp.
  destruct (Hc p Hp) as (v & Hv & Hv'). exists v. split; [done|].
  by rewrite <- He.
Qed.

Lemma updated_init (M0 : Matrix A) :
  shape nr nc M0 → updated M0 M0 (λ _, false).
Proof.
  intros Hs. split; [done|]. intros p Hp. destruct Hs as (? & ? & Hwf).
  destruct (in_matrix_cell M0 p Hwf Hp) as [v Hv]. by exists v.
Qed.

Lemma row_update (cellbody : Z → Matrix A → F (Matrix A)) (M0 M : Matrix A) (i : Z) :
  shape nr nc M0 → 0 ≤ nc → 0 ≤ i < nr →
  (∀ j, 0 ≤ j < nc → updates_cell (cellbody j) i j) →
  updated M0 M (λ p, xx p <? i) →
  ∃ M', loop _ 0 nc cellbody M = ok _ M' ∧ updated M0 M' (λ p, xx p <? i + 1).
Proof.
  intros Hs0 Hnc Hi Hcell Hup.
  destruct (loop_rule _
    (λ j M, updated M0 M (λ p, (xx p <? i) || ((xx p =? i) && (yy p <? j))))
    cellbody 0 nc M) as (M' & Hloop & HM'); [done | | |].
  - eapply updated_ext; [|done]. intros p [_ Hy]. destruct Hs0 as (_ & Hc0 & _).
    destruct (xx p <? i); [done|]. destruct (Z.ltb_spec (yy p) 0); [lia|].
    by rewrite andb_false_r.
  - intros j M1 Hj [Hs1 Hc1].
    assert (Hij : in_matrix M0 (XY i j)).
    { destruct Hs0 as (Hr0 & Hc0 & _). unfold in_matrix. cbn [xx yy]. lia. }
    destruct (Hc1 _ Hij) as (v & Hv0 & Hv1). cbn [xx yy] in Hv1.
    rewrite Z.ltb_irrefl, Z.eqb_refl in Hv1. cbn [orb andb] in Hv1.
    rewrite Z.ltb_irrefl in Hv1.
    destruct (Hcell j Hj M1 v Hs1 Hv1) as (M2 & Hstep & Hs2 & Hsame & Hother).
    exists M2. split; [done|]. split; [done|]. intros p Hp.
    destruct (Hc1 p Hp) as (w & Hw0 & Hw1). exists w. split; [done|].
    destruct (decide (p = XY i j)) as [->|Hne].
    + assert (w = v) as -> by congruence. rewrite Hsame. cbn [xx yy].
      rewrite Z.eqb_refl. replace (j <? j + 1) with true by (symmetry; lia).
      by rewrite orb_true_r.
    + rewrite Hother; [| |done].
      * rewrite Hw1. f_equal.
        assert (He : (xx p =? i) && (yy p <? j + 1) = (xx p =? i) && (yy p <? j));
          [|by rewrite He].
        destruct (Z.eqb_spec (xx p) i) as [Hx|]; [|done]. cbn [andb].
        assert (yy p ≠ j) by (intros Hy; apply Hne; destruct p; cbn in *; congruence).
        destruct (Z.ltb_spec (yy p) (j + 1)), (Z.ltb_spec (yy p) j); done || lia.
      * destruct Hs0 as (Hr0 & Hc0 & _), Hs1 as (Hr1 & Hc1' & _).
        unfold in_matrix in *. lia.
  - exists M'. split; [done|]. eapply updated_ext; [|done].
    intros p [Hx Hy]. destruct Hs0 as (_ & Hc0 & _).
    destruct (Z.ltb_spec (xx p) i), (Z.ltb_spec (xx p) (i + 1)),
      (Z.eqb_spec (xx p) i), (Z.ltb_spec (yy p) nc); cbn [orb andb]; done || lia.
Qed.

Lemma rows_update (row : Z → Matrix A → F (Matrix A))
    (cellbody : Z → Z → Matrix A → F (Matrix A)) (M0 : Matrix A) :
  shape nr nc M0 → 0 ≤ nr → 0 ≤ nc →
  (∀ i M, shape nr nc M → row i M = loop _ 0 nc (cellbody i) M) →
  (∀ i j, 0 ≤ i < nr → 0 ≤ j < nc → updates_cell (cellbody i j) i j) →
  ∃ M', loop _ 0 nr row M0 = ok _ M' ∧ shape nr nc M' ∧
    ∀ p, in_matrix M0 p → ∃ v, cell M0 p = Some v ∧ cell M' p = Some (tgt p v).
Proof.
  intros Hs0 Hnr Hnc Hrow Hcell.
  destruct (loop_rule _ (λ i M, updated M0 M (λ p, xx p <? i)) row 0 nr M0)
    as (M' & Hloop & [Hs' Hc']); [done | | |].
  - eapply updated_ext; [|by apply updated_init]. intros p [Hx _]. cbv beta.
    symmetry. apply Z.ltb_ge. lia.
  - intros i M Hi Hup. rewrite Hrow; [|by destruct Hup].
    apply (row_update (cellbody i) M0 M i); try done.
    intros j Hj. by apply Hcell.
  - exists M'. split; [done|]. split; [done|]. intros p Hp.
    destruct (Hc' p Hp) as (v & Hv & Hv'). exists v. split; [done|].
    rewrite Hv'. destruct Hp as [Hx _]. destruct Hs0 as (Hr0 & _).
    by replace (xx p <? nr) with true by (symmetry; lia).
Qed.

(** A scan of all cells, row by row, that accumulates into a state: [Inv D s]
    relates the state to the set [D] of cells seen so far. *)
Lemma cells_scan {St : Type} (Inv : (XYPoint → bool) → St → Prop)
    (row : Z → St → F St) (cellbody : Z → Z → St → F St) (s0 : St) :
  0 ≤ nr → 0 ≤ nc →
  (∀ D D' s, (∀ p, 0 ≤ xx p < nr → 0 ≤ yy p < nc → D p = D' p) →
     Inv D s → Inv D' s) →
  (∀ i s, row i s = loop _ 0 nc (cellbody i) s) →
  (∀ i j s D, 0 ≤ i < nr → 0 ≤ j < nc → Inv D s → D (XY i j) = false →
     ∃ s', cellbody i j s = ok _ s' ∧
           Inv (λ p, D p || bool_decide (p = XY i j)) s') →
  Inv (λ _, false) s0 →
  ∃ s', loop _ 0 nr row s0 = ok _ s' ∧ Inv (λ _, true) s'.
Proof.
  intros Hnr Hnc Hext Hrow Hcell H0.
  destruct (loop_rule _ (λ i s, Inv (λ p, xx p <? i) s) row 0 nr s0)
    as (s' & Hloop & Hs'); [done | | |].
  - eapply Hext; [|done]. intros p Hx _. cbv beta. symmetry. apply Z.ltb_ge. lia.
  - intros i s Hi Hs. rewrite Hrow.
    destruct (loop_rule _
      (λ j s, Inv (λ p, (xx p <? i) || ((xx p =? i) && (yy p <? j))) s)
      (cellbody i) 0 nc s) as (s' & Hloop & Hs'); [done | | |].
    + eapply Hext; [|done]. intros p _ Hy. cbv beta.
      destruct (xx p <? i); [done|]. destruct (Z.ltb_spec (yy p) 0); [lia|].
      by rewrite andb_false_r.
    + intros j s1 Hj Hs1.
      destruct (Hcell i j s1 _ Hi Hj Hs1) as (s2 & Hstep & Hs2).
      { cbn [xx yy]. rewrite !Z.ltb_irrefl. by rewrite andb_false_r. }
      exists s2. split; [done|]. eapply Hext; [|done]. intros p _ _. cbv beta.
      destruct (decide (p = XY i j)) as [->|Hne].
      * rewrite bool_decide_eq_true_2 by done. cbn [xx yy].
        rewrite Z.eqb_refl. replace (j <? j + 1) with true by (symmetry; lia).
        by rewrite !orb_true_r.
      * rewrite bool_decide_eq_false_2 by done. rewrite orb_false_r. f_equal.
        destruct (Z.eqb_spec (xx p) i) as [Hx|]; [|done]. cbn [andb].
        assert (yy p ≠ j) by (intros Hy; apply Hne; destruct p; cbn in *; congruence).
        destruct (Z.ltb_spec (yy p) (j + 1)), (Z.ltb_spec (yy p) j); done || lia.
    + exists s'. split; [done|]. eapply Hext; [|done]. intros p Hx Hy. cbv beta.
      destruct (Z.ltb_spec (xx p) i), (Z.ltb_spec (xx p) (i + 1)),
        (Z.eqb_spec (xx p) i), (Z.ltb_spec (yy p) nc); cbn [orb andb]; done || lia.
  - exists s'. split; [done|]. eapply Hext; [|done]. intros p Hx _. cbv beta.
    apply Z.ltb_lt. lia.
Qed.
End LoopRules.

Lemma for_rows_update {A : Type} (nr nc : Z) (tgt : XYPoint → A → A)
    (row : Z → Matrix A → option (Matrix A))
    (cellbody : Z → Z → Matrix A → option (Matrix A)) (M0 : Matrix A) :
  shape nr nc M0 → 0 ≤ nr → 0 ≤ nc →
  (∀ i M, shape nr nc M → row i M = for_ 0 nc (cellbody i) M) →
  (∀ i j, 0 ≤ i < nr → 0 ≤ j < nc →
     updates_cell (@Some) nr nc tgt (cellbody i j) i j) →
  ∃ M', for_ 0 nr row M0 = Some M' ∧ shape nr nc M' ∧
    ∀ p, in_matrix M0 p → ∃ v, cell M0 p = Some v ∧ cell M' p = Some (tgt p v).
Proof. apply (rows_update (@Some) (@for_) (@for_rule)). Qed.

(** ** The stages of [clear_border] *)

Lemma get_border_indices_spec (nr nc : Z) (labels : IntegerMatrix)
    (borders : LogicalMatrix) (Q : XYPoint → Prop) :
  shape nr nc labels → marked nr nc borders Q →
  ∃ bi, get_border_indices labels borders = Some bi ∧
    ∀ l, l ∈ bi ↔ ∃ p, in_matrix labels p ∧ Q p ∧ cell labels p = Some l.
Proof.
  intros (Hr & Hc & Hwf) (Hbr & Hbc & Hbwf & Hb). unfold get_border_indices.
  destruct (for_collect (λ (l : Z) (u : gset Z), l ∈ u)
    (λ i l, ∃ j, 0 ≤ j < nc ∧ Q (XY i j) ∧ cell labels (XY i j) = Some l)
    (λ i u, for_ 0 (ncol labels) (λ j u,
       b ← mget borders i j;
       if b : bool then l ← mget labels i j; Some ({[ l ]} ∪ u) else Some u) u)
    0 (nrow labels) ∅) as (u & Hf & Hu).
  { intros i s Hi. rewrite Hc.
    apply (for_collect (λ (l : Z) (u : gset Z), l ∈ u)
             (λ j l, Q (XY i j) ∧ cell labels (XY i j) = Some l)).
    intros j s2 Hj.
    assert (Hp : in_matrix borders (XY i j)) by (unfold in_matrix; cbn [xx yy]; lia).
    assert (Hp' : in_matrix labels (XY i j)) by (unfold in_matrix; cbn [xx yy]; lia).
    destruct (Hb _ Hp) as (t & Ht & Hiff). unfold cell in Ht. cbn [xx yy] in Ht.
    rewrite Ht. cbn [mbind option_bind].
    destruct (in_matrix_cell labels _ Hwf Hp') as [l Hl].
    destruct t.
    - unfold cell in Hl. cbn [xx yy] in Hl. rewrite Hl. cbn [mbind option_bind].
      eexists. split; [done|]. intros x. rewrite elem_of_union, elem_of_singleton.
      unfold cell. cbn [xx yy]. rewrite Hl.
      split; [intros [->|?]; [right|left]; [split; [by apply Hiff|]|]; done
             | intros [?|[_ [= ->]]]; auto].
    - eexists. split; [done|]. intros x. split; [by left|].
      intros [?|[HQ _]]; [done|]. apply Hiff in HQ. done. }
  rewrite Hf. cbn [mbind option_bind]. eexists. split; [done|].
  intros l. rewrite elem_of_elements, Hu. split.
  - intros [[]%elem_of_empty|(i & Hi & j & Hj & HQ & Hl)].
    exists (XY i j). split; [|done]. unfold in_matrix. cbn [xx yy]. lia.
  - intros ([i j] & [Hi Hj] & HQ & Hl). cbn [xx yy] in Hi, Hj. right.
    exists i. split; [done|]. exists j. split; [lia | done].
Qed.

Lemma create_label_mask_spec (n : Z) (bi : list Z) :
  0 ≤ n →
  ∃ lm, create_label_mask (seqZ 0 (n + 1)) bi = Some lm ∧
    ∀ k, 0 ≤ k ≤ n → rd lm k = Some (bool_decide (k ∈ bi)).
Proof.
  intros Hn. unfold create_label_mask. rewrite length_seqZ.
  destruct (for_rule
    (λ i (lm : list bool), length lm = Z.to_nat (n + 1) ∧
       ∀ k, 0 ≤ k < i → rd lm k = Some (bool_decide (k ∈ bi)))
    (λ i lm, v ← rd (seqZ 0 (n + 1)) i;
             wr lm i (bool_decide (v ∈ (list_to_set bi : gset Z))))
    0 (Z.of_nat (Z.to_nat (n + 1))) (replicate (Z.to_nat (n + 1)) false))
    as (lm & Hf & Hlen & Hlm).
  - lia.
  - split; [by rewrite length_replicate | intros; lia].
  - intros i lm Hi [Hlen Hdone].
    assert (Hv : rd (seqZ 0 (n + 1)) i = Some i).
    { apply rd_Some. split; [lia|]. rewrite lookup_seqZ. split; lia. }
    rewrite Hv. cbn [mbind option_bind].
    assert (Hw : wr lm i (bool_decide (i ∈ (list_to_set bi : gset Z)))
                 = Some (<[Z.to_nat i := bool_decide (i ∈ (list_to_set bi : gset Z))]> lm))
      by (apply wr_is_Some; lia).
    eexists. split; [done|]. split; [by rewrite length_insert|].
    intros k Hk. destruct (decide (k = i)) as [->|Hne].
    + rewrite (rd_wr_eq lm _ _ _ Hw). f_equal. apply bool_decide_ext.
      by rewrite elem_of_list_to_set.
    + rewrite (rd_wr_ne lm _ i k _ Hw); [apply Hdone; lia | done].
  - exists lm. split; [done|]. intros k Hk. apply Hlm. lia.
Qed.

Lemma create_clear_mask_spec (nr nc : Z) (labels : IntegerMatrix)
    (label_mask : list bool) :
  shape nr nc labels → 0 ≤ nr → 0 ≤ nc →
  (∀ p l, in_matrix labels p → cell labels p = Some l →
     ∃ t, rd label_mask l = Some t) →
  ∃ mask, create_clear_mask labels label_mask = Some mask ∧ shape nr nc mask ∧
    ∀ p l, in_matrix labels p → cell labels p = Some l →
      ∃ t, rd label_mask l = Some t ∧ cell mask p = Some t.
Proof.
  intros (Hr & Hc & Hwf) Hnr Hnc Hflags. unfold create_clear_mask.
  rewrite Hr, Hc.
  destruct (for_rows_update nr nc
    (λ p _, default false (l ← cell labels p; rd label_mask l))
    (λ i mask, for_ 0 nc (λ j mask,
       label ← mget labels i j; b ← rd label_mask label; mset mask i j b) mask)
    (λ i j mask,
       label ← mget labels i j; b ← rd label_mask label; mset mask i j b)
    (new_matrix nr nc false)) as (mask & Hf & Hs & Hcells); try done.
  - split; [done|]. split; [done|]. by apply wf_new_matrix.
  - intros i j Hi Hj M v (HMr & HMc & HMwf) Hv.
    assert (Hp : in_matrix labels (XY i j)) by (unfold in_matrix; cbn [xx yy]; lia).
    destruct (in_matrix_cell labels _ Hwf Hp) as [l Hl].
    destruct (Hflags _ l Hp Hl) as [t Ht].
    pose proof Hl as Hl'. unfold cell in Hl'. cbn [xx yy] in Hl'. rewrite Hl'.
    cbn [mbind option_bind]. rewrite Ht. cbn [mbind option_bind].
    assert (HpM : in_matrix M (XY i j)) by (unfold in_matrix; cbn [xx yy]; lia).
    destruct (mset_spec M i j t HMwf HpM) as (M' & -> & Hr' & Hc' & Hwf' & Hsame & Hother).
    exists M'. split; [done|]. split; [split; [lia|]; split; [lia | done]|].
    split; [|done]. rewrite Hl. cbn [mbind option_bind]. by rewrite Ht.
  - exists mask. split; [done|]. split; [done|]. intros p l Hp Hl.
    destruct (Hflags p l Hp Hl) as [t Ht]. exists t. split; [done|].
    assert (Hp' : in_matrix (new_matrix nr nc false) p)
      by (unfold in_matrix in *; cbn [nrow ncol new_matrix]; lia).
    destruct (Hcells p Hp') as (v & _ & ->). rewrite Hl. cbn [mbind option_bind].
    by rewrite Ht.
Qed.

Lemma clear_border_pixels_spec {R : Type} (nr nc : Z) (out : Matrix R)
    (mask : LogicalMatrix) (bgval : R) :
  shape nr nc out → shape nr nc mask → 0 ≤ nr → 0 ≤ nc →
  ∃ out', clear_border_pixels out mask bgval = Some out' ∧ shape nr nc out' ∧
    ∀ p, in_matrix out p →
      ∃ v t, cell out p = Some v ∧ cell mask p = Some t ∧
             cell out' p = Some (if t : bool then bgval else v).
Proof.
  intros Hso (Hmr & Hmc & Hmwf) Hnr Hnc. pose proof Hso as (Hr & Hc & Hwf).
  unfold clear_border_pixels. rewrite Hr.
  destruct (for_rows_update nr nc
    (λ p v, if default false (cell mask p) then bgval else v)
    (λ i out, for_ 0 (ncol out) (λ j out,
       b ← mget mask i j; if b : bool then mset out i j bgval else Some out) out)
    (λ i j out,
       b ← mget mask i j; if b : bool then mset out i j bgval else Some out)
    out) as (out' & Hf & Hs & Hcells); try done.
  - intros i M (_ & -> & _). done.
  - intros i j Hi Hj M v (HMr & HMc & HMwf) Hv.
    assert (Hp : in_matrix mask (XY i j)) by (unfold in_matrix; cbn [xx yy]; lia).
    destruct (in_matrix_cell mask _ Hmwf Hp) as [t Ht].
    pose proof Ht as Ht'. unfold cell in Ht'. cbn [xx yy] in Ht'. rewrite Ht'.
    cbn [mbind option_bind]. rewrite Ht. cbn [default].
    destruct t.
    + assert (HpM : in_matrix M (XY i j)) by (unfold in_matrix; cbn [xx yy]; lia).
      destruct (mset_spec M i j bgval HMwf HpM) as (M' & -> & Hr' & Hc' & Hwf' & Hsame & Hother).
      exists M'. split; [done|]. split; [split; [lia|]; split; [lia | done]|]. done.
    + exists M. done.
  - exists out'. split; [done|]. split; [done|]. intros p Hp.
    destruct (Hcells p Hp) as (v & Hv & Hv').
    assert (Hp' : in_matrix mask p) by (unfold in_matrix in *; lia).
    destruct (in_matrix_cell mask _ Hmwf Hp') as [t Ht].
    exists v, t. split; [done|]. split; [done|]. by rewrite Hv', Ht.
Qed.

(** ** [clear_border] *)

Section ClearBorderCorrect.
Context {R : Type} (is_zero : R → bool) (fuel : nat).
Context (x : Matrix R) (buffer_size : Z) (bgval : R).
Hypothesis Hwf : wf_matrix x.
Hypothesis Hfuel : (2 * length (data x) + 1 < fuel)%nat.
Hypothesis Her : buffer_size + 1 ≤ nrow x.
Hypothesis Hec : buffer_size + 1 ≤ ncol x.

(** The stages composed: [bi] is the border label set. *)
Lemma clear_border_stages :
  ∃ out L n (bi : list Z),
    clear_border is_zero fuel x buffer_size bgval = Some out ∧
    bwlabel is_zero fuel x = Some (L, n) ∧
    shape (nrow x) (ncol x) out ∧
    lab_inv is_zero (data x) (XY (nrow x) (ncol x)) (nrow x * ncol x) (data L) (n + 1) ∧
    nrow L = nrow x ∧ ncol L = ncol x ∧
    (∀ l, l ∈ bi ↔
       ∃ q, in_matrix x q ∧ frame x buffer_size q ∧ cell L q = Some l) ∧
    ∀ p, in_matrix x p →
      ∃ v l, cell x p = Some v ∧ cell L p = Some l ∧
        cell out p = Some (if bool_decide (l ∈ bi) then bgval else v).
Proof.
  pose proof Hwf as (Hnr & Hnc & Hlen).
  destruct (border_frame_marked (nrow x) (ncol x) (buffer_size + 1))
    as (b & Hb & Hmarked); try done.
  destruct (bwlabel_lab_inv is_zero x Hwf fuel Hfuel)
    as (L & n & Hbw & HnL & HcL & Hinv).
  assert (HsL : shape (nrow x) (ncol x) L).
  { split; [done|]. split; [done|]. destruct Hinv as (Hg & _).
    unfold wf_matrix, grid in *. cbn [xx yy] in Hg. rewrite HnL, HcL. done. }
  assert (Hn : 0 ≤ n) by (destruct Hinv as (_ & ? & _); lia).
  destruct (get_border_indices_spec _ _ L b _ HsL Hmarked) as (bi & Hbi & Hbi_spec).
  destruct (create_label_mask_spec n bi Hn) as (lm & Hlm & Hlm_spec).
  assert (Hrange : ∀ p l, in_matrix L p → cell L p = Some l → 0 ≤ l ≤ n).
  { intros p l Hp Hl. apply (final_range is_zero x Hwf L n HnL Hinv).
    by apply (cell_elem L p). }
  destruct (create_clear_mask_spec (nrow x) (ncol x) L lm HsL Hnr Hnc)
    as (mask & Hmask & Hsm & Hmask_spec).
  { intros p l Hp Hl. eexists. apply Hlm_spec. by apply (Hrange p). }
  destruct (clear_border_pixels_spec (nrow x) (ncol x) x mask bgval)
    as (out & Hout & Hso & Hout_spec); try done.
  exists out, L, n, bi. split.
  { unfold clear_border. cbv zeta. rewrite Hb. cbn [mbind option_bind].
    rewrite Hbw. cbn [mbind option_bind fst snd]. rewrite Hbi.
    cbn [mbind option_bind]. rewrite Hlm. cbn [mbind option_bind].
    rewrite Hmask. cbn [mbind option_bind]. done. }
  split; [done|]. split; [done|]. split; [done|]. split; [done|]. split; [done|].
  split.
  { intros l. rewrite Hbi_spec. split; intros (q & Hq & Hfq & Hlq); exists q;
      (split; [unfold in_matrix in *; lia | done]). }
  intros p Hp. destruct (Hout_spec p Hp) as (v & t & Hv & Ht & Hv').
  assert (HpL : in_matrix L p) by (unfold in_matrix in *; lia).
  destruct (in_matrix_cell L p (proj2 (proj2 HsL)) HpL) as [l Hl].
  exists v, l. split; [done|]. split; [done|].
  destruct (Hmask_spec p l HpL Hl) as (t' & Ht' & Hmt).
  assert (t' = t) as -> by congruence.
  rewrite (Hlm_spec l (Hrange p l HpL Hl)) in Ht'. injection Ht' as <-. done.
Qed.
(** A cell is repainted exactly when its label occurs under the frame. *)
Lemma clear_border_cells :
  ∃ out L n,
    clear_border is_zero fuel x buffer_size bgval = Some out ∧
    bwlabel is_zero fuel x = Some (L, n) ∧
    nrow out = nrow x ∧ ncol out = ncol x ∧
    lab_inv is_zero (data x) (XY (nrow x) (ncol x)) (nrow x * ncol x) (data L) (n + 1) ∧
    nrow L = nrow x ∧
    ∀ p, in_matrix x p →
      ∃ v l, cell x p = Some v ∧ cell L p = Some l ∧
        ((∃ q, in_matrix x q ∧ frame x buffer_size q ∧ cell L q = Some l) →
           cell out p = Some bgval) ∧
        ((∀ q, in_matrix x q → frame x buffer_size q → cell L q ≠ Some l) →
           cell out p = Some v).
Proof.
  destruct clear_border_stages
    as (out & L & n & bi & Hcb & Hbw & (Hr & Hc & _) & Hinv & HnL & _ & Hbi & Hcells).
  exists out, L, n. do 6 (split; [done|]).
  intros p Hp. destruct (Hcells p Hp) as (v & l & Hv & Hl & Ho).
  exists v, l. split; [done|]. split; [done|]. rewrite Ho. split.
  - intros Hex. rewrite bool_decide_eq_true_2; [done|]. by apply Hbi.
  - intros Hno. rewrite bool_decide_eq_false_2; [done|].
    intros (q & Hq & Hfq & Hlq)%Hbi. by apply (Hno q).
Qed.

(** Foreground cells: cleared iff the component reaches the frame. *)
Lemma clear_border_foreground :
  ∃ out, clear_border is_zero fuel x buffer_size bgval = Some out ∧
    ∀ p, foreground is_zero x p →
      ((∃ q, connected is_zero x p q ∧ frame x buffer_size q) → cell out p = Some bgval) ∧
      ((∀ q, connected is_zero x p q → ¬ frame x buffer_size q) → cell out p = cell x p).
Proof.
  destruct clear_border_cells
    as (out & L & n & Hcb & _ & _ & _ & Hinv & HnL & Hcells).
  exists out. split; [done|]. intros p Hp. pose proof Hp as [Hip _].
  destruct (Hcells p Hip) as (v & l & Hv & Hl & Hclr & Hkeep). split.
  - intros (q & Hc & Hfq). apply Hclr. exists q.
    pose proof (conn_end _ _ _ Hc) as Hq. pose proof Hq as [Hiq _].
    split; [done|]. split; [done|].
    destruct (final_label is_zero x L n HnL Hinv q Hiq) as (lq & Hlq & _).
    rewrite Hlq. f_equal.
    by apply (final_same is_zero x L n HnL Hinv p q l lq Hp Hq Hl Hlq).
  - intros Hno. rewrite Hv. apply Hkeep. intros q Hiq Hfq Hlq.
    destruct (final_label is_zero x L n HnL Hinv q Hiq) as (lq & Hlq' & Hcase).
    assert (lq = l) as -> by congruence.
    destruct (final_label is_zero x L n HnL Hinv p Hip) as (lp & Hlp & Hcasep).
    assert (lp = l) as -> by congruence.
    destruct Hcasep as [[Hnf _]|[_ Hrg]]; [done|].
    destruct Hcase as [[_ ->]|[Hq _]]; [lia|].
    apply (Hno q); [|done].
    by apply (final_same is_zero x L n HnL Hinv p q l l Hp Hq Hl Hlq).
Qed.

(** Background cells: repainted iff the frame holds a background cell. *)
Lemma clear_border_background :
  ∃ out, clear_border is_zero fuel x buffer_size bgval = Some out ∧
    ∀ p, background is_zero x p →
      ((∃ q, background is_zero x q ∧ frame x buffer_size q) → cell out p = Some bgval) ∧
      ((∀ q, background is_zero x q → ¬ frame x buffer_size q) → cell out p = cell x p).
Proof.
  destruct clear_border_cells
    as (out & L & n & Hcb & _ & _ & _ & Hinv & HnL & Hcells).
  exists out. split; [done|]. intros p Hp. pose proof Hp as [Hip _].
  assert (Hbg : ∀ q, in_matrix x q →
            (background is_zero x q ↔ cell L q = Some 0)).
  { intros q Hiq.
    destruct (final_label is_zero x L n HnL Hinv q Hiq) as (lq & Hlq & Hcase).
    destruct (in_matrix_cell x q Hwf Hiq) as [w Hw]. split.
    - intros Hq. destruct Hcase as [[_ ->]|[Hf _]]; [done|].
      by destruct (background_not_foreground is_zero x q).
    - intros Hl0. split; [done|]. exists w. split; [done|].
      destruct (is_zero w) eqn:Hz; [done|].
      destruct Hcase as [[Hnf _]|[_ Hrg]].
      + destruct Hnf. split; [done|]. eauto.
      + assert (lq = 0) by congruence. lia. }
  destruct (Hcells p Hip) as (v & l & Hv & Hl & Hclr & Hkeep).
  assert (l = 0) as ->.
  { apply (Hbg p Hip) in Hp. congruence. }
  split.
  - intros (q & Hq & Hfq). apply Hclr. exists q. pose proof Hq as [Hiq _].
    split; [done|]. split; [done|]. by apply Hbg.
  - intros Hno. rewrite Hv. apply Hkeep. intros q Hiq Hfq Hlq.
    apply (Hno q); [|done]. by apply Hbg.
Qed.
End ClearBorderCorrect.

(** C2.  When a component of nonzero pixels has no pixel inside the border
    frame (the outer [buffer_size + 1] rows and columns) and another has at
    least one, [clear_border] returns a grid in which every pixel of the
    interior component keeps its value and every pixel of the frame-touching
    component equals [bgval]; in particular when these are the only two
    components of the grid. *)
Theorem clear_border_two_components {R : Type} (is_zero : R → bool) (fuel : nat)
    (x : Matrix R) (buffer_size : Z) (bgval : R) (p q : XYPoint) :
  wf_matrix x → (2 * length (data x) + 1 < fuel)%nat →
  foreground is_zero x p →
  (∀ r, connected is_zero x p r → ¬ frame x buffer_size r) →
  foreground is_zero x q →
  (∃ r, connected is_zero x q r ∧ frame x buffer_size r) →
  ∃ out, clear_border is_zero fuel x buffer_size bgval = Some out ∧
    (∀ r, connected is_zero x p r → cell out r = cell x r) ∧
    (∀ r, connected is_zero x q r → cell out r = Some bgval).
Proof.
  intros Hwf Hfuel Hp Hint Hq (r0 & Hqr0 & Hfr0).
  assert (Hfit : buffer_size + 1 ≤ nrow x ∧ buffer_size + 1 ≤ ncol x).
  { pose proof (Hint p (conn_refl _ _ Hp)) as Hnf. destruct Hp as [[Hx Hy] _].
    unfold frame, in_frame in Hnf. lia. }
  destruct Hfit as [Her Hec].
  destruct (clear_border_foreground is_zero fuel x buffer_size bgval Hwf Hfuel Her Hec)
    as (out & Hcb & Hcells).
  exists out. split; [done|]. split.
  - intros r Hpr. apply (Hcells r (conn_end _ _ _ Hpr)).
    intros s Hrs. apply Hint. by apply conn_trans with r.
  - intros r Hqr. apply (Hcells r (conn_end _ _ _ Hqr)).
    exists r0. split; [|done]. apply conn_trans with q; [by apply conn_sym | done].
Qed.

Lemma two_component_center (r : XYPoint) :
  connected (Z.eqb 0) two_component_raster (XY 1 1) r → r = XY 1 1.
Proof.
  induction 1 as [|s r Hc IH Hadj Hr]; [done|]. subst s.
  destruct r as [rx ry]. destruct Hr as (_ & v & Hv & Hz).
  unfold adj4 in Hadj. cbn [xx yy] in *.
  assert (Hcases : (rx = 1 ∧ ry = 0) ∨ (rx = 1 ∧ ry = 2) ∨
                   (rx = 0 ∧ ry = 1) ∨ (rx = 2 ∧ ry = 1)) by lia.
  destruct Hcases as [[-> ->]|[[-> ->]|[[-> ->]|[-> ->]]]];
    vm_compute in Hv; injection Hv as <-; discriminate.
Qed.

Lemma clear_border_two_components_witness :
  ∃ out, clear_border (Z.eqb 0) 20 two_component_raster 0 9 = Some out ∧
    (∀ r, connected (Z.eqb 0) two_component_raster (XY 1 1) r →
       cell out r = cell two_component_raster r) ∧
    (∀ r, connected (Z.eqb 0) two_component_raster (XY 0 0) r →
       cell out r = Some 9).
Proof.
  apply (clear_border_two_components (Z.eqb 0) 20 two_component_raster 0 9
           (XY 1 1) (XY 0 0)).
  - unfold wf_matrix. simpl. lia.
  - simpl. lia.
  - split; [unfold in_matrix; simpl; lia|]. exists 1. split; reflexivity.
  - intros r ->%two_component_center. unfold frame, in_frame. simpl. lia.
  - split; [unfold in_matrix; simpl; lia|]. exists 1. split; reflexivity.
  - exists (XY 0 0). split.
    + apply conn_refl. split; [unfold in_matrix; simpl; lia|].
      exists 1. split; reflexivity.
    + unfold frame, in_frame. simpl. lia.
Defined.

(** C6 (amended).  When the border frame fits the raster, [clear_border]
    sets every background pixel to [bgval] if some pixel of the border frame
    is background (label 0 is then in the border label set and the label
    mask has an entry for it), and leaves every background pixel unchanged if
    no pixel of the border frame is background. *)
Theorem clear_border_background_cells {R : Type} (is_zero : R → bool) (fuel : nat)
    (x : Matrix R) (buffer_size : Z) (bgval : R) :
  wf_matrix x → (2 * length (data x) + 1 < fuel)%nat →
  buffer_size + 1 ≤ nrow x → buffer_size + 1 ≤ ncol x →
  ∃ out, clear_border is_zero fuel x buffer_size bgval = Some out ∧
    ∀ p, background is_zero x p →
      ((∃ q, background is_zero x q ∧ frame x buffer_size q) →
         cell out p = Some bgval) ∧
      ((∀ q, background is_zero x q → ¬ frame x buffer_size q) →
         cell out p = cell x p).
Proof. apply clear_border_background. Qed.

Lemma clear_border_background_cells_witness :
  ∃ out, clear_border (Z.eqb 0) 20 two_component_raster 0 9 = Some out ∧
    ∀ p, background (Z.eqb 0) two_component_raster p →
      ((∃ q, background (Z.eqb 0) two_component_raster q ∧
             frame two_component_raster 0 q) →
         cell out p = Some 9) ∧
      ((∀ q, background (Z.eqb 0) two_component_raster q →
             ¬ frame two_component_raster 0 q) →
         cell out p = cell two_component_raster p).
Proof.
  apply (clear_border_background_cells (Z.eqb 0) 20 two_component_raster 0 9).
  - unfold wf_matrix. simpl. lia.
  - simpl. lia.
  - simpl. lia.
  - simpl. lia.
Defined.

(** C6 as stated fails: on the 1-by-1 raster [0] with [bgval = 7] the only
    pixel is background, lies in the frame, and comes back as 7. *)
Lemma clear_border_repaints_background :
  ∃ out p, clear_border (Z.eqb 0) 4 (mkMatrix 1 1 [0]) 0 7 = Some out ∧
    background (Z.eqb 0) (mkMatrix 1 1 [0]) p ∧
    cell out p ≠ cell (mkMatrix 1 1 [0]) p.
Proof.
  exists (mkMatrix 1 1 [7]), (XY 0 0). split; [by vm_compute|]. split.
  - split; [unfold in_matrix; simpl; lia|]. exists 0. split; reflexivity.
  - vm_compute. discriminate.
Qed.

(** ** Ownership of the caller's buffers *)

(** [clear_border] works on its clone: the caller's raster and every other
    object of the store are as they were, and the result is a new object. *)
Lemma clear_border_call_preserves {R : Type} (is_zero : R → bool) (fuel : nat)
    (σ σ' : gmap nat (Matrix R)) (labels out : nat) (buffer_size : Z) (bgval : R) :
  clear_border_call is_zero fuel σ labels buffer_size bgval = Some (σ', out) →
  (out ∉ dom σ) ∧ (∀ l, l ∈ dom σ → σ' !! l = σ !! l).
Proof.
  unfold clear_border_call, clone. intros Hcall.
  destruct (σ !! labels) as [M|] eqn:HM; [|done]. cbn [mbind option_bind] in Hcall.
  rewrite lookup_insert_eq in Hcall. cbn [mbind option_bind] in Hcall.
  destruct (clear_border is_zero fuel M buffer_size bgval) as [M'|]; [|done].
  cbn [mbind option_bind] in Hcall. injection Hcall as <- <-.
  pose proof (is_fresh (dom σ)) as Hfresh. split; [done|].
  intros l Hl. rewrite insert_insert_eq. apply lookup_insert_ne.
  intros <-. done.
Qed.

(** C8 (defect).  [process_lung_regions] has no clone: called on the
    caller's label grid (object 0 of the store) with three candidate
    regions, it resets the pixel of the dropped region 2 inside the caller's
    own object, and the returned [processed_image] is that same object. *)
Theorem process_lung_regions_mutates_caller :
  ∃ σ', process_lung_regions_call {[ 0%nat := three_region_labels ]} 0%nat
          three_region_bboxes = Return (σ', (0%nat, [3; 1])) [] ∧
    (σ' !! 0%nat) = Some (mkMatrix 2 3 [1; 1;  0; 3;  3; 3]) ∧
    (σ' !! 0%nat) ≠ Some three_region_labels.
Proof.
  eexists. split; [vm_compute; reflexivity|]. split; [reflexivity|].
  vm_compute. discriminate.
Qed.

(** ** [regionprops_bbox] *)

Lemma for_cells_scan {St : Type} (nr nc : Z) (Inv : (XYPoint → bool) → St → Prop)
    (row : Z → St → option St) (cellbody : Z → Z → St → option St) (s0 : St) :
  0 ≤ nr → 0 ≤ nc →
  (∀ D D' s, (∀ p, 0 ≤ xx p < nr → 0 ≤ yy p < nc → D p = D' p) →
     Inv D s → Inv D' s) →
  (∀ i s, row i s = for_ 0 nc (cellbody i) s) →
  (∀ i j s D, 0 ≤ i < nr → 0 ≤ j < nc → Inv D s → D (XY i j) = false →
     ∃ s', cellbody i j s = Some s' ∧
           Inv (λ p, D p || bool_decide (p = XY i j)) s') →
  Inv (λ _, false) s0 →
  ∃ s', for_ 0 nr row s0 = Some s' ∧ Inv (λ _, true) s'.
Proof. apply (cells_scan (@Some) (@for_) (@for_rule)). Qed.

Section Bbox.
Context (li : IntegerMatrix).
Hypothesis Hwf : wf_matrix li.

(** [(a, b, c, d)] bounds the pixels of [L] seen so far, tightly. *)
Definition bbox_inv (L : Z) (D : XYPoint → bool) (st : Z * Z * Z * Z) : Prop :=
  let '(a, b, c, d) := st in
  (∀ p, in_matrix li p → D p = true → cell li p = Some L →
     a ≤ xx p ≤ b ∧ c ≤ yy p ≤ d) ∧
  ((b = -1 ∧ a = nrow li ∧ c = ncol li ∧ d = -1) ∨
   (attained li L xx a ∧ attained li L xx b ∧ attained li L yy c ∧ attained li L yy d)).

Lemma bbox_scan (L : Z) :
  ∃ st, for_ 0 (nrow li) (λ i ext,
          for_ 0 (ncol li) (λ j '(x_min, x_max, y_min, y_max),
            l ← mget li i j;
            if l =? L then
              Some (if i <? x_min then i else x_min,
                    if x_max <? i then i else x_max,
                    if j <? y_min then j else y_min,
                    if y_max <? j then j else y_max)
            else Some (x_min, x_max, y_min, y_max)) ext)
          (nrow li, -1, ncol li, -1) = Some st ∧
        bbox_inv L (λ _, true) st.
Proof.
  destruct Hwf as (Hnr & Hnc & _).
  apply (for_cells_scan (nrow li) (ncol li) (bbox_inv L) _
    (λ i j '(x_min, x_max, y_min, y_max),
       l ← mget li i j;
       if l =? L then
         Some (if i <? x_min then i else x_min,
               if x_max <? i then i else x_max,
               if j <? y_min then j else y_min,
               if y_max <? j then j else y_max)
       else Some (x_min, x_max, y_min, y_max))); try done.
  - intros D D' [[[a b] c] d] He [Hb Hcase]. split; [|done].
    intros p Hp HD. apply Hb; [done|]. destruct Hp. by rewrite He.
  - intros i j [[[a b] c] d] D Hi Hj [Hb Hcase] HD.
    assert (Hp : in_matrix li (XY i j)) by (unfold in_matrix; cbn [xx yy]; lia).
    destruct (in_matrix_cell li _ Hwf Hp) as [l Hl].
    pose proof Hl as Hl'. unfold cell in Hl'. cbn [xx yy] in Hl'. rewrite Hl'.
    cbn [mbind option_bind].
    destruct (Z.eqb_spec l L) as [->|Hne].
    + eexists. split; [done|]. split.
      * intros p Hip [HDp|Hpe%bool_decide_eq_true]%orb_true_iff Hlp.
        -- destruct (Hb p Hip HDp Hlp). repeat case_match; lia.
        -- subst p. cbn [xx yy]. repeat case_match; lia.
      * right.
        assert (Hnew : ∀ (f : XYPoint → Z), attained li L f (f (XY i j)))
          by (intros f; by exists (XY i j)).
        destruct Hcase as [(-> & -> & -> & ->)|(Ha & Hb' & Hc & Hd)].
        -- replace (i <? nrow li) with true by (symmetry; lia).
           replace (-1 <? i) with true by (symmetry; lia).
           replace (j <? ncol li) with true by (symmetry; lia).
           replace (-1 <? j) with true by (symmetry; lia).
           split; [exact (Hnew xx)|]. split; [exact (Hnew xx)|].
           split; [exact (Hnew yy) | exact (Hnew yy)].
        -- split; [|split; [|split]]; case_match; try done;
             first [exact (Hnew xx) | exact (Hnew yy)].
    + eexists. split; [done|]. split; [|done].
      intros p Hip [HDp|Hpe%bool_decide_eq_true]%orb_true_iff Hlp.
      * by apply Hb.
      * subst p. congruence.
  - split; [done|]. by left.
Qed.

(** What row [L - 1] of the result must say about label [L]. *)
Definition bbox_of (L a b c d : Z) : Prop :=
  ((∃ p, in_matrix li p ∧ cell li p = Some L) →
     (∀ p, in_matrix li p → cell li p = Some L → a ≤ xx p ≤ b ∧ c ≤ yy p ≤ d) ∧
     attained li L xx a ∧ attained li L xx b ∧ attained li L yy c ∧ attained li L yy d) ∧
  ((∀ p, in_matrix li p → cell li p ≠ Some L) →
     a = NA_INTEGER ∧ b = NA_INTEGER ∧ c = NA_INTEGER ∧ d = NA_INTEGER).

Definition row_ok (B : IntegerMatrix) (L : Z) : Prop :=
  ∃ a b c d,
    cell B (XY (L - 1) 0) = Some a ∧ cell B (XY (L - 1) 1) = Some b ∧
    cell B (XY (L - 1) 2) = Some c ∧ cell B (XY (L - 1) 3) = Some d ∧
    bbox_of L a b c d.

Lemma mset_row (n : Z) (B : IntegerMatrix) (r a b c d : Z) :
  shape n 4 B → 0 ≤ r < n →
  ∃ B', (B1 ← mset B r 0 a; B2 ← mset B1 r 1 b; B3 ← mset B2 r 2 c;
         mset B3 r 3 d) = Some B' ∧
    shape n 4 B' ∧
    cell B' (XY r 0) = Some a ∧ cell B' (XY r 1) = Some b ∧
    cell B' (XY r 2) = Some c ∧ cell B' (XY r 3) = Some d ∧
    ∀ p, in_matrix B p → xx p ≠ r → cell B' p = cell B p.
Proof.
  intros (Hr & Hc & HwfB) Hrn.
  assert (Hin : ∀ (M : IntegerMatrix) k, nrow M = n → ncol M = 4 → 0 ≤ k < 4 →
            in_matrix M (XY r k)).
  { intros M k HMr HMc Hk. unfold in_matrix. cbn [xx yy]. lia. }
  destruct (mset_spec B r 0 a HwfB) as (B1 & -> & Hr1 & Hc1 & Hwf1 & Hs1 & Ho1);
    [apply Hin; done || lia|].
  cbn [mbind option_bind].
  destruct (mset_spec B1 r 1 b Hwf1) as (B2 & -> & Hr2 & Hc2 & Hwf2 & Hs2 & Ho2);
    [apply Hin; lia|].
  cbn [mbind option_bind].
  destruct (mset_spec B2 r 2 c Hwf2) as (B3 & -> & Hr3 & Hc3 & Hwf3 & Hs3 & Ho3);
    [apply Hin; lia|].
  cbn [mbind option_bind].
  destruct (mset_spec B3 r 3 d Hwf3) as (B4 & -> & Hr4 & Hc4 & Hwf4 & Hs4 & Ho4);
    [apply Hin; lia|].
  exists B4. split; [done|]. split; [split; [lia|]; split; [lia | done]|].
  split.
  { rewrite Ho4, Ho3, Ho2; [done | apply Hin; lia | done | apply Hin; lia | done
                            | apply Hin; lia | done]. }
  split.
  { rewrite Ho4, Ho3; [done | apply Hin; lia | done | apply Hin; lia | done]. }
  split.
  { rewrite Ho4; [done | apply Hin; lia | done]. }
  split; [done|].
  intros p Hp Hne.
  assert (Hpk : ∀ k, p ≠ XY r k) by (intros k ->; by cbn in Hne).
  rewrite Ho4, Ho3, Ho2, Ho1; try done; unfold in_matrix in *; lia.
Qed.

Lemma regionprops_bbox_rows (n : Z) :
  0 ≤ n →
  ∃ B, regionprops_bbox li n = Some B ∧ shape n 4 B ∧
       ∀ L, 1 ≤ L ≤ n → row_ok B L.
Proof.
  intros Hn. unfold regionprops_bbox.
  match goal with |- context [for_ 1 (n + 1) ?body _] =>
    destruct (for_rule (λ k B, shape n 4 B ∧ ∀ L, 1 ≤ L < k → row_ok B L)
                body 1 (n + 1) (new_matrix n 4 0)) as (B & Hf & Hs & Hrows)
  end.
  - lia.
  - split; [|intros; lia]. split; [done|]. split; [done|].
    apply wf_new_matrix; lia.
  - intros k B Hk [Hs Hrows]. cbv beta.
    destruct (bbox_scan k) as ([[[a b] c] d] & -> & Hb & Hcase).
    cbn [mbind option_bind].
    assert (Hkeep : ∀ B', shape n 4 B' →
              (∀ p, in_matrix B p → xx p ≠ k - 1 → cell B' p = cell B p) →
              ∀ L, 1 ≤ L < k → row_ok B' L).
    { intros B' Hs' Ho L HL. destruct (Hrows L HL) as (a' & b' & c' & d' & H0 & H1 & H2 & H3 & Hbb).
      exists a', b', c', d'. destruct Hs as (HBr & HBc & _).
      rewrite !Ho; try done; unfold in_matrix; cbn [xx yy]; lia. }
    destruct (Z.eqb_spec b (-1)) as [Hb1|Hb1]; cbn [negb].
    + destruct (mset_row n B (k - 1) NA_INTEGER NA_INTEGER NA_INTEGER NA_INTEGER Hs)
        as (B' & -> & Hs' & H0 & H1 & H2 & H3 & Ho); [lia|].
      exists B'. split; [done|]. split; [done|]. intros L HL.
      destruct (decide (L = k)) as [->|Hne]; [|apply (Hkeep B'); [done | done | lia]].
      replace (k + 1 - 1) with k in * by lia.
      exists NA_INTEGER, NA_INTEGER, NA_INTEGER, NA_INTEGER.
      repeat (split; [done|]). split; [|done].
      intros (p & Hp & Hl). destruct (Hb p Hp eq_refl Hl) as [Hx _].
      destruct Hcase as [(_ & -> & _)|((q & Hq & Hlq & Hqb) & _)].
      * destruct Hp. lia.
      * destruct Hq. lia.
    + destruct (mset_row n B (k - 1) a b c d Hs)
        as (B' & -> & Hs' & H0 & H1 & H2 & H3 & Ho); [lia|].
      exists B'. split; [done|]. split; [done|]. intros L HL.
      destruct (decide (L = k)) as [->|Hne]; [|apply (Hkeep B'); [done | done | lia]].
      exists a, b, c, d. repeat (split; [done|]).
      destruct Hcase as [(? & _)|Hatt]; [done|]. split.
      * intros _. split; [|done]. intros p Hp Hl. by apply Hb.
      * intros Hnone. destruct Hatt as ((q & Hq & Hlq & _) & _).
        by destruct (Hnone q Hq).
  - exists B. split; [done|]. split; [done|]. intros L HL. apply Hrows. lia.
Qed.
End Bbox.

(** C5.  For every label grid and every label [L] in [1 .. num_labels]:
    if [L] is carried by some pixel, row [L - 1] of the result is a box
    [(row_min, row_max, col_min, col_max)] that contains every pixel of [L]
    (inclusive bounds) and each of whose four bounds is attained by a pixel
    of [L]; if no pixel carries [L], all four fields are [NA_INTEGER]. *)
Theorem regionprops_bbox_minimal (labeled_image : IntegerMatrix) (num_labels : Z) :
  wf_matrix labeled_image → 0 ≤ num_labels →
  ∃ bboxes, regionprops_bbox labeled_image num_labels = Some bboxes ∧
    nrow bboxes = num_labels ∧ ncol bboxes = 4 ∧
    ∀ L, 1 ≤ L ≤ num_labels →
      ∃ row_min row_max col_min col_max,
        cell bboxes (XY (L - 1) 0) = Some row_min ∧
        cell bboxes (XY (L - 1) 1) = Some row_max ∧
        cell bboxes (XY (L - 1) 2) = Some col_min ∧
        cell bboxes (XY (L - 1) 3) = Some col_max ∧
        ((∃ p, in_matrix labeled_image p ∧ cell labeled_image p = Some L) →
           (∀ p, in_matrix labeled_image p → cell labeled_image p = Some L →
              row_min ≤ xx p ≤ row_max ∧ col_min ≤ yy p ≤ col_max) ∧
           attained labeled_image L xx row_min ∧
           attained labeled_image L xx row_max ∧
           attained labeled_image L yy col_min ∧
           attained labeled_image L yy col_max) ∧
        ((∀ p, in_matrix labeled_image p → cell labeled_image p ≠ Some L) →
           row_min = NA_INTEGER ∧ row_max = NA_INTEGER ∧
           col_min = NA_INTEGER ∧ col_max = NA_INTEGER).
Proof.
  intros Hwf Hn.
  destruct (regionprops_bbox_rows labeled_image Hwf num_labels Hn)
    as (B & HB & (Hr & Hc & _) & Hrows).
  exists B. split; [done|]. split; [done|]. split; [done|].
  intros L HL. destruct (Hrows L HL) as (a & b & c & d & H0 & H1 & H2 & H3 & Hbb).
  exists a, b, c, d. repeat (split; [done|]). exact Hbb.
Qed.

Lemma regionprops_bbox_minimal_witness :
  ∃ bboxes, regionprops_bbox three_region_labels 4 = Some bboxes ∧
    nrow bboxes = 4 ∧ ncol bboxes = 4 ∧
    ∀ L, 1 ≤ L ≤ 4 →
      ∃ row_min row_max col_min col_max,
        cell bboxes (XY (L - 1) 0) = Some row_min ∧
        cell bboxes (XY (L - 1) 1) = Some row_max ∧
        cell bboxes (XY (L - 1) 2) = Some col_min ∧
        cell bboxes (XY (L - 1) 3) = Some col_max ∧
        ((∃ p, in_matrix three_region_labels p ∧ cell three_region_labels p = Some L) →
           (∀ p, in_matrix three_region_labels p → cell three_region_labels p = Some L →
              row_min ≤ xx p ≤ row_max ∧ col_min ≤ yy p ≤ col_max) ∧
           attained three_region_labels L xx row_min ∧
           attained three_region_labels L xx row_max ∧
           attained three_region_labels L yy col_min ∧
           attained three_region_labels L yy col_max) ∧
        ((∀ p, in_matrix three_region_labels p → cell three_region_labels p ≠ Some L) →
           row_min = NA_INTEGER ∧ row_max = NA_INTEGER ∧
           col_min = NA_INTEGER ∧ col_max = NA_INTEGER).
Proof.
  apply (regionprops_bbox_minimal three_region_labels 4).
  - unfold wf_matrix. simpl. lia.
  - lia.
Defined.

(** ** The [result] monad and its loops *)

Lemma result_bind_ret {A B : Type} (a : A) (f : A → result B) :
  (Return a [] ≫= f) = f a.
Proof. unfold mbind, result_bind. by destruct (f a). Qed.

Lemma forR_up_rule {St : Type} (I : Z → St → Prop) (body : Z → St → result St)
    (n : nat) (lo : Z) (s : St) :
  I lo s →
  (∀ i s, lo ≤ i < lo + Z.of_nat n → I i s →
     ∃ s', body i s = Return s' [] ∧ I (i + 1) s') →
  ∃ s', forR_up n lo body s = Return s' [] ∧ I (lo + Z.of_nat n) s'.
Proof.
  revert lo s. induction n as [|n IH]; intros lo s Hs Hstep.
  - exists s. split; [done|]. by replace (lo + Z.of_nat 0) with lo by lia.
  - destruct (Hstep lo s) as (s1 & Hb & H1); [lia | done |].
    cbn [forR_up]. rewrite Hb, result_bind_ret.
    destruct (IH (lo + 1) s1) as (s2 & Hf & H2); [done | |].
    + intros i t Hi. apply Hstep. lia.
    + exists s2. split; [done|].
      by replace (lo + Z.of_nat (S n)) with (lo + 1 + Z.of_nat n) by lia.
Qed.

Lemma forR_rule {St : Type} (I : Z → St → Prop) (body : Z → St → result St)
    (lo hi : Z) (s : St) :
  lo ≤ hi → I lo s →
  (∀ i s, lo ≤ i < hi → I i s → ∃ s', body i s = Return s' [] ∧ I (i + 1) s') →
  ∃ s', forR lo hi body s = Return s' [] ∧ I hi s'.
Proof.
  intros Hle Hs Hstep. unfold forR.
  destruct (forR_up_rule I body (Z.to_nat (hi - lo)) lo s) as (s' & Hf & Hs');
    [done | |].
  - intros i t Hi. apply Hstep. lia.
  - exists s'. split; [done|].
    by replace (lo + Z.of_nat (Z.to_nat (hi - lo))) with hi in Hs' by lia.
Qed.

Lemma foreachR_rule {A St : Type} (I : list A → St → Prop)
    (body : A → St → result St) (v : list A) (s : St) :
  I [] s →
  (∀ done x rest s, v = done ++ x :: rest → I done s →
     ∃ s', body x s = Return s' [] ∧ I (done ++ [x]) s') →
  ∃ s', foreachR v body s = Return s' [] ∧ I v s'.
Proof.
  intros H0 Hstep.
  assert (Hgen : ∀ rest done s, v = done ++ rest → I done s →
            ∃ s', foreachR rest body s = Return s' [] ∧ I v s').
  { induction rest as [|x rest IH]; intros done t Hv Ht.
    - exists t. split; [done|]. by rewrite Hv, app_nil_r.
    - destruct (Hstep done x rest t Hv Ht) as (t' & Hb & Ht').
      cbn [foreachR]. rewrite Hb, result_bind_ret.
      apply (IH (done ++ [x])); [|done]. by rewrite <- app_assoc. }
  by apply (Hgen v []).
Qed.

Lemma forR_rows_update {A : Type} (nr nc : Z) (tgt : XYPoint → A → A)
    (row : Z → Matrix A → result (Matrix A))
    (cellbody : Z → Z → Matrix A → result (Matrix A)) (M0 : Matrix A) :
  shape nr nc M0 → 0 ≤ nr → 0 ≤ nc →
  (∀ i M, shape nr nc M → row i M = forR 0 nc (cellbody i) M) →
  (∀ i j, 0 ≤ i < nr → 0 ≤ j < nc →
     updates_cell (λ St s, Return s []) nr nc tgt (cellbody i j) i j) →
  ∃ M', forR 0 nr row M0 = Return M' [] ∧ shape nr nc M' ∧
    ∀ p, in_matrix M0 p → ∃ v, cell M0 p = Some v ∧ cell M' p = Some (tgt p v).
Proof. apply (rows_update (λ St s, Return s []) (@forR) (@forR_rule)). Qed.

Lemma forR_cells_scan {St : Type} (nr nc : Z) (Inv : (XYPoint → bool) → St → Prop)
    (row : Z → St → result St) (cellbody : Z → Z → St → result St) (s0 : St) :
  0 ≤ nr → 0 ≤ nc →
  (∀ D D' s, (∀ p, 0 ≤ xx p < nr → 0 ≤ yy p < nc → D p = D' p) →
     Inv D s → Inv D' s) →
  (∀ i s, row i s = forR 0 nc (cellbody i) s) →
  (∀ i j s D, 0 ≤ i < nr → 0 ≤ j < nc → Inv D s → D (XY i j) = false →
     ∃ s', cellbody i j s = Return s' [] ∧
           Inv (λ p, D p || bool_decide (p = XY i j)) s') →
  Inv (λ _, false) s0 →
  ∃ s', forR 0 nr row s0 = Return s' [] ∧ Inv (λ _, true) s'.
Proof. apply (cells_scan (λ St s, Return s []) (@forR) (@forR_rule)). Qed.

(** ** Counting pixels *)

(** The number of [k < n] with [f k]. *)
Fixpoint count_upto (f : nat → bool) (n : nat) : nat :=
  match n with
  | O => O
  | S m => (count_upto f m + if f m then 1 else 0)%nat
  end.

Lemma count_upto_ext (f g : nat → bool) (n : nat) :
  (∀ k, (k < n)%nat → f k = g k) → count_upto f n = count_upto g n.
Proof.
  induction n as [|n IH]; intros He; [done|]. cbn [count_upto].
  rewrite IH, (He n); [done | lia | intros k Hk; apply He; lia].
Qed.

Lemma count_upto_flip (f g : nat → bool) (n k0 : nat) :
  (k0 < n)%nat → f k0 = false → g k0 = true →
  (∀ k, (k < n)%nat → k ≠ k0 → g k = f k) →
  count_upto g n = S (count_upto f n).
Proof.
  induction n as [|n IH]; intros Hk Hf Hg He; [lia|]. cbn [count_upto].
  destruct (decide (k0 = n)) as [->|Hne].
  - rewrite Hf, Hg. rewrite (count_upto_ext g f n); [lia|].
    intros k Hk'. apply He; lia.
  - rewrite IH; [|lia | done | done | intros k Hk' ?; apply He; lia].
    rewrite (He n); [lia | lia | done].
Qed.

Lemma count_upto_filter (l : list Z) (v : Z) :
  count_upto (λ k, bool_decide (l !! k = Some v)) (length l)
  = length (filter (λ w, w = v) l).
Proof.
  induction l as [|x l IH] using rev_ind; [done|].
  rewrite length_app, filter_app, length_app. cbn [length].
  replace (length l + 1)%nat with (S (length l)) by lia. cbn [count_upto].
  rewrite (count_upto_ext _ (λ k, bool_decide (l !! k = Some v))).
  - rewrite IH. f_equal. rewrite lookup_app_r, Nat.sub_diag by lia. cbn.
    destruct (decide (x = v)) as [->|Hne].
    + by rewrite bool_decide_eq_true_2.
    + rewrite bool_decide_eq_false_2; [done | congruence].
  - intros k Hk. by rewrite lookup_app_l.
Qed.

(** ** [process_lung_regions]: the area tally (lines 68-78) *)

Section Tally.
Context (li : IntegerMatrix) (n : Z).
Hypothesis Hwf : wf_matrix li.
Hypothesis Hvalid : ∀ v, v ∈ data li → v ≤ n.

Definition cell_at (k : nat) : XYPoint :=
  XY (Z.of_nat k `mod` nrow li) (Z.of_nat k `div` nrow li).

Lemma cell_at_offset (i j : Z) :
  0 ≤ i < nrow li → 0 ≤ j → cell_at (Z.to_nat (offset li i j)) = XY i j.
Proof.
  intros Hi Hj. unfold cell_at, offset.
  assert (0 ≤ nrow li * j) by nia. rewrite Z2Nat.id by lia.
  rewrite (Z.mul_comm (nrow li) j). f_equal.
  - rewrite Z_mod_plus_full. apply Z.mod_small. lia.
  - rewrite Z_div_plus_full by lia. rewrite Z.div_small; lia.
Qed.

Lemma cell_at_inj (k : nat) (i j : Z) :
  0 < nrow li → cell_at k = XY i j → k = Z.to_nat (offset li i j).
Proof.
  intros Hnr [= Hi Hj]. unfold offset.
  pose proof (Z.div_mod (Z.of_nat k) (nrow li)). subst i j. lia.
Qed.

Definition tallied (D : XYPoint → bool) (ra : list Z) : Prop :=
  length ra = Z.to_nat n ∧
  ∀ l, 1 ≤ l ≤ n →
    rd ra (l - 1) =
      Some (Z.of_nat (count_upto
              (λ k, D (cell_at k) && bool_decide (data li !! k = Some l))
              (length (data li)))).

Lemma tally_spec :
  ∃ ra, forR 0 (nrow li) (λ i region_areas,
          forR 0 (ncol li) (λ j region_areas,
            label ← lift (mget li i j);
            if 0 <? label then
              if n <? label then
                Stop "process_lung_regions: Detected a label greater than available regions."
              else
                a ← lift (rd region_areas (label - 1));
                lift (wr region_areas (label - 1) (a + 1))
            else Return region_areas []) region_areas)
          (replicate (Z.to_nat n) 0) = Return ra [] ∧
        length ra = Z.to_nat n ∧
        ∀ l, 1 ≤ l ≤ n → rd ra (l - 1) = Some (area li l).
Proof.
  pose proof Hwf as (Hnr & Hnc & Hlen).
  destruct (forR_cells_scan (nrow li) (ncol li) tallied
    (λ i region_areas,
       forR 0 (ncol li) (λ j region_areas,
         label ← lift (mget li i j);
         if 0 <? label then
           if n <? label then
             Stop "process_lung_regions: Detected a label greater than available regions."
           else
             a ← lift (rd region_areas (label - 1));
             lift (wr region_areas (label - 1) (a + 1))
         else Return region_areas []) region_areas)
    (λ i j region_areas,
       label ← lift (mget li i j);
       if 0 <? label then
         if n <? label then
           Stop "process_lung_regions: Detected a label greater than available regions."
         else
           a ← lift (rd region_areas (label - 1));
           lift (wr region_areas (label - 1) (a + 1))
       else Return region_areas [])
    (replicate (Z.to_nat n) 0)) as (ra & Hloop & Hra);
    [done | done | | | | | ].
  - intros D D' ra He [Hl Hcnt]. split; [done|]. intros l Hlr.
    rewrite (Hcnt l Hlr). do 2 f_equal. apply count_upto_ext. intros k Hk.
    f_equal. destruct (flat_inb (XY (nrow li) (ncol li)) (Z.of_nat k)) as [[Hx Hy] _];
      [done | cbn [xx yy]; lia|].
    by apply He.
  - intros i s. reflexivity.
  - intros i j ra D Hi Hj [Hl Hcnt] HD. cbv beta.
    assert (Hp : in_matrix li (XY i j)) by (unfold in_matrix; cbn [xx yy]; lia).
    destruct (in_matrix_cell li _ Hwf Hp) as [l0 Hl0].
    unfold cell in Hl0. cbn [xx yy] in Hl0. rewrite Hl0. cbn [lift].
    rewrite result_bind_ret.
    pose proof Hl0 as Hk0. unfold mget in Hk0. apply rd_Some in Hk0 as [Hoff Hk0].
    set (k0 := Z.to_nat (offset li i j)) in *.
    assert (Hk0lt : (k0 < length (data li))%nat) by by apply lookup_lt_Some in Hk0.
    assert (Hpt : cell_at k0 = XY i j) by (apply cell_at_offset; lia).
    assert (Hother : ∀ k, k ≠ k0 → bool_decide (cell_at k = XY i j) = false).
    { intros k Hne. apply bool_decide_eq_false_2. intros He. apply Hne.
      apply cell_at_inj; [lia | done]. }
    assert (Hsame : ∀ l, l ≠ l0 →
      count_upto (λ k, (D (cell_at k) || bool_decide (cell_at k = XY i j))
                       && bool_decide (data li !! k = Some l)) (length (data li))
      = count_upto (λ k, D (cell_at k) && bool_decide (data li !! k = Some l))
          (length (data li))).
    { intros l Hne. apply count_upto_ext. intros k _.
      destruct (decide (k = k0)) as [->|Hk].
      - rewrite Hk0. rewrite (bool_decide_eq_false_2 (Some l0 = Some l)) by congruence.
        by rewrite !andb_false_r.
      - by rewrite (Hother k Hk), orb_false_r. }
    destruct (Z.ltb_spec 0 l0) as [Hpos|Hnpos].
    + assert (l0 ≤ n) by (apply Hvalid; by apply list_elem_of_lookup_2 in Hk0).
      replace (n <? l0) with false by (symmetry; lia).
      destruct (rd_is_Some ra (l0 - 1)) as [a Ha]; [lia|]. rewrite Ha. cbn [lift].
      rewrite result_bind_ret.
      rewrite (wr_is_Some ra (l0 - 1) (a + 1)) by lia. cbn [lift].
      eexists. split; [done|]. split; [by rewrite length_insert|].
      intros l Hlr. destruct (decide (l = l0)) as [->|Hne].
      * rewrite (rd_wr_eq ra _ (l0 - 1) (a + 1)) by (apply wr_is_Some; lia).
        rewrite (Hcnt l0 Hlr) in Ha. injection Ha as <-. f_equal.
        rewrite (count_upto_flip
          (λ k, D (cell_at k) && bool_decide (data li !! k = Some l0))
          (λ k, (D (cell_at k) || bool_decide (cell_at k = XY i j))
                && bool_decide (data li !! k = Some l0)) _ k0); [lia|done| | | ].
        -- by rewrite Hpt, HD.
        -- rewrite Hpt, HD, Hk0. cbn [orb]. rewrite !bool_decide_eq_true_2; done.
        -- intros k _ Hk. by rewrite (Hother k Hk), orb_false_r.
      * rewrite (rd_wr_ne ra _ (l0 - 1) (l - 1) (a + 1)); [|apply wr_is_Some; lia | lia].
        rewrite (Hcnt l Hlr). by rewrite Hsame.
    + eexists. split; [done|]. split; [done|]. intros l Hlr.
      rewrite (Hcnt l Hlr). rewrite Hsame; [done | lia].
  - split; [by rewrite length_replicate|]. intros l Hlr.
    rewrite (count_upto_ext _ (λ _, false)) by done.
    assert (Hz : ∀ m, count_upto (λ _, false) m = O) by (induction m; cbn; lia).
    rewrite Hz. apply rd_Some. split; [lia|]. apply lookup_replicate_2. lia.
  - exists ra. split; [exact Hloop|]. destruct Hra as [Hl Hcnt]. split; [done|].
    intros l Hlr. rewrite (Hcnt l Hlr). unfold area. do 2 f_equal.
    rewrite <- count_upto_filter. by apply count_upto_ext.
Qed.
End Tally.

(** ** [process_lung_regions]: the candidate list (lines 81-93) *)

Lemma int_sub_exact (a b : Z) : in_int (a - b) → int_sub a b = a - b.
Proof.
  unfold in_int, int_sub. intros H.
  rewrite Z.mod_small by lia. lia.
Qed.

Lemma passes_exact (regions : IntegerMatrix) (l x_min x_max y_min y_max : Z) :
  cell regions (XY (l - 1) 0) = Some x_min → cell regions (XY (l - 1) 1) = Some x_max →
  cell regions (XY (l - 1) 2) = Some y_min → cell regions (XY (l - 1) 3) = Some y_max →
  in_int (x_max - x_min) → in_int (y_max - y_min) →
  passes regions l = true ↔ x_max - x_min < 350 ∧ y_max - y_min < 350.
Proof.
  unfold cell, passes. cbn [xx yy]. intros -> -> -> -> Hx Hy. cbn.
  rewrite !int_sub_exact by done.
  rewrite andb_true_iff, !Z.ltb_lt. done.
Qed.

Lemma valid_regions_spec (regions : IntegerMatrix) :
  wf_matrix regions → ncol regions = 4 →
  forR 0 (nrow regions) (λ i valid_regions,
    x_min ← lift (mget regions i 0);
    x_max ← lift (mget regions i 1);
    y_min ← lift (mget regions i 2);
    y_max ← lift (mget regions i 3);
    if (int_sub x_max x_min <? 350) && (int_sub y_max y_min <? 350)
    then Return (valid_regions ++ [i + 1]) []
    else Return valid_regions []) []
  = Return (candidates regions) [].
Proof.
  intros Hwf Hc4. pose proof Hwf as (Hnr & _ & _).
  match goal with |- forR _ _ ?body _ = _ =>
    destruct (forR_rule
      (λ i vr, vr = filter (λ l, passes regions l = true) (seqZ 1 i))
      body 0 (nrow regions) []) as (vr & -> & ->); [done | done | | done]
  end.
  intros i vr Hi ->. cbv beta zeta.
  assert (Hcell : ∀ k, 0 ≤ k < 4 → ∃ v, mget regions i k = Some v).
  { intros k Hk. apply (in_matrix_cell regions (XY i k) Hwf).
    unfold in_matrix. cbn [xx yy]. lia. }
  destruct (Hcell 0) as [x_min H0]; [lia|]. destruct (Hcell 1) as [x_max H1]; [lia|].
  destruct (Hcell 2) as [y_min H2]; [lia|]. destruct (Hcell 3) as [y_max H3]; [lia|].
  rewrite H0, H1, H2, H3. cbn [lift]. rewrite !result_bind_ret.
  assert (Hpass : passes regions (i + 1)
                  = (int_sub x_max x_min <? 350) && (int_sub y_max y_min <? 350)).
  { unfold passes. replace (i + 1 - 1) with i by lia. by rewrite H0, H1, H2, H3. }
  assert (Hseq : seqZ 1 (i + 1) = seqZ 1 i ++ [i + 1]).
  { rewrite seqZ_app by lia. f_equal. replace (1 + i) with (i + 1) by lia. done. }
  rewrite Hseq, filter_app, filter_cons, filter_nil, Hpass.
  destruct ((int_sub x_max x_min <? 350) && (int_sub y_max y_min <? 350)).
  - eexists. split; [done|]. by rewrite decide_True.
  - eexists. split; [done|]. rewrite decide_False by done. by rewrite app_nil_r.
Qed.

(** ** [filter_lung_regions] *)

Section Ranking.
Context (f : Z → Z) (region_areas : list Z).

(** The state of the ranking scan after the candidates [done]. *)
Definition ranked (done : list Z) (st : Z * Z * Z * Z) : Prop :=
  let '(a1, a2, m1, m2) := st in
  (done = [] ∧ a1 = -1 ∧ a2 = -1 ∧ m1 = -1 ∧ m2 = -1) ∨
  (∃ x, done = [x] ∧ a1 = f x ∧ a2 = -1 ∧ m1 = x ∧ m2 = -1) ∨
  (a1 = f m1 ∧ a2 = f m2 ∧ top_two f done m1 m2).

Lemma ranked_step (done : list Z) (x a1 a2 m1 m2 : Z) :
  0 ≤ f x → ranked done (a1, a2, m1, m2) →
  ranked (done ++ [x])
    (if a1 <? f x then (f x, a1, x, m1)
     else if a2 <? f x then (a1, f x, m1, x) else (a1, a2, m1, m2)).
Proof.
  intros Hx [(-> & -> & -> & -> & ->)|[(x0 & -> & -> & -> & -> & ->)|(-> & -> & Htop)]].
  - replace (-1 <? f x) with true by (symmetry; lia).
    right; left. exists x. done.
  - destruct (Z.ltb_spec (f x0) (f x)) as [Hlt|Hge].
    + right; right.
      split; [done|]. split; [done|]. exists [x0], []. split; [done|].
      split; [intros y ->%list_elem_of_singleton; done|].
      split; [intros y []%elem_of_nil|].
      exists [], []. split; [done|]. split; intros y []%elem_of_nil.
    + replace (-1 <? f x) with true by (symmetry; lia). right; right.
      split; [done|]. split; [done|]. exists [], [x]. split; [done|].
      split; [intros y []%elem_of_nil|].
      split; [intros y ->%list_elem_of_singleton; done|].
      exists [], []. split; [done|]. split; intros y []%elem_of_nil.
  - destruct Htop as (pre & post & -> & Hpre & Hpost & pre2 & post2 & HR & Hpre2 & Hpost2).
    assert (Hall1 : ∀ y, y ∈ pre ++ m1 :: post → f y ≤ f m1).
    { intros y [Hy|[->|Hy]%elem_of_cons]%elem_of_app;
        [apply Hpre in Hy; lia | lia | by apply Hpost]. }
    assert (Hall2 : ∀ y, y ∈ pre ++ post → f y ≤ f m2).
    { intros y Hy. rewrite HR in Hy.
      apply elem_of_app in Hy as [Hy|[->|Hy]%elem_of_cons];
        [apply Hpre2 in Hy; lia | lia | by apply Hpost2]. }
    destruct (Z.ltb_spec (f m1) (f x)) as [Hlt|Hge].
    + right; right.
      split; [done|]. split; [done|]. exists (pre ++ m1 :: post), [].
      split; [done|]. split; [intros y Hy%Hall1; lia|].
      split; [intros y []%elem_of_nil|]. rewrite app_nil_r.
      by exists pre, post.
    + destruct (Z.ltb_spec (f m2) (f x)) as [Hlt2|Hge2]; right; right.
      * split; [done|]. split; [done|]. exists pre, (post ++ [x]).
        split; [by rewrite <- app_assoc|]. split; [done|].
        split. { intros y [Hy| ->%list_elem_of_singleton]%elem_of_app; [by apply Hpost | done]. }
        exists (pre ++ post), []. split; [by rewrite app_assoc|].
        split; [intros y Hy%Hall2; lia | intros y []%elem_of_nil].
      * split; [done|]. split; [done|]. exists pre, (post ++ [x]).
        split; [by rewrite <- app_assoc|]. split; [done|].
        split. { intros y [Hy| ->%list_elem_of_singleton]%elem_of_app; [by apply Hpost | done]. }
        exists pre2, (post2 ++ [x]).
        split; [by rewrite app_assoc, HR, <- app_assoc|]. split; [done|].
        intros y [Hy| ->%list_elem_of_singleton]%elem_of_app; [by apply Hpost2 | done].
Qed.

Lemma filter_lung_regions_spec (valid_regions : list Z) :
  (2 ≤ length valid_regions)%nat →
  (∀ l, l ∈ valid_regions →
     1 ≤ l ≤ Z.of_nat (length region_areas) ∧
     rd region_areas (l - 1) = Some (f l) ∧ 0 ≤ f l) →
  ∃ m1 m2, filter_lung_regions valid_regions region_areas = Return [m1; m2] [] ∧
           top_two f valid_regions m1 m2.
Proof.
  intros Hlen Hlab. unfold filter_lung_regions.
  assert (Hne : valid_regions ≠ []) by (intros ->; cbn in Hlen; lia).
  assert (Hra : region_areas ≠ []).
  { intros ->. destruct valid_regions as [|l ?]; [done|].
    destruct (Hlab l) as [? _]; [by left|]. cbn in *. lia. }
  rewrite (bool_decide_eq_false_2 _ Hne), (bool_decide_eq_false_2 _ Hra).
  cbn [orb].
  match goal with |- context [foreachR valid_regions ?body tt] =>
    destruct (foreachR_rule (λ _ _, True) body valid_regions tt) as ([] & -> & _);
      [done | |]
  end.
  { intros done l rest [] Hv _. destruct (Hlab l) as [Hl _].
    { rewrite Hv. apply elem_of_app. right. by left. }
    replace (l <=? 0) with false by (symmetry; lia).
    replace (Z.of_nat (length region_areas) <? l) with false by (symmetry; lia).
    by exists tt. }
  rewrite result_bind_ret.
  match goal with |- context [foreachR valid_regions ?body ?s0] =>
    destruct (foreachR_rule ranked body valid_regions s0)
      as ([[[a1 a2] m1] m2] & -> & Hranked); [by left | |]
  end.
  { intros done l rest [[[a1 a2] m1] m2] Hv Hr. destruct (Hlab l) as (Hl & Hrd & Hpos).
    { rewrite Hv. apply elem_of_app. right. by left. }
    rewrite Hrd. cbn [lift]. rewrite result_bind_ret.
    pose proof (ranked_step done l a1 a2 m1 m2 Hpos Hr) as Hstep.
    destruct (a1 <? f l); [by eexists|]. destruct (a2 <? f l); by eexists. }
  rewrite result_bind_ret.
  destruct Hranked as [(-> & _)|[(x & -> & _)|(_ & _ & Htop)]];
    [done | cbn in Hlen; lia |].
  assert (Hm1 : m1 ∈ valid_regions).
  { destruct Htop as (pre & post & -> & _). apply elem_of_app. right. by left. }
  assert (Hm2 : m2 ∈ valid_regions).
  { destruct Htop as (pre & post & -> & _ & _ & pre2 & post2 & HR & _).
    assert (Hin : m2 ∈ pre ++ post) by (rewrite HR; apply elem_of_app; right; by left).
    apply elem_of_app in Hin as [?|?]; apply elem_of_app; [by left|].
    right. by right. }
  destruct (Hlab m1 Hm1) as [? _]. destruct (Hlab m2 Hm2) as [? _].
  replace (m1 =? -1) with false by (symmetry; lia).
  replace (m2 =? -1) with false by (symmetry; lia).
  cbn [negb app length Nat.ltb Nat.leb]. rewrite result_bind_ret.
  by exists m1, m2.
Qed.
End Ranking.

(** ** [process_lung_regions]: the final sweep (lines 104-111) and the whole *)

Lemma reset_spec (li : IntegerMatrix) (kept : list Z) :
  wf_matrix li →
  ∃ out, forR 0 (nrow li) (λ i label_image,
           forR 0 (ncol label_image) (λ j label_image,
             label ← lift (mget label_image i j);
             if (0 <? label) && negb (bool_decide (label ∈ kept))
             then lift (mset label_image i j 0)
             else Return label_image []) label_image) li = Return out [] ∧
    nrow out = nrow li ∧ ncol out = ncol li ∧
    ∀ p, in_matrix li p → ∃ v, cell li p = Some v ∧
      cell out p = Some (if (0 <? v) && negb (bool_decide (v ∈ kept)) then 0 else v).
Proof.
  intros Hwf. pose proof Hwf as (Hnr & Hnc & _).
  destruct (forR_rows_update (nrow li) (ncol li)
    (λ _ v, if (0 <? v) && negb (bool_decide (v ∈ kept)) then 0 else v)
    (λ i label_image,
       forR 0 (ncol label_image) (λ j label_image,
         label ← lift (mget label_image i j);
         if (0 <? label) && negb (bool_decide (label ∈ kept))
         then lift (mset label_image i j 0)
         else Return label_image []) label_image)
    (λ i j label_image,
       label ← lift (mget label_image i j);
       if (0 <? label) && negb (bool_decide (label ∈ kept))
       then lift (mset label_image i j 0)
       else Return label_image [])
    li) as (out & Hloop & (Hr & Hc & _) & Hcells); try done.
  - intros i M (_ & -> & _). done.
  - intros i j Hi Hj M v (HMr & HMc & HMwf) Hv.
    pose proof Hv as Hv'. unfold cell in Hv'. cbn [xx yy] in Hv'. rewrite Hv'.
    cbn [lift]. rewrite result_bind_ret.
    destruct ((0 <? v) && negb (bool_decide (v ∈ kept))).
    + assert (HpM : in_matrix M (XY i j)) by (unfold in_matrix; cbn [xx yy]; lia).
      destruct (mset_spec M i j 0 HMwf HpM) as (M' & -> & Hr' & Hc' & Hwf' & Hsame & Hother).
      exists M'. split; [done|]. split; [split; [lia|]; split; [lia | done]|]. done.
    + exists M. done.
  - by exists out.
Qed.

Lemma candidates_range (regions : IntegerMatrix) (l : Z) :
  l ∈ candidates regions → 1 ≤ l ≤ nrow regions.
Proof.
  unfold candidates. intros [_ Hl]%list_elem_of_filter.
  apply elem_of_seqZ in Hl. lia.
Qed.

Lemma process_lung_regions_spec (label_image regions : IntegerMatrix) :
  wf_matrix label_image → wf_matrix regions → ncol regions = 4 →
  0 < nrow regions →
  (∀ v, v ∈ data label_image → 0 ≤ v ≤ nrow regions) →
  ∃ out kept, process_lung_regions label_image regions = Return (out, kept) [] ∧
    ((2 < length (candidates regions))%nat →
       ∃ l1 l2, kept = [l1; l2] ∧
                top_two (area label_image) (candidates regions) l1 l2) ∧
    ((length (candidates regions) ≤ 2)%nat → kept = candidates regions) ∧
    nrow out = nrow label_image ∧ ncol out = ncol label_image ∧
    ∀ p v, in_matrix label_image p → cell label_image p = Some v →
      cell out p = Some (if bool_decide (v ∈ kept) then v else 0).
Proof.
  intros Hwf Hwfr Hc4 Hn Hvalid. unfold process_lung_regions. cbv zeta.
  replace (nrow regions =? 0) with false by (symmetry; lia).
  destruct (tally_spec label_image (nrow regions) Hwf) as (ra & -> & Hlen & Hra);
    [intros v Hv; by apply Hvalid|].
  rewrite result_bind_ret, (valid_regions_spec regions Hwfr Hc4), result_bind_ret.
  assert (Hsweep : ∀ kept : list Z, (∀ l, l ∈ kept → 1 ≤ l) →
    ∃ out, forR 0 (nrow label_image) (λ i label_image,
             forR 0 (ncol label_image) (λ j label_image,
               label ← lift (mget label_image i j);
               if (0 <? label) && negb (bool_decide (label ∈ kept))
               then lift (mset label_image i j 0)
               else Return label_image []) label_image) label_image = Return out [] ∧
      nrow out = nrow label_image ∧ ncol out = ncol label_image ∧
      ∀ p v, in_matrix label_image p → cell label_image p = Some v →
        cell out p = Some (if bool_decide (v ∈ kept) then v else 0)).
  { intros kept Hkept.
    destruct (reset_spec label_image kept Hwf) as (out & Hloop & Hr & Hc & Hcells).
    exists out. split; [done|]. split; [done|]. split; [done|].
    intros p v Hp Hv. destruct (Hcells p Hp) as (w & Hw & ->).
    assert (w = v) as -> by congruence. f_equal.
    destruct (Hvalid v (cell_elem _ _ _ Hv)) as [Hv0 _].
    destruct (decide (v ∈ kept)) as [Hin|Hnin].
    - rewrite !bool_decide_eq_true_2 by done. cbn [negb]. by rewrite andb_false_r.
    - rewrite !bool_decide_eq_false_2 by done. cbn [negb]. rewrite andb_true_r.
      destruct (Z.ltb_spec 0 v); [done | lia]. }
  destruct (Nat.ltb_spec 2 (length (candidates regions))) as [Hmany|Hfew].
  - destruct (filter_lung_regions_spec (area label_image) ra (candidates regions))
      as (m1 & m2 & -> & Htop); [lia | |].
    { intros l Hl%candidates_range. split; [lia|]. split; [apply Hra; lia|].
      unfold area. lia. }
    rewrite result_bind_ret.
    assert (Hm : ∀ l, l ∈ [m1; m2] → l ∈ candidates regions).
    { destruct Htop as (pre & post & Hc & _ & _ & pre2 & post2 & HR & _).
      assert (Hin2 : m2 ∈ pre ++ post) by (rewrite HR; apply elem_of_app; right; by left).
      intros l [->|[->|[]%elem_of_nil]%elem_of_cons]%elem_of_cons; rewrite Hc.
      - apply elem_of_app. right. by left.
      - apply elem_of_app in Hin2 as [?|?]; apply elem_of_app; [by left|].
        right. by right. }
    destruct (Hsweep [m1; m2]) as (out & -> & Hr & Hc & Hcells).
    { intros l Hl%Hm%candidates_range. lia. }
    rewrite result_bind_ret. exists out, [m1; m2]. split; [done|].
    split; [intros _; by exists m1, m2|]. split; [intros; lia|]. done.
  - rewrite result_bind_ret.
    destruct (Hsweep (candidates regions)) as (out & -> & Hr & Hc & Hcells).
    { intros l Hl%candidates_range. lia. }
    rewrite result_bind_ret. exists out, (candidates regions). split; [done|].
    split; [intros; lia|]. done.
Qed.



(** C7 (defect).  With valid input and fewer than two regions passing the
    extent filter, [process_lung_regions] returns normally with the 0 or 1
    candidates as the kept list, but its list of warnings is empty: the
    warning sits in [filter_lung_regions], which is only called when more
    than two regions pass. *)
Theorem process_lung_regions_never_warns (label_image regions : IntegerMatrix) :
  wf_matrix label_image → wf_matrix regions → ncol regions = 4 →
  0 < nrow regions →
  (∀ v, v ∈ data label_image → 0 ≤ v ≤ nrow regions) →
  (length (candidates regions) < 2)%nat →
  ∃ out, process_lung_regions label_image regions
         = Return (out, candidates regions) [].
Proof.
  intros Hwf Hwfr Hc4 Hn Hvalid Hfew.
  destruct (process_lung_regions_spec label_image regions Hwf Hwfr Hc4 Hn Hvalid)
    as (out & kept & Hrun & _ & Hkept & _).
  exists out. rewrite <- Hkept; [done | lia].
Qed.

Lemma process_lung_regions_never_warns_witness :
  ∃ out, process_lung_regions (mkMatrix 1 1 [1]) (mkMatrix 1 4 [0; 0; 0; 0])
         = Return (out, candidates (mkMatrix 1 4 [0; 0; 0; 0])) [].
Proof.
  apply (process_lung_regions_never_warns (mkMatrix 1 1 [1]) (mkMatrix 1 4 [0; 0; 0; 0])).
  - unfold wf_matrix. simpl. lia.
  - unfold wf_matrix. simpl. lia.
  - reflexivity.
  - simpl. lia.
  - intros v Hv. apply list_elem_of_In in Hv. simpl in *. lia.
  - vm_compute. lia.
Defined.

(** The run behind C7: one candidate, kept as it is, no warning. *)
Example process_lung_regions_single_candidate :
  process_lung_regions (mkMatrix 1 1 [1]) (mkMatrix 1 4 [0; 0; 0; 0])
  = Return (mkMatrix 1 1 [1], [1]) [].
Proof. vm_compute. reflexivity. Qed.

(** A range that does not fit an [int]: in the row [(NA, 1, 0, 0)] the
    subtraction [1 - NA] wraps around to [-2147483647], which is below 350,
    so the label is a candidate and is kept. *)
Example process_lung_regions_wrapped_range :
  int_sub 1 NA_INTEGER = -2147483647 ∧
  process_lung_regions (mkMatrix 1 1 [1]) (mkMatrix 1 4 [NA_INTEGER; 1; 0; 0])
  = Return (mkMatrix 1 1 [1], [1]) [].
Proof. split; vm_compute; reflexivity. Qed.

(** * Further properties of the code *)

(** ** The flood filler and its guard *)

(** With a tolerance below one only the target itself collides. *)
Lemma collision_guard_small (tc rc : Z) (tol : Q) :
  (0 <= tol)%Q → (tol < 1)%Q → matches tol (collision_guard tc rc tol) tc = false.
Proof.
  intros H0 H1. destruct (decide (tc ≤ rc)) as [Hle|Hgt].
  - by apply collision_guard_above.
  - unfold collision_guard. destruct (matches tol tc rc) eqn:Hm.
    + apply matches_scaled in Hm. destruct tol as [n d].
      unfold Qlt in H1. cbn [Qnum Qden] in *. nia.
    + apply not_true_is_false. rewrite matches_scaled.
      apply not_true_iff_false in Hm. rewrite matches_scaled in Hm.
      intros Hc. apply Hm. replace (tc - rc) with (-(rc - tc)) by lia.
      by rewrite Z.abs_opp.
Qed.

Lemma matches_refl (tol : Q) (a : Z) : (0 <= tol)%Q → matches tol a a = true.
Proof.
  intros H0. apply matches_scaled. rewrite Z.sub_diag. destruct tol as [n d].
  unfold Qle in H0. cbn [Qnum Qden] in *. lia.
Qed.

Lemma collision_guard_range (tc rc : Z) (tol : Q) (u : Z) :
  (0 <= tol)%Q → (tol <= inject_Z u)%Q →
  rc ≤ collision_guard tc rc tol ≤ rc + u + 1.
Proof.
  intros H0 Hu. destruct tol as [n d]. unfold Qle, inject_Z in H0, Hu.
  cbn [Qnum Qden] in H0, Hu.
  unfold collision_guard. destruct (matches (n # d) tc rc); [|nia].
  unfold Qtrunc, Qplus, inject_Z. cbn [Qnum Qden].
  set (num := (rc * Z.pos d + n * 1) * 1 + 1 * Z.pos (1 * d)).
  replace (Z.pos (1 * d * 1)) with (Z.pos d) by lia.
  assert (Hnum : num = rc * Z.pos d + n + Z.pos d) by (unfold num; lia).
  pose proof (Z.quot_le_mono ((rc + 1) * Z.pos d) num (Z.pos d) ltac:(lia) ltac:(nia)) as Hlo.
  pose proof (Z.quot_le_mono num ((rc + u + 1) * Z.pos d) (Z.pos d) ltac:(lia) ltac:(nia)) as Hhi.
  rewrite Z.quot_mul in Hlo, Hhi by lia. lia.
Qed.

Lemma pix_elem (size : XYPoint) (m : list Z) (x y v : Z) :
  pix size m x y = Some v → v ∈ m.
Proof. unfold pix. intros [_ Hl]%rd_Some. by apply list_elem_of_lookup_2 in Hl. Qed.

(** X1.  For a target and a fill value between [-2^29] and [2^29] and a
    tolerance that is a multiple of [2^-20] between 0 and [2^29] (where the
    guard's [double] arithmetic is exact): when the fill value is not below
    the target, or the tolerance is below one, the value painted after the
    collision guard is an [int], its difference to the target fits an
    [int], and it is not within the tolerance of the target; and the guard
    leaves alone a fill value that does not collide. *)
Theorem collision_guard_sound (tc rc : Z) (tol : Q) :
  small tc → small rc → exact_tolerance tol → tc ≤ rc ∨ (tol < 1)%Q →
  in_int (collision_guard tc rc tol) ∧
  in_int (collision_guard tc rc tol - tc) ∧
  matches tol (collision_guard tc rc tol) tc = false ∧
  (matches tol tc rc = false → collision_guard tc rc tol = rc).
Proof.
  intros Htc Hrc (H0 & Hu & _) Hside.
  pose proof (collision_guard_range tc rc tol 536870912 H0 Hu) as Hg.
  unfold small, in_int in *. split; [lia|]. split; [lia|]. split.
  - destruct Hside; [by apply collision_guard_above | by apply collision_guard_small].
  - unfold collision_guard. by intros ->.
Qed.

Lemma collision_guard_sound_witness :
  in_int (collision_guard (-5) (-5) (1 # 2)) ∧
  in_int (collision_guard (-5) (-5) (1 # 2) - -5) ∧
  matches (1 # 2) (collision_guard (-5) (-5) (1 # 2)) (-5) = false ∧
  (matches (1 # 2) (-5) (-5) = false → collision_guard (-5) (-5) (1 # 2) = -5).
Proof.
  apply (collision_guard_sound (-5) (-5) (1 # 2)).
  - unfold small. lia.
  - unfold small. lia.
  - split; [done|]. split; [done|]. exists 524288. reflexivity.
  - by left.
Defined.

(** X2.  For a grid whose cells lie between [-2^29] and [2^29], a seed
    inside it whose cell holds [tc], a fill value in the same range, a
    tolerance that is a multiple of [2^-20] between 0 and [2^29], and a fill
    value that is not below [tc] (or any fill value when [tol < 1]):
    [_floodFill] returns, given fuel for twice the cells; the array keeps
    its length; the painted value [collision_guard tc rc tol] is an [int]
    whose difference to [tc] fits an [int]; every cell connected to the seed
    through edge-sharing cells within [tol] of [tc] holds the painted value,
    and every other cell is unchanged. *)
Theorem floodFill_paints_region (fuel : nat) (m : list Z) (size seed : XYPoint)
    (rc tc : Z) (tol : Q) :
  grid size m → inb size (xx seed) (yy seed) →
  (2 * length m + 1 < fuel)%nat →
  (∀ v, v ∈ m → small v) → small rc → exact_tolerance tol →
  tc ≤ rc ∨ (tol < 1)%Q →
  pix size m (xx seed) (yy seed) = Some tc →
  ∃ m', _floodFill fuel m size seed rc tol = Some m' ∧ length m' = length m ∧
    in_int (collision_guard tc rc tol) ∧
    in_int (collision_guard tc rc tol - tc) ∧
    ∀ x y, inb size x y →
      (conn (hitp size tc tol m) seed (XY x y) ∧
         pix size m' x y = Some (collision_guard tc rc tol)) ∨
      (¬ conn (hitp size tc tol m) seed (XY x y) ∧
         pix size m' x y = pix size m x y).
Proof.
  intros Hg Hi Hf Hm Hrc (H0 & Hu & _) Hside Htc.
  destruct (floodFill_spec fuel m size seed rc tc tol Hg Hi Hf Htc)
    as (m' & Hfill & Hg' & Hcells).
  - by apply matches_refl.
  - destruct Hside; [by apply collision_guard_above | by apply collision_guard_small].
  - exists m'. split; [done|]. split; [unfold grid in Hg, Hg'; lia|].
    pose proof (collision_guard_range tc rc tol 536870912 H0 Hu).
    pose proof (Hm tc (pix_elem _ _ _ _ _ Htc)).
    unfold small, in_int in *. split; [lia|]. split; [lia|]. done.
Qed.

Lemma floodFill_paints_region_witness :
  ∃ m', _floodFill 10 [5; 5; 0; 5] (XY 2 2) (XY 0 0) 7 (1 # 2) = Some m' ∧
    length m' = length [5; 5; 0; 5] ∧
    in_int (collision_guard 5 7 (1 # 2)) ∧
    in_int (collision_guard 5 7 (1 # 2) - 5) ∧
    ∀ x y, inb (XY 2 2) x y →
      (conn (hitp (XY 2 2) 5 (1 # 2) [5; 5; 0; 5]) (XY 0 0) (XY x y) ∧
         pix (XY 2 2) m' x y = Some (collision_guard 5 7 (1 # 2))) ∨
      (¬ conn (hitp (XY 2 2) 5 (1 # 2) [5; 5; 0; 5]) (XY 0 0) (XY x y) ∧
         pix (XY 2 2) m' x y = pix (XY 2 2) [5; 5; 0; 5] x y).
Proof.
  apply (floodFill_paints_region 10 [5; 5; 0; 5] (XY 2 2) (XY 0 0) 7 5 (1 # 2)).
  - reflexivity.
  - unfold inb. simpl. lia.
  - simpl. lia.
  - intros v Hv. unfold small.
    repeat (apply elem_of_cons in Hv as [->|Hv]; [lia|]).
    by apply elem_of_nil in Hv.
  - unfold small. lia.
  - split; [done|]. split; [done|]. exists 524288. reflexivity.
  - left. lia.
  - reflexivity.
Defined.

(** ** The labeller looks at nothing but the zero pattern *)

Lemma for_up_ext {St : Type} (body body' : Z → St → option St) (n : nat)
    (lo : Z) (s : St) :
  (∀ i s, lo ≤ i < lo + Z.of_nat n → body i s = body' i s) →
  for_up n lo body s = for_up n lo body' s.
Proof.
  revert lo s. induction n as [|n IH]; intros lo s He; [done|].
  cbn [for_up]. rewrite He by lia. destruct (body' lo s) as [s'|]; [|done].
  cbn [mbind option_bind]. apply IH. intros i t Hi. apply He. lia.
Qed.

Lemma for_ext {St : Type} (body body' : Z → St → option St) (lo hi : Z) (s : St) :
  (∀ i s, lo ≤ i < hi → body i s = body' i s) →
  for_ lo hi body s = for_ lo hi body' s.
Proof. intros He. apply for_up_ext. intros i t Hi. apply He. lia. Qed.

Lemma rd_Forall2 {A B : Type} (P : A → B → Prop) (l : list A) (k : list B) (i : Z) :
  Forall2 P l k →
  (rd l i = None ∧ rd k i = None) ∨
  (∃ a b, rd l i = Some a ∧ rd k i = Some b ∧ P a b).
Proof.
  intros HF. unfold rd. destruct (0 <=? i); [|by left].
  destruct (l !! Z.to_nat i) as [a|] eqn:Ha.
  - destruct (Forall2_lookup_l _ _ _ _ _ HF Ha) as (b & Hb & HP).
    right. exists a, b. by rewrite Hb.
  - left. split; [done|]. apply lookup_ge_None. apply lookup_ge_None in Ha.
    by rewrite <- (Forall2_length _ _ _ HF).
Qed.

Lemma bwlabel_support {R S : Type} (zr : R → bool) (zs : S → bool) (fuel : nat)
    (x : Matrix R) (y : Matrix S) :
  nrow x = nrow y → ncol x = ncol y →
  Forall2 (λ a b, zr a = zs b) (data x) (data y) →
  bwlabel zr fuel x = bwlabel zs fuel y.
Proof.
  intros Hr Hc HF. unfold bwlabel, _bwlabel. cbv zeta. rewrite <- Hr, <- Hc.
  cbn [xx yy].
  rewrite (for_ext
    (λ i res, v ← rd (data x) i; wr res i (if zr v then 0 else -1))
    (λ i res, v ← rd (data y) i; wr res i (if zs v then 0 else -1))); [done|].
  intros i res _.
  destruct (rd_Forall2 _ (data x) (data y) i HF) as [[-> ->]|(a & b & -> & -> & He)];
    [done|].
  cbn [mbind option_bind]. by rewrite He.
Qed.

(** X3.  [bwlabel] looks at nothing but which cells are zero: two rasters
    of the same extents whose cells are zero at the same positions get the
    same label grid and the same count, on any fuel. *)
Theorem bwlabel_depends_on_support {R S : Type} (zr : R → bool) (zs : S → bool)
    (fuel : nat) (x : Matrix R) (y : Matrix S) :
  nrow x = nrow y → ncol x = ncol y →
  Forall2 (λ a b, zr a = zs b) (data x) (data y) →
  bwlabel zr fuel x = bwlabel zs fuel y.
Proof. apply bwlabel_support. Qed.

Lemma bwlabel_depends_on_support_witness :
  bwlabel (Z.eqb 0) 10 diagonal_raster
  = bwlabel negb 10 (mkMatrix 2 2 [true; false; false; true]).
Proof.
  apply (bwlabel_depends_on_support (Z.eqb 0) negb 10 diagonal_raster
           (mkMatrix 2 2 [true; false; false; true])).
  - reflexivity.
  - reflexivity.
  - simpl. repeat constructor.
Defined.

Lemma label_zero_pattern {R : Type} (is_zero : R → bool) (x : Matrix R)
    (L : IntegerMatrix) (n : Z) :
  wf_matrix x → nrow L = nrow x → ncol L = ncol x →
  lab_inv is_zero (data x) (XY (nrow x) (ncol x)) (nrow x * ncol x) (data L) (n + 1) →
  Forall2 (λ l a, (0 =? l) = is_zero a) (data L) (data x).
Proof.
  intros Hwf HnL HcL Hinv. apply Forall2_same_length_lookup. split.
  - destruct Hinv as (Hg & _). destruct Hwf as (_ & _ & Hlen).
    unfold grid in Hg. cbn [xx yy] in Hg. lia.
  - intros i l a Hl Ha.
    assert (Hr : rd (data L) (Z.of_nat i) = Some l).
    { apply rd_Some. split; [lia|]. by rewrite Nat2Z.id. }
    destruct (final_position is_zero x Hwf L n HnL Hinv _ _ Hr) as (p & Hp & Hc & Hi).
    assert (Hx : mget x (xx p) (yy p) = Some a).
    { rewrite mget_pix, <- Hi. apply rd_Some. split; [lia|]. by rewrite Nat2Z.id. }
    destruct (final_label is_zero x L n HnL Hinv p Hp) as (l' & Hl' & Hcase).
    assert (l' = l) as -> by congruence.
    destruct Hcase as [[Hnf ->]|[(_ & v & Hv & Hz) Hrg]].
    + destruct (is_zero a) eqn:Hz; [done|]. destruct Hnf. split; [done|]. eauto.
    + assert (v = a) as -> by congruence. rewrite Hz. lia.
Qed.

(** X4.  Labelling a label grid gives it back: if [bwlabel] returns
    [(L, n)] for a raster, then [bwlabel] applied to [L] itself (a nonzero
    label being a nonzero cell) returns [(L, n)] again. *)
Theorem bwlabel_relabel {R : Type} (is_zero : R → bool) (fuel : nat)
    (x : Matrix R) (L : IntegerMatrix) (n : Z) :
  wf_matrix x → (2 * length (data x) + 1 < fuel)%nat →
  bwlabel is_zero fuel x = Some (L, n) →
  bwlabel (Z.eqb 0) fuel L = Some (L, n).
Proof.
  intros Hwf Hfuel Hbw.
  destruct (bwlabel_lab_inv is_zero x Hwf fuel Hfuel) as (L' & n' & Hbw' & HnL & HcL & Hinv).
  assert (L' = L ∧ n' = n) as [-> ->] by (split; congruence).
  rewrite <- Hbw. apply bwlabel_support; [done | done |].
  by apply (label_zero_pattern is_zero x L n).
Qed.

Lemma bwlabel_relabel_witness :
  bwlabel (Z.eqb 0) 10 (mkMatrix 2 2 [1; 0; 0; 2]) = Some (mkMatrix 2 2 [1; 0; 0; 2], 2).
Proof.
  apply (bwlabel_relabel (Z.eqb 0) 10 diagonal_raster).
  - unfold wf_matrix. simpl. lia.
  - simpl. lia.
  - vm_compute. reflexivity.
Defined.

(** ** Loops that fail *)

(** A loop that returns has run every one of its iterations. *)
Lemma for_up_Some_each {St : Type} (body : Z → St → option St) (n : nat)
    (lo : Z) (s s' : St) :
  for_up n lo body s = Some s' →
  ∀ k, lo ≤ k < lo + Z.of_nat n → ∃ t t', body k t = Some t'.
Proof.
  revert lo s. induction n as [|n IH]; intros lo s Hf k Hk; [lia|].
  cbn [for_up] in Hf. destruct (body lo s) as [s1|] eqn:Hb; [|done].
  cbn [mbind option_bind] in Hf.
  destruct (decide (k = lo)) as [->|Hne]; [eauto|].
  apply (IH (lo + 1) s1 Hf). lia.
Qed.

Lemma for_Some_each {St : Type} (body : Z → St → option St) (lo hi : Z)
    (s s' : St) :
  for_ lo hi body s = Some s' →
  ∀ k, lo ≤ k < hi → ∃ t t', body k t = Some t'.
Proof. intros Hf k Hk. apply (for_up_Some_each body _ lo s s' Hf). lia. Qed.

(** A loop keeps what each of its iterations keeps. *)
Lemma for_up_keeps {St : Type} (I : St → Prop) (body : Z → St → option St)
    (n : nat) (lo : Z) (s s' : St) :
  (∀ i t t', I t → body i t = Some t' → I t') →
  I s → for_up n lo body s = Some s' → I s'.
Proof.
  intros Hkeep. revert lo s. induction n as [|n IH]; intros lo s Hs Hf.
  - cbn in Hf. by injection Hf as <-.
  - cbn [for_up] in Hf. destruct (body lo s) as [s1|] eqn:Hb; [|done].
    cbn [mbind option_bind] in Hf. eapply IH; [|done]. by eapply Hkeep.
Qed.

Lemma for_keeps {St : Type} (I : St → Prop) (body : Z → St → option St)
    (lo hi : Z) (s s' : St) :
  (∀ i t t', I t → body i t = Some t' → I t') →
  I s → for_ lo hi body s = Some s' → I s'.
Proof. apply for_up_keeps. Qed.

(** A loop with an iteration that fails from every state it can be in has no
    result. *)
Lemma for_fails {St : Type} (I : St → Prop) (body : Z → St → option St)
    (lo hi k : Z) (s : St) :
  (∀ i t t', I t → body i t = Some t' → I t') →
  (∀ t, I t → body k t = None) →
  lo ≤ k < hi → I s → for_ lo hi body s = None.
Proof.
  intros Hkeep Hk Hr Hs.
  destruct (for_ lo hi body s) as [s'|] eqn:Hf; [|done]. exfalso.
  unfold for_ in Hf. remember (Z.to_nat (hi - lo)) as n eqn:Hn.
  assert (Hr' : lo ≤ k < lo + Z.of_nat n) by lia. clear Hn Hr.
  revert lo s Hs Hf Hr'. induction n as [|n IH]; intros lo s Hs Hf Hr; [lia|].
  cbn [for_up] in Hf. destruct (body lo s) as [s1|] eqn:Hb; [|done].
  cbn [mbind option_bind] in Hf.
  destruct (decide (k = lo)) as [->|Hne]; [by rewrite Hk in Hb|].
  apply (IH (lo + 1) s1); [by eapply Hkeep | done | lia].
Qed.

(** ** Matrices as cell maps *)

Lemma elem_cell {A : Type} (M : Matrix A) (v : A) :
  wf_matrix M → v ∈ data M → ∃ p, in_matrix M p ∧ cell M p = Some v.
Proof.
  intros (Hr & Hc & Hlen) [i Hi]%list_elem_of_lookup.
  pose proof (lookup_lt_Some _ _ _ Hi) as Hlt.
  destruct (flat_inb (XY (nrow M) (ncol M)) (Z.of_nat i)) as [Hin He];
    [done | cbn [xx yy]; lia |]. cbn [xx yy] in Hin, He.
  exists (XY (Z.of_nat i `mod` nrow M) (Z.of_nat i `div` nrow M)).
  split; [done|]. unfold cell. rewrite mget_pix. cbn [xx yy]. rewrite <- He.
  apply rd_Some. split; [lia|]. by rewrite Nat2Z.id.
Qed.

Lemma matrix_ext {A : Type} (M M' : Matrix A) :
  wf_matrix M → wf_matrix M' → nrow M' = nrow M → ncol M' = ncol M →
  (∀ p, in_matrix M p → cell M' p = cell M p) → M' = M.
Proof.
  intros Hwf Hwf' Hr Hc Hcells.
  destruct M as [r c d], M' as [r' c' d']. cbn [nrow ncol] in Hr, Hc. subst r' c'.
  f_equal. pose proof Hwf as (Hr & Hc & Hlen). destruct Hwf' as (_ & _ & Hlen').
  cbn [nrow ncol data] in *. apply list_eq. intros i.
  destruct (decide (i < length d)%nat) as [Hlt|Hge].
  - destruct (flat_inb (XY r c) (Z.of_nat i)) as [Hin He];
      [done | cbn [xx yy]; lia |]. cbn [xx yy] in Hin, He.
    specialize (Hcells (XY (Z.of_nat i `mod` r) (Z.of_nat i `div` r)) Hin).
    unfold cell in Hcells. rewrite !mget_pix in Hcells.
    cbn [xx yy nrow data] in Hcells. rewrite <- He in Hcells.
    unfold rd in Hcells. replace (0 <=? Z.of_nat i) with true in Hcells by (symmetry; lia).
    by rewrite Nat2Z.id in Hcells.
  - rewrite !lookup_ge_None_2; [done | lia | lia].
Qed.

(** ** The stages of border clearing, one by one *)

(** X5.  When [ext = buffer_size + 1] exceeds neither extent, the frame
    loops of [clear_border] (lines 203-216) produce a mask of the raster's
    extents that is true exactly on the outer [ext] rows and the outer [ext]
    columns. *)
Theorem border_frame_contents (nr nc ext : Z) :
  0 ≤ nr → 0 ≤ nc → ext ≤ nr → ext ≤ nc →
  ∃ b, border_frame_loops (λ i j b, mset b i j true) nr nc ext
         (new_matrix nr nc false) = Some b ∧
    nrow b = nr ∧ ncol b = nc ∧
    ∀ p, in_matrix b p →
      ∃ t, cell b p = Some t ∧
        (t = true ↔ xx p < ext ∨ nr - ext ≤ xx p ∨ yy p < ext ∨ nc - ext ≤ yy p).
Proof.
  intros Hnr Hnc Her Hec.
  destruct (border_frame_marked nr nc ext Hnr Hnc Her Hec)
    as (b & Hb & Hr & Hc & _ & Hcells).
  exists b. done.
Qed.

Lemma border_frame_contents_witness :
  ∃ b, border_frame_loops (λ i j b, mset b i j true) 5 4 1
         (new_matrix 5 4 false) = Some b ∧
    nrow b = 5 ∧ ncol b = 4 ∧
    ∀ p, in_matrix b p →
      ∃ t, cell b p = Some t ∧
        (t = true ↔ xx p < 1 ∨ 5 - 1 ≤ xx p ∨ yy p < 1 ∨ 4 - 1 ≤ yy p).
Proof. apply (border_frame_contents 5 4 1); lia. Defined.

(** X6.  For a label grid and a mask of the same extents,
    [get_border_indices] returns every label that occurs under a true mask
    cell, each exactly once, and no other value. *)
Theorem get_border_indices_collects (labels : IntegerMatrix) (borders : LogicalMatrix) :
  wf_matrix labels → wf_matrix borders →
  nrow borders = nrow labels → ncol borders = ncol labels →
  ∃ bi, get_border_indices labels borders = Some bi ∧ NoDup bi ∧
    ∀ l, l ∈ bi ↔
      ∃ p, in_matrix labels p ∧ cell borders p = Some true ∧ cell labels p = Some l.
Proof.
  intros Hwf Hwfb Hr Hc.
  destruct (get_border_indices_spec (nrow labels) (ncol labels) labels borders
              (λ p, cell borders p = Some true)) as (bi & Hbi & Hmem).
  - done.
  - split; [done|]. split; [done|]. split; [done|]. intros p Hp.
    destruct (in_matrix_cell borders p Hwfb Hp) as [t Ht]. exists t.
    split; [done|]. rewrite Ht. split; [by intros -> | by intros [= ->]].
  - exists bi. split; [done|]. split; [|done].
    unfold get_border_indices in Hbi.
    destruct (for_ 0 (nrow labels) _ _) as [u|]; [|done].
    cbn [mbind option_bind] in Hbi. injection Hbi as <-. apply NoDup_elements.
Qed.

Lemma get_border_indices_collects_witness :
  ∃ bi, get_border_indices (mkMatrix 2 2 [1; 0; 0; 2])
          (mkMatrix 2 2 [true; false; false; false]) = Some bi ∧ NoDup bi ∧
    ∀ l, l ∈ bi ↔
      ∃ p, in_matrix (mkMatrix 2 2 [1; 0; 0; 2]) p ∧
           cell (mkMatrix 2 2 [true; false; false; false]) p = Some true ∧
           cell (mkMatrix 2 2 [1; 0; 0; 2]) p = Some l.
Proof.
  apply (get_border_indices_collects (mkMatrix 2 2 [1; 0; 0; 2])
           (mkMatrix 2 2 [true; false; false; false])).
  - unfold wf_matrix. simpl. lia.
  - unfold wf_matrix. simpl. lia.
  - reflexivity.
  - reflexivity.
Defined.

(** X7.  [create_label_mask] never fails: the result has the length of
    [indices], and its entry [i] tells whether [indices[i]] occurs in
    [borders_indices]. *)
Theorem create_label_mask_total (indices borders_indices : list Z) :
  ∃ lm, create_label_mask indices borders_indices = Some lm ∧
    length lm = length indices ∧
    ∀ i v, indices !! i = Some v →
      lm !! i = Some (bool_decide (v ∈ borders_indices)).
Proof.
  unfold create_label_mask.
  destruct (for_rule
    (λ i (lm : list bool), length lm = length indices ∧
       ∀ (k : nat) v, Z.of_nat k < i → indices !! k = Some v →
         lm !! k = Some (bool_decide (v ∈ borders_indices)))
    (λ i lm, v ← rd indices i;
             wr lm i (bool_decide (v ∈ (list_to_set borders_indices : gset Z))))
    0 (Z.of_nat (length indices)) (replicate (length indices) false))
    as (lm & Hf & Hlen & Hlm).
  - lia.
  - split; [by rewrite length_replicate | intros; lia].
  - intros i lm Hi [Hlen Hdone].
    destruct (rd_is_Some indices i) as [v Hv]; [lia|]. rewrite Hv.
    cbn [mbind option_bind].
    assert (Hw : wr lm i (bool_decide (v ∈ (list_to_set borders_indices : gset Z)))
                 = Some (<[Z.to_nat i :=
                          bool_decide (v ∈ (list_to_set borders_indices : gset Z))]> lm))
      by (apply wr_is_Some; lia).
    eexists. split; [exact Hw|]. split; [by rewrite length_insert|].
    intros k w Hk Hkw. destruct (decide (Z.of_nat k = i)) as [<-|Hne].
    + rewrite Nat2Z.id. rewrite list_lookup_insert_eq by lia.
      apply rd_Some in Hv as [_ Hv]. rewrite Nat2Z.id in Hv.
      assert (w = v) as -> by congruence. f_equal. apply bool_decide_ext.
      by rewrite elem_of_list_to_set.
    + rewrite list_lookup_insert_ne by lia. apply Hdone; [lia | done].
  - exists lm. split; [done|]. split; [done|]. intros i v Hv.
    apply Hlm; [|done]. apply lookup_lt_Some in Hv. lia.
Qed.

(** X8.  [create_clear_mask] indexes [label_mask] by the labels of the grid
    without a bounds check: it has a defined result exactly when every label
    of the grid lies in [0 .. length label_mask - 1]; the mask then has the
    extents of the grid, and its cell at [p] is [label_mask[labels(p)]]. *)
Theorem create_clear_mask_defined (labels : IntegerMatrix) (label_mask : list bool) :
  wf_matrix labels →
  (is_Some (create_clear_mask labels label_mask) ↔
     ∀ l, l ∈ data labels → 0 ≤ l < Z.of_nat (length label_mask)) ∧
  ∀ mask, create_clear_mask labels label_mask = Some mask →
    nrow mask = nrow labels ∧ ncol mask = ncol labels ∧
    ∀ p l, in_matrix labels p → cell labels p = Some l →
      ∃ t, rd label_mask l = Some t ∧ cell mask p = Some t.
Proof.
  intros Hwf. pose proof Hwf as (Hnr & Hnc & _).
  assert (Hsh : shape (nrow labels) (ncol labels) labels) by done.
  assert (Hrange : ∀ mask, create_clear_mask labels label_mask = Some mask →
            ∀ l, l ∈ data labels → 0 ≤ l < Z.of_nat (length label_mask)).
  { intros mask Hm l Hl. destruct (elem_cell labels l Hwf Hl) as ([i j] & [Hi Hj] & Hc).
    cbn [xx yy] in Hi, Hj. unfold cell in Hc. cbn [xx yy] in Hc.
    unfold create_clear_mask in Hm.
    destruct (for_Some_each _ _ _ _ _ Hm i Hi) as (t & t' & Hrow).
    destruct (for_Some_each _ _ _ _ _ Hrow j Hj) as (u & u' & Hcell).
    cbv beta in Hcell. rewrite Hc in Hcell. cbn [mbind option_bind] in Hcell.
    destruct (rd label_mask l) as [b|] eqn:Hb; [|done].
    by apply rd_bound in Hb. }
  assert (Hspec : (∀ l, l ∈ data labels → 0 ≤ l < Z.of_nat (length label_mask)) →
            ∃ mask, create_clear_mask labels label_mask = Some mask ∧
              shape (nrow labels) (ncol labels) mask ∧
              ∀ p l, in_matrix labels p → cell labels p = Some l →
                ∃ t, rd label_mask l = Some t ∧ cell mask p = Some t).
  { intros Hall. apply create_clear_mask_spec; try done.
    intros p l Hp Hl. apply rd_is_Some. apply Hall. by apply (cell_elem labels p). }
  split.
  - split.
    + intros [mask Hm]. by apply (Hrange mask).
    + intros Hall. destruct (Hspec Hall) as (mask & -> & _). done.
  - intros mask Hm. destruct (Hspec (Hrange mask Hm)) as (mask' & Hm' & (Hr & Hc & _) & Hcells).
    assert (mask' = mask) as -> by congruence. done.
Qed.

Lemma create_clear_mask_defined_witness :
  (is_Some (create_clear_mask (mkMatrix 1 2 [0; 3]) [true; false]) ↔
     ∀ l, l ∈ data (mkMatrix 1 2 [0; 3]) → 0 ≤ l < Z.of_nat (length [true; false])) ∧
  ∀ mask, create_clear_mask (mkMatrix 1 2 [0; 3]) [true; false] = Some mask →
    nrow mask = nrow (mkMatrix 1 2 [0; 3]) ∧ ncol mask = ncol (mkMatrix 1 2 [0; 3]) ∧
    ∀ p l, in_matrix (mkMatrix 1 2 [0; 3]) p → cell (mkMatrix 1 2 [0; 3]) p = Some l →
      ∃ t, rd [true; false] l = Some t ∧ cell mask p = Some t.
Proof.
  apply (create_clear_mask_defined (mkMatrix 1 2 [0; 3]) [true; false]).
  unfold wf_matrix. simpl. lia.
Defined.

(** X9.  For a matrix and a mask of the same extents,
    [clear_border_pixels] sets the cells under a true mask cell to [bgval]
    and leaves the others as they are; the extents are kept. *)
Theorem clear_border_pixels_masked {R : Type} (out : Matrix R) (mask : LogicalMatrix)
    (bgval : R) :
  wf_matrix out → wf_matrix mask →
  nrow mask = nrow out → ncol mask = ncol out →
  ∃ out', clear_border_pixels out mask bgval = Some out' ∧
    nrow out' = nrow out ∧ ncol out' = ncol out ∧
    ∀ p, in_matrix out p →
      (cell mask p = Some true ∧ cell out' p = Some bgval) ∨
      (cell mask p = Some false ∧ cell out' p = cell out p).
Proof.
  intros Hwf Hwfm Hr Hc. pose proof Hwf as (Hnr & Hnc & _).
  destruct (clear_border_pixels_spec (nrow out) (ncol out) out mask bgval)
    as (out' & Hout & (Hr' & Hc' & _) & Hcells); try done.
  exists out'. split; [done|]. split; [done|]. split; [done|].
  intros p Hp. destruct (Hcells p Hp) as (v & t & Hv & Ht & Hv').
  destruct t; [by left | right]. by rewrite Hv.
Qed.

Lemma clear_border_pixels_masked_witness :
  ∃ out', clear_border_pixels (mkMatrix 1 2 [4; 5]) (mkMatrix 1 2 [true; false]) 0
          = Some out' ∧
    nrow out' = nrow (mkMatrix 1 2 [4; 5]) ∧ ncol out' = ncol (mkMatrix 1 2 [4; 5]) ∧
    ∀ p, in_matrix (mkMatrix 1 2 [4; 5]) p →
      (cell (mkMatrix 1 2 [true; false]) p = Some true ∧ cell out' p = Some 0) ∨
      (cell (mkMatrix 1 2 [true; false]) p = Some false ∧
       cell out' p = cell (mkMatrix 1 2 [4; 5]) p).
Proof.
  apply (clear_border_pixels_masked (mkMatrix 1 2 [4; 5]) (mkMatrix 1 2 [true; false]) 0).
  - unfold wf_matrix. simpl. lia.
  - unfold wf_matrix. simpl. lia.
  - reflexivity.
  - reflexivity.
Defined.

(** ** [clear_border] as a whole *)

(** X10.  When the frame fits, [clear_border] returns a matrix of the
    input's extents in which every pixel of the border frame holds [bgval],
    and every pixel holds either its input value or [bgval]. *)
Theorem clear_border_clears_frame {R : Type} (is_zero : R → bool) (fuel : nat)
    (x : Matrix R) (buffer_size : Z) (bgval : R) :
  wf_matrix x → (2 * length (data x) + 1 < fuel)%nat →
  buffer_size + 1 ≤ nrow x → buffer_size + 1 ≤ ncol x →
  ∃ out, clear_border is_zero fuel x buffer_size bgval = Some out ∧
    nrow out = nrow x ∧ ncol out = ncol x ∧
    (∀ p, in_matrix x p → frame x buffer_size p → cell out p = Some bgval) ∧
    (∀ p, in_matrix x p → cell out p = cell x p ∨ cell out p = Some bgval).
Proof.
  intros Hwf Hfuel Her Hec.
  destruct (clear_border_stages is_zero fuel x buffer_size bgval Hwf Hfuel Her Hec)
    as (out & L & n & bi & Hcb & _ & (Hr & Hc & _) & _ & _ & _ & Hbi & Hcells).
  exists out. split; [done|]. split; [done|]. split; [done|]. split.
  - intros p Hp Hf. destruct (Hcells p Hp) as (v & l & Hv & Hl & ->).
    rewrite bool_decide_eq_true_2; [done|]. apply Hbi. by exists p.
  - intros p Hp. destruct (Hcells p Hp) as (v & l & Hv & Hl & ->).
    destruct (bool_decide (l ∈ bi)); [by right | by left].
Qed.

Lemma clear_border_clears_frame_witness :
  ∃ out, clear_border (Z.eqb 0) 20 two_component_raster 0 0 = Some out ∧
    nrow out = nrow two_component_raster ∧ ncol out = ncol two_component_raster ∧
    (∀ p, in_matrix two_component_raster p → frame two_component_raster 0 p →
       cell out p = Some 0) ∧
    (∀ p, in_matrix two_component_raster p →
       cell out p = cell two_component_raster p ∨ cell out p = Some 0).
Proof.
  apply (clear_border_clears_frame (Z.eqb 0) 20 two_component_raster 0 0).
  - unfold wf_matrix. simpl. lia.
  - simpl. lia.
  - simpl. lia.
  - simpl. lia.
Defined.

(** X11.  With a negative [buffer_size] the frame is empty and
    [clear_border] returns the raster as it is, whatever [bgval]. *)
Theorem clear_border_negative_buffer {R : Type} (is_zero : R → bool) (fuel : nat)
    (x : Matrix R) (buffer_size : Z) (bgval : R) :
  wf_matrix x → (2 * length (data x) + 1 < fuel)%nat →
  buffer_size < 0 →
  clear_border is_zero fuel x buffer_size bgval = Some x.
Proof.
  intros Hwf Hfuel Hneg. pose proof Hwf as (Hnr & Hnc & _).
  destruct (clear_border_stages is_zero fuel x buffer_size bgval Hwf Hfuel)
    as (out & L & n & bi & Hcb & _ & (Hr & Hc & Hwfo) & _ & _ & _ & Hbi & Hcells);
    [lia | lia |].
  rewrite Hcb. f_equal. apply matrix_ext; try done.
  intros p Hp. destruct (Hcells p Hp) as (v & l & Hv & Hl & ->).
  rewrite bool_decide_eq_false_2; [done|].
  intros (q & [Hqx Hqy] & Hf & _)%Hbi. unfold frame, in_frame in Hf. lia.
Qed.

Lemma clear_border_negative_buffer_witness :
  clear_border (Z.eqb 0) 20 two_component_raster (-1) 7 = Some two_component_raster.
Proof.
  apply (clear_border_negative_buffer (Z.eqb 0) 20 two_component_raster (-1) 7).
  - unfold wf_matrix. simpl. lia.
  - simpl. lia.
  - lia.
Defined.

(** X12.  When [buffer_size + 1] exceeds the row count of a raster that
    has a column, or the column count of a raster that has a row, the frame
    loops write to [borders] at a negative offset: the construction of the
    frame, and with it [clear_border], has no defined result, on any fuel. *)
Theorem clear_border_frame_too_large {R : Type} (is_zero : R → bool) (fuel : nat)
    (x : Matrix R) (buffer_size : Z) (bgval : R) :
  wf_matrix x →
  (nrow x < buffer_size + 1 ∧ 0 < ncol x) ∨ (ncol x < buffer_size + 1 ∧ 0 < nrow x) →
  border_frame_loops (λ i j b, mset b i j true) (nrow x) (ncol x) (buffer_size + 1)
    (new_matrix (nrow x) (ncol x) false) = None ∧
  clear_border is_zero fuel x buffer_size bgval = None.
Proof.
  intros (Hnr & Hnc & _) Hbig.
  assert (Hframe : border_frame_loops (λ i j b, mset b i j true) (nrow x) (ncol x)
                     (buffer_size + 1) (new_matrix (nrow x) (ncol x) false) = None).
  { set (I := λ b : LogicalMatrix, nrow b = nrow x).
    assert (Hset : ∀ b i j b', I b → mset b i j true = Some b' → I b').
    { intros b i j b' Hb Hm. unfold mset in Hm.
      destruct (wr (data b) (offset b i j) true); [|done].
      cbn [mbind option_bind] in Hm. by injection Hm as <-. }
    assert (Hneg : ∀ b i j, offset b i j < 0 → mset b i j true = None).
    { intros b i j Ho. unfold mset, wr.
      by replace (0 <=? offset b i j) with false by (symmetry; lia). }
    assert (Hrow1 : ∀ i t t', I t →
              for_ 0 (ncol x) (λ j s, s ← mset s i j true;
                                      mset s (nrow x - i - 1) j true) t = Some t' → I t').
    { intros i t t' Ht. apply for_keeps; [|done]. intros j u u' Hu Hb.
      destruct (mset u i j true) as [u1|] eqn:H1; [|done].
      cbn [mbind option_bind] in Hb. eapply Hset; [|done]. by eapply Hset. }
    assert (Hrow2 : ∀ i t t', I t →
              for_ 0 (nrow x) (λ j s, s ← mset s j i true;
                                      mset s j (ncol x - i - 1) true) t = Some t' → I t').
    { intros i t t' Ht. apply for_keeps; [|done]. intros j u u' Hu Hb.
      destruct (mset u j i true) as [u1|] eqn:H1; [|done].
      cbn [mbind option_bind] in Hb. eapply Hset; [|done]. by eapply Hset. }
    unfold border_frame_loops.
    destruct (decide (nrow x < buffer_size + 1 ∧ 0 < ncol x)) as [[Hr Hc]|Hno].
    - rewrite (for_fails I _ 0 (buffer_size + 1) (nrow x)); [done | | | lia | done].
      + intros i t t' Ht. apply Hrow1. done.
      + intros t Ht. apply (for_fails I _ 0 (ncol x) 0); [| | lia | done].
        * intros j u u' Hu Hb.
          destruct (mset u (nrow x) j true) as [u1|] eqn:H1; [|done].
          cbn [mbind option_bind] in Hb. eapply Hset; [|done]. by eapply Hset.
        * intros u Hu. destruct (mset u (nrow x) 0 true) as [u1|] eqn:H1; [|done].
          cbn [mbind option_bind]. apply Hneg. unfold offset. lia.
    - assert (Hc : ncol x < buffer_size + 1 ∧ 0 < nrow x) by tauto.
      destruct Hc as [Hc Hr].
      destruct (for_ 0 (buffer_size + 1) _ (new_matrix (nrow x) (ncol x) false))
        as [b1|] eqn:H1; [|done].
      cbn [mbind option_bind].
      assert (Hb1 : I b1).
      { revert H1. apply for_keeps; [|done]. intros i t t' Ht. by apply Hrow1. }
      apply (for_fails I _ 0 (buffer_size + 1) (ncol x)); [| | lia | done].
      + intros i t t' Ht. by apply Hrow2.
      + intros t Ht. apply (for_fails I _ 0 (nrow x) 0); [| | lia | done].
        * intros j u u' Hu Hb.
          destruct (mset u j (ncol x) true) as [u1|] eqn:H2; [|done].
          cbn [mbind option_bind] in Hb. eapply Hset; [|done]. by eapply Hset.
        * intros u Hu. destruct (mset u 0 (ncol x) true) as [u1|] eqn:H2; [|done].
          cbn [mbind option_bind]. apply Hneg.
          assert (I u1) as Hu1 by (by eapply Hset). unfold I in Hu1.
          unfold offset. rewrite Hu1. lia. }
  split; [done|]. unfold clear_border. cbv zeta. by rewrite Hframe.
Qed.

Lemma clear_border_frame_too_large_witness :
  border_frame_loops (λ i j b, mset b i j true) (nrow two_component_raster)
    (ncol two_component_raster) (3 + 1)
    (new_matrix (nrow two_component_raster) (ncol two_component_raster) false) = None ∧
  clear_border (Z.eqb 0) 20 two_component_raster 3 0 = None.
Proof.
  apply (clear_border_frame_too_large (Z.eqb 0) 20 two_component_raster 3 0).
  - unfold wf_matrix. simpl. lia.
  - left. simpl. lia.
Defined.

(** X13.  With a zero [bgval], clearing a second time changes no nonzero
    pixel: every pixel of the second result holds the value it had in the
    first, unless that value was a zero, which may have become [bgval]. *)
Theorem clear_border_twice {R : Type} (is_zero : R → bool) (fuel : nat)
    (x : Matrix R) (buffer_size : Z) (bgval : R) :
  wf_matrix x → (2 * length (data x) + 1 < fuel)%nat →
  buffer_size + 1 ≤ nrow x → buffer_size + 1 ≤ ncol x →
  is_zero bgval = true →
  ∃ out out',
    clear_border is_zero fuel x buffer_size bgval = Some out ∧
    clear_border is_zero fuel out buffer_size bgval = Some out' ∧
    ∀ p, in_matrix x p →
      ∃ v v', cell out p = Some v ∧ cell out' p = Some v' ∧
        (v' = v ∨ (is_zero v = true ∧ v' = bgval)).
Proof.
  intros Hwf Hfuel Her Hec Hbg.
  destruct (clear_border_stages is_zero fuel x buffer_size bgval Hwf Hfuel Her Hec)
    as (out & L & n & bi & Hcb & _ & (Hr & Hc & Hwfo) & _ & _ & _ & Hbi & Hcells).
  assert (Hlen : length (data out) = length (data x)).
  { destruct Hwf as (_ & _ & Hl), Hwfo as (_ & _ & Hl'). rewrite Hr, Hc in Hl'. lia. }
  assert (Hfuel' : (2 * length (data out) + 1 < fuel)%nat) by lia.
  assert (Her' : buffer_size + 1 ≤ nrow out) by lia.
  assert (Hec' : buffer_size + 1 ≤ ncol out) by lia.
  assert (Hframe : ∀ q, in_matrix out q → frame out buffer_size q → ¬ foreground is_zero out q).
  { intros q Hq Hf (_ & w & Hw & Hz).
    assert (Hq' : in_matrix x q) by (unfold in_matrix in *; lia).
    destruct (Hcells q Hq') as (v & l & Hv & Hl & Ho).
    rewrite bool_decide_eq_true_2 in Ho.
    - unfold cell in Ho. congruence.
    - apply Hbi. exists q. split; [done|]. split; [|done].
      unfold frame in *. by rewrite <- Hr, <- Hc. }
  destruct (clear_border_foreground is_zero fuel out buffer_size bgval Hwfo Hfuel' Her' Hec')
    as (out' & Hcb' & Hfg).
  destruct (clear_border_stages is_zero fuel out buffer_size bgval Hwfo Hfuel' Her' Hec')
    as (out2 & L2 & n2 & bi2 & Hcb2 & _ & _ & _ & _ & _ & _ & Hcells2).
  assert (out2 = out') as -> by congruence.
  exists out, out'. split; [done|]. split; [done|]. intros p Hp.
  assert (Hp' : in_matrix out p) by (unfold in_matrix in *; lia).
  destruct (Hcells2 p Hp') as (v & l & Hv & Hl & Ho). exists v. eexists.
  split; [done|]. split; [exact Ho|].
  destruct (is_zero v) eqn:Hz.
  - destruct (bool_decide (l ∈ bi2)); [by right | by left].
  - left. assert (Hpf : foreground is_zero out p).
    { split; [done|]. exists v. done. }
    destruct (Hfg p Hpf) as [_ Hkeep]. rewrite Hkeep in Ho; [congruence|].
    intros q Hconn Hf. apply (Hframe q); [| done |].
    + by destruct (conn_end _ _ _ Hconn).
    + by apply (conn_end _ _ _ Hconn).
Qed.

Lemma clear_border_twice_witness :
  ∃ out out',
    clear_border (Z.eqb 0) 20 two_component_raster 0 0 = Some out ∧
    clear_border (Z.eqb 0) 20 out 0 0 = Some out' ∧
    ∀ p, in_matrix two_component_raster p →
      ∃ v v', cell out p = Some v ∧ cell out' p = Some v' ∧
        (v' = v ∨ ((0 =? v) = true ∧ v' = 0)).
Proof.
  apply (clear_border_twice (Z.eqb 0) 20 two_component_raster 0 0).
  - unfold wf_matrix. simpl. lia.
  - simpl. lia.
  - simpl. lia.
  - simpl. lia.
  - reflexivity.
Defined.

(** ** The functions composed: label, box, select *)

Section Pipeline.
Context {R : Type} (is_zero : R → bool) (fuel : nat) (x : Matrix R).
Context (L : IntegerMatrix) (n : Z).
Hypothesis Hwf : wf_matrix x.
Hypothesis Hfuel : (2 * length (data x) + 1 < fuel)%nat.
Hypothesis Hbw : bwlabel is_zero fuel x = Some (L, n).

Lemma labelled :
  nrow L = nrow x ∧ ncol L = ncol x ∧ wf_matrix L ∧ 0 ≤ n ∧
  lab_inv is_zero (data x) (XY (nrow x) (ncol x)) (nrow x * ncol x) (data L) (n + 1).
Proof.
  destruct (bwlabel_lab_inv is_zero x Hwf fuel Hfuel) as (L' & n' & Hbw' & HnL & HcL & Hinv).
  assert (L' = L ∧ n' = n) as [-> ->] by (split; congruence).
  split; [done|]. split; [done|]. split.
  - destruct Hinv as (Hg & _). destruct Hwf as (? & ? & _).
    unfold wf_matrix, grid in *. cbn [xx yy] in Hg. rewrite HnL, HcL. done.
  - split; [|done]. destruct Hinv as (_ & ? & _). lia.
Qed.

Lemma label_occurs (l : Z) :
  1 ≤ l ≤ n → ∃ p, in_matrix L p ∧ cell L p = Some l.
Proof.
  intros Hl. destruct labelled as (HnL & HcL & _ & _ & Hinv).
  destruct (final_first is_zero x L n Hinv l Hl) as (i & Hi & _).
  destruct (final_position is_zero x Hwf L n HnL Hinv _ _ Hi) as (p & Hp & Hc & _).
  exists p. split; [|done]. unfold in_matrix in *. lia.
Qed.

(** The boxes of a label grid that [bwlabel] made. *)
Lemma labelled_boxes :
  ∃ bboxes, regionprops_bbox L n = Some bboxes ∧ shape n 4 bboxes ∧
    ∀ l, 1 ≤ l ≤ n →
      ∃ a b c d,
        cell bboxes (XY (l - 1) 0) = Some a ∧ cell bboxes (XY (l - 1) 1) = Some b ∧
        cell bboxes (XY (l - 1) 2) = Some c ∧ cell bboxes (XY (l - 1) 3) = Some d ∧
        0 ≤ a ∧ a ≤ b ∧ b < nrow x ∧ 0 ≤ c ∧ c ≤ d ∧ d < ncol x ∧
        (∀ p, in_matrix L p → cell L p = Some l →
           a ≤ xx p ≤ b ∧ c ≤ yy p ≤ d) ∧
        attained L l xx a ∧ attained L l xx b ∧
        attained L l yy c ∧ attained L l yy d.
Proof.
  destruct labelled as (HnL & HcL & HwfL & Hn & Hinv).
  destruct (regionprops_bbox_rows L HwfL n Hn) as (B & HB & Hs & Hrows).
  exists B. split; [done|]. split; [done|]. intros l Hl.
  destruct (Hrows l Hl) as (a & b & c & d & H0 & H1 & H2 & H3 & Hsome & _).
  destruct (Hsome (label_occurs l Hl)) as (Hin & Ha & Hb & Hc & Hd).
  exists a, b, c, d. do 4 (split; [done|]).
  assert (Hbounds : 0 ≤ a ∧ a ≤ b ∧ b < nrow x ∧ 0 ≤ c ∧ c ≤ d ∧ d < ncol x).
  { destruct Ha as (pa & [Hpa _] & Hla & Hea).
    destruct Hb as (pb & [Hpb Hpb'] & Hlb & Heb).
    destruct Hc as (pc & [_ Hpc] & Hlc & Hec).
    destruct Hd as (pd & [Hpd' Hpd] & Hld & Hed).
    destruct (Hin pb (conj Hpb Hpb') Hlb) as [? _].
    destruct (Hin pd (conj Hpd' Hpd) Hld) as [_ ?]. lia. }
  destruct Hbounds as (? & ? & ? & ? & ? & ?). done.
Qed.
End Pipeline.

(** The ranges of a table that [regionprops_bbox] makes for a grid with
    [int] extents fit an [int]: a row holds bounds inside the grid, or NA
    four times. *)
Lemma regionprops_bbox_ranges_fit (li : IntegerMatrix) (n : Z) (B : IntegerMatrix) :
  wf_matrix li → in_int (nrow li) → in_int (ncol li) → 0 ≤ n →
  regionprops_bbox li n = Some B → ranges_fit B.
Proof.
  intros Hwf Hnr Hnc Hn HB.
  destruct (regionprops_bbox_rows li Hwf n Hn) as (B' & HB' & (Hr & _) & Hrows).
  assert (B' = B) as -> by congruence.
  intros i x_min x_max y_min y_max Hi H0 H1 H2 H3.
  destruct (Hrows (i + 1)) as (a & b & c & d & Ha & Hb & Hc & Hd & Hsome & Hnone); [lia|].
  replace (i + 1 - 1) with i in * by lia.
  assert (a = x_min ∧ b = x_max ∧ c = y_min ∧ d = y_max) as (-> & -> & -> & ->)
    by (repeat split; congruence).
  unfold in_int in *.
  destruct (decide (i + 1 ∈ data li)) as [Hin|Hnin].
  - apply (elem_cell li _ Hwf) in Hin.
    destruct (Hsome Hin) as (_ & (pa & [? ?] & _ & <-) & (pb & [? ?] & _ & <-)
                             & (pc & [? ?] & _ & <-) & (pd & [? ?] & _ & <-)).
    lia.
  - destruct Hnone as (-> & -> & -> & ->); [|lia].
    intros p _ Hc'. apply Hnin. by apply (cell_elem li p).
Qed.

(** X14.  [regionprops_bbox] applied to the pair that [bwlabel] returns
    gives, for every label, a row of real bounds (never the NA sentinel) with
    [0 <= row_min <= row_max < nrow] and [0 <= col_min <= col_max < ncol]. *)
Theorem bwlabel_boxes_in_bounds {R : Type} (is_zero : R → bool) (fuel : nat)
    (x : Matrix R) (L : IntegerMatrix) (n : Z) :
  wf_matrix x → (2 * length (data x) + 1 < fuel)%nat →
  bwlabel is_zero fuel x = Some (L, n) →
  ∃ bboxes, regionprops_bbox L n = Some bboxes ∧
    nrow bboxes = n ∧ ncol bboxes = 4 ∧
    ∀ l, 1 ≤ l ≤ n →
      ∃ row_min row_max col_min col_max,
        cell bboxes (XY (l - 1) 0) = Some row_min ∧
        cell bboxes (XY (l - 1) 1) = Some row_max ∧
        cell bboxes (XY (l - 1) 2) = Some col_min ∧
        cell bboxes (XY (l - 1) 3) = Some col_max ∧
        0 ≤ row_min ∧ row_min ≤ row_max ∧ row_max < nrow x ∧
        0 ≤ col_min ∧ col_min ≤ col_max ∧ col_max < ncol x.
Proof.
  intros Hwf Hfuel Hbw.
  destruct (labelled_boxes is_zero fuel x L n Hwf Hfuel Hbw)
    as (B & HB & (Hr & Hc & _) & Hrows).
  exists B. split; [done|]. split; [done|]. split; [done|]. intros l Hl.
  destruct (Hrows l Hl) as (a & b & c & d & H0 & H1 & H2 & H3 & ? & ? & ? & ? & ? & ? & _).
  exists a, b, c, d. done.
Qed.

Lemma bwlabel_boxes_in_bounds_witness :
  ∃ bboxes, regionprops_bbox (mkMatrix 2 2 [1; 0; 0; 2]) 2 = Some bboxes ∧
    nrow bboxes = 2 ∧ ncol bboxes = 4 ∧
    ∀ l, 1 ≤ l ≤ 2 →
      ∃ row_min row_max col_min col_max,
        cell bboxes (XY (l - 1) 0) = Some row_min ∧
        cell bboxes (XY (l - 1) 1) = Some row_max ∧
        cell bboxes (XY (l - 1) 2) = Some col_min ∧
        cell bboxes (XY (l - 1) 3) = Some col_max ∧
        0 ≤ row_min ∧ row_min ≤ row_max ∧ row_max < nrow diagonal_raster ∧
        0 ≤ col_min ∧ col_min ≤ col_max ∧ col_max < ncol diagonal_raster.
Proof.
  apply (bwlabel_boxes_in_bounds (Z.eqb 0) 10 diagonal_raster).
  - unfold wf_matrix. simpl. lia.
  - simpl. lia.
  - vm_compute. reflexivity.
Defined.

(** X15.  Labelling, boxing and selecting compose.  For a raster with a
    nonzero cell, [process_lung_regions] applied to the label grid of
    [bwlabel] and the boxes of [regionprops_bbox] returns normally and without
    a warning; the candidates are the labels no two pixels of which are 350
    or more rows, or 350 or more columns, apart ([row_max - row_min < 350] and
    [col_max - col_min < 350]: a label covering exactly 350 rows is still a
    candidate); with at most two candidates all are kept, with more the two
    of largest area (the first of each in candidate order); a pixel keeps
    its label if the label is kept and becomes 0 otherwise.  The extents of
    the raster are [int]s. *)
Theorem label_box_select {R : Type} (is_zero : R → bool) (fuel : nat)
    (x : Matrix R) (L : IntegerMatrix) (n : Z) :
  wf_matrix x → in_int (nrow x) → in_int (ncol x) →
  (2 * length (data x) + 1 < fuel)%nat →
  bwlabel is_zero fuel x = Some (L, n) → 1 ≤ n →
  ∃ bboxes out kept,
    regionprops_bbox L n = Some bboxes ∧
    process_lung_regions L bboxes = Return (out, kept) [] ∧
    (∀ l, l ∈ candidates bboxes ↔ 1 ≤ l ≤ n ∧ compact L l) ∧
    ((length (candidates bboxes) ≤ 2)%nat → kept = candidates bboxes) ∧
    ((2 < length (candidates bboxes))%nat →
       ∃ l1 l2, kept = [l1; l2] ∧ top_two (area L) (candidates bboxes) l1 l2) ∧
    ∀ p l, in_matrix L p → cell L p = Some l →
      cell out p = Some (if bool_decide (l ∈ kept) then l else 0).
Proof.
  intros Hwf Hnr Hnc Hfuel Hbw Hn1.
  destruct (labelled is_zero fuel x L n Hwf Hfuel Hbw) as (HnL & HcL & HwfL & Hn & Hinv).
  destruct (labelled_boxes is_zero fuel x L n Hwf Hfuel Hbw)
    as (B & HB & (Hr & Hc & HwfB) & Hrows).
  destruct (process_lung_regions_spec L B HwfL HwfB Hc) as
    (out & kept & Hp & Hmany & Hfew & _ & _ & Hcells).
  { lia. }
  { intros v Hv. rewrite Hr. by apply (final_range is_zero x Hwf L n HnL Hinv). }
  exists B, out, kept. split; [done|]. split; [done|]. split; [|done].
  intros l. unfold candidates. rewrite list_elem_of_filter, elem_of_seqZ, Hr.
  split.
  - intros [Hpass Hl]. assert (Hl' : 1 ≤ l ≤ n) by lia. split; [done|].
    destruct (Hrows l Hl') as (a & b & c & d & H0 & H1 & H2 & H3
                               & ? & ? & ? & ? & ? & ? & Hin & _).
    apply (passes_exact B l a b c d H0 H1 H2 H3) in Hpass as [Hx Hy];
      [|unfold in_int in *; lia..].
    intros p q Hp' Hq Hlp Hlq.
    destruct (Hin p Hp' Hlp), (Hin q Hq Hlq). lia.
  - intros [Hl Hcomp]. split; [|lia].
    destruct (Hrows l Hl) as (a & b & c & d & H0 & H1 & H2 & H3
                              & ? & ? & ? & ? & ? & ? & _ & Ha & Hb & Hc' & Hd).
    apply (passes_exact B l a b c d H0 H1 H2 H3); [unfold in_int in *; lia..|].
    destruct Ha as (pa & Hpa & Hla & <-). destruct Hb as (pb & Hpb & Hlb & <-).
    destruct Hc' as (pc & Hpc & Hlc & <-). destruct Hd as (pd & Hpd & Hld & <-).
    destruct (Hcomp pa pb Hpa Hpb Hla Hlb) as [? _].
    destruct (Hcomp pc pd Hpc Hpd Hlc Hld) as [_ ?].
    lia.
Qed.

Lemma label_box_select_witness :
  ∃ bboxes out kept,
    regionprops_bbox (mkMatrix 2 2 [1; 0; 0; 2]) 2 = Some bboxes ∧
    process_lung_regions (mkMatrix 2 2 [1; 0; 0; 2]) bboxes = Return (out, kept) [] ∧
    (∀ l, l ∈ candidates bboxes ↔ 1 ≤ l ≤ 2 ∧ compact (mkMatrix 2 2 [1; 0; 0; 2]) l) ∧
    ((length (candidates bboxes) ≤ 2)%nat → kept = candidates bboxes) ∧
    ((2 < length (candidates bboxes))%nat →
       ∃ l1 l2, kept = [l1; l2] ∧
         top_two (area (mkMatrix 2 2 [1; 0; 0; 2])) (candidates bboxes) l1 l2) ∧
    ∀ p l, in_matrix (mkMatrix 2 2 [1; 0; 0; 2]) p →
      cell (mkMatrix 2 2 [1; 0; 0; 2]) p = Some l →
      cell out p = Some (if bool_decide (l ∈ kept) then l else 0).
Proof.
  apply (label_box_select (Z.eqb 0) 10 diagonal_raster).
  - unfold wf_matrix. simpl. lia.
  - unfold in_int. simpl. lia.
  - unfold in_int. simpl. lia.
  - simpl. lia.
  - vm_compute. reflexivity.
  - lia.
Defined.

(** X16.  For an all-zero raster the same composition stops: [bwlabel]
    counts 0 labels, [regionprops_bbox] returns a table without rows, and
    [process_lung_regions] stops with "No regions provided". *)
Theorem label_box_select_empty {R : Type} (is_zero : R → bool) (fuel : nat)
    (x : Matrix R) :
  wf_matrix x → (2 * length (data x) + 1 < fuel)%nat →
  (∀ v, v ∈ data x → is_zero v = true) →
  ∃ L bboxes,
    bwlabel is_zero fuel x = Some (L, 0) ∧
    regionprops_bbox L 0 = Some bboxes ∧
    process_lung_regions L bboxes = Stop "process_lung_regions: No regions provided.".
Proof.
  intros Hwf Hfuel Hz.
  destruct (bwlabel_lab_inv is_zero x Hwf fuel Hfuel) as (L & n & Hbw & HnL & HcL & Hinv).
  destruct (final_all_zero is_zero x Hwf L n HnL Hinv Hz) as [-> _].
  exists L, (new_matrix 0 4 0). split; [done|]. split; [done|]. done.
Qed.

Lemma label_box_select_empty_witness :
  ∃ L bboxes,
    bwlabel (Z.eqb 0) 10 (mkMatrix 1 2 [0; 0]) = Some (L, 0) ∧
    regionprops_bbox L 0 = Some bboxes ∧
    process_lung_regions L bboxes = Stop "process_lung_regions: No regions provided.".
Proof.
  apply (label_box_select_empty (Z.eqb 0) 10 (mkMatrix 1 2 [0; 0])).
  - unfold wf_matrix. simpl. lia.
  - simpl. lia.
  - intros v Hv. simpl in Hv.
    apply elem_of_cons in Hv as [->|Hv]; [reflexivity|].
    apply elem_of_cons in Hv as [->|Hv]; [reflexivity|].
    by apply elem_of_nil in Hv.
Defined.

(** ** Loops that stop *)

Lemma forR_up_stops {St : Type} (I : St → Prop) (body : Z → St → result St)
    (msg : string) (n : nat) (lo k : Z) (s : St) :
  (∀ i t, lo ≤ i < lo + Z.of_nat n → I t →
     (∃ t', body i t = Return t' [] ∧ I t') ∨ body i t = Stop msg) →
  (∀ t, I t → body k t = Stop msg) →
  lo ≤ k < lo + Z.of_nat n → I s → forR_up n lo body s = Stop msg.
Proof.
  intros Hstep Hk. revert lo s Hstep.
  induction n as [|n IH]; intros lo s Hstep Hr Hs; [lia|].
  cbn [forR_up]. destruct (decide (k = lo)) as [->|Hne].
  - by rewrite (Hk s Hs).
  - destruct (Hstep lo s) as [(t' & -> & Ht')| ->]; [lia | done | | done].
    rewrite result_bind_ret. apply IH; [|lia | done].
    intros i t Hi. apply Hstep. lia.
Qed.

Lemma forR_stops {St : Type} (I : St → Prop) (body : Z → St → result St)
    (msg : string) (lo hi k : Z) (s : St) :
  (∀ i t, lo ≤ i < hi → I t →
     (∃ t', body i t = Return t' [] ∧ I t') ∨ body i t = Stop msg) →
  (∀ t, I t → body k t = Stop msg) →
  lo ≤ k < hi → I s → forR lo hi body s = Stop msg.
Proof.
  intros Hstep Hk Hr Hs. apply (forR_up_stops I _ msg _ lo k); [|done | lia | done].
  intros i t Hi. apply Hstep. lia.
Qed.

Lemma forR_up_returns_or_stops {St : Type} (I : St → Prop)
    (body : Z → St → result St) (msg : string) (n : nat) (lo : Z) (s : St) :
  (∀ i t, lo ≤ i < lo + Z.of_nat n → I t →
     (∃ t', body i t = Return t' [] ∧ I t') ∨ body i t = Stop msg) →
  I s →
  (∃ s', forR_up n lo body s = Return s' [] ∧ I s') ∨ forR_up n lo body s = Stop msg.
Proof.
  revert lo s. induction n as [|n IH]; intros lo s Hstep Hs; [left; by exists s|].
  cbn [forR_up]. destruct (Hstep lo s) as [(t' & -> & Ht')| ->]; [lia | done | | by right].
  rewrite result_bind_ret. apply IH; [|done]. intros i t Hi. apply Hstep. lia.
Qed.

Lemma forR_returns_or_stops {St : Type} (I : St → Prop)
    (body : Z → St → result St) (msg : string) (lo hi : Z) (s : St) :
  (∀ i t, lo ≤ i < hi → I t →
     (∃ t', body i t = Return t' [] ∧ I t') ∨ body i t = Stop msg) →
  I s →
  (∃ s', forR lo hi body s = Return s' [] ∧ I s') ∨ forR lo hi body s = Stop msg.
Proof.
  intros Hstep Hs. apply forR_up_returns_or_stops; [|done].
  intros i t Hi. apply Hstep. lia.
Qed.

(** X17.  When some pixel of the label grid carries a label above the
    number of rows of the region table, and the table has a row,
    [process_lung_regions] stops with "Detected a label greater than
    available regions", whatever the table holds. *)
Theorem process_lung_regions_label_overflow (label_image regions : IntegerMatrix) :
  wf_matrix label_image → 0 < nrow regions →
  (∃ v, v ∈ data label_image ∧ nrow regions < v) →
  process_lung_regions label_image regions
  = Stop "process_lung_regions: Detected a label greater than available regions.".
Proof.
  intros Hwf Hn (v & Hv & Hbig).
  destruct (elem_cell label_image v Hwf Hv) as ([i0 j0] & [Hi0 Hj0] & Hc0).
  cbn [xx yy] in Hi0, Hj0. unfold cell in Hc0. cbn [xx yy] in Hc0.
  unfold process_lung_regions. cbv zeta.
  replace (nrow regions =? 0) with false by (symmetry; lia).
  set (msg := "process_lung_regions: Detected a label greater than available regions.").
  set (I := λ ra : list Z, length ra = Z.to_nat (nrow regions)).
  assert (Hcell : ∀ i j t, 0 ≤ i < nrow label_image → 0 ≤ j < ncol label_image → I t →
            (∃ t', (label ← lift (mget label_image i j);
                    if 0 <? label then
                      if nrow regions <? label then Stop msg
                      else a ← lift (rd t (label - 1));
                           lift (wr t (label - 1) (a + 1))
                    else Return t []) = Return t' [] ∧ I t') ∨
            (label ← lift (mget label_image i j);
             if 0 <? label then
               if nrow regions <? label then Stop msg
               else a ← lift (rd t (label - 1));
                    lift (wr t (label - 1) (a + 1))
             else Return t []) = Stop msg).
  { intros i j t Hi Hj Ht.
    destruct (in_matrix_cell label_image (XY i j) Hwf) as [l Hl]; [done|].
    unfold cell in Hl. cbn [xx yy] in Hl. rewrite Hl. cbn [lift].
    rewrite result_bind_ret.
    destruct (Z.ltb_spec 0 l); [|left; by exists t].
    destruct (Z.ltb_spec (nrow regions) l); [by right|]. left.
    destruct (rd_is_Some t (l - 1)) as [a Ha]; [unfold I in Ht; lia|].
    rewrite Ha. cbn [lift]. rewrite result_bind_ret.
    rewrite (wr_is_Some t (l - 1) (a + 1)) by (unfold I in Ht; lia).
    eexists. split; [done|]. unfold I. by rewrite length_insert. }
  rewrite (forR_stops I _ msg 0 (nrow label_image) i0); [done | | | done | ].
  - intros i t Hi Ht. apply (forR_returns_or_stops I); [|done].
    intros j u Hj Hu. by apply Hcell.
  - intros t Ht. apply (forR_stops I _ msg 0 (ncol label_image) j0); [| | done | done].
    + intros j u Hj Hu. by apply Hcell.
    + intros u Hu. rewrite Hc0. cbn [lift]. rewrite result_bind_ret.
      replace (0 <? v) with true by (symmetry; lia).
      by replace (nrow regions <? v) with true by (symmetry; lia).
  - unfold I. by rewrite length_replicate.
Qed.

Lemma process_lung_regions_label_overflow_witness :
  process_lung_regions (mkMatrix 1 2 [1; 4]) three_region_bboxes
  = Stop "process_lung_regions: Detected a label greater than available regions.".
Proof.
  apply (process_lung_regions_label_overflow (mkMatrix 1 2 [1; 4]) three_region_bboxes).
  - unfold wf_matrix. simpl. lia.
  - simpl. lia.
  - exists 4. split; [|simpl; lia]. simpl. apply elem_of_cons. right.
    apply elem_of_cons. by left.
Defined.

(** ** The candidate list ascends *)

Lemma filter_seqZ_ascending (P : Z → Prop) `{∀ x, Decision (P x)} (k : nat) (m : Z)
    (i j : nat) (a b : Z) :
  filter P (seqZ m (Z.of_nat k)) !! i = Some a →
  filter P (seqZ m (Z.of_nat k)) !! j = Some b →
  (i < j)%nat → a < b.
Proof.
  revert m i j. induction k as [|k IH]; intros m i j Ha Hb Hij.
  - rewrite seqZ_nil in Ha by lia. by rewrite filter_nil, lookup_nil in Ha.
  - rewrite seqZ_cons in Ha, Hb by lia.
    replace (Z.pred (Z.of_nat (S k))) with (Z.of_nat k) in Ha, Hb by lia.
    rewrite filter_cons in Ha, Hb. destruct (decide (P m)).
    + destruct i as [|i], j as [|j]; try lia.
      * cbn in Ha. injection Ha as <-. cbn in Hb.
        apply list_elem_of_lookup_2, list_elem_of_filter in Hb as [_ Hb].
        apply elem_of_seqZ in Hb. lia.
      * cbn in Ha, Hb. apply (IH (Z.succ m) i j); [done | done | lia].
    + by apply (IH (Z.succ m) i j).
Qed.

Lemma candidates_ascending (regions : IntegerMatrix) (l1 l2 : Z) :
  candidates regions = [l1; l2] → l1 < l2.
Proof.
  intros Hc. unfold candidates in Hc.
  destruct (Z.le_gt_cases 0 (nrow regions)) as [Hn|Hn].
  - rewrite <- (Z2Nat.id (nrow regions)) in Hc by done.
    apply (filter_seqZ_ascending (λ l, passes regions l = true)
             (Z.to_nat (nrow regions)) 1 0%nat 1%nat); [by rewrite Hc.. | lia].
  - rewrite seqZ_nil in Hc by lia. done.
Qed.

(** X18.  For a table whose ranges fit an [int] (no range subtraction
    overflows) and with exactly two candidates, [process_lung_regions] keeps
    both, in ascending label order whatever their areas (no ranking takes
    place), and resets exactly the pixels of the other labels. *)
Theorem process_lung_regions_two_candidates (label_image regions : IntegerMatrix) :
  wf_matrix label_image → wf_matrix regions → ncol regions = 4 →
  0 < nrow regions →
  (∀ v, v ∈ data label_image → 0 ≤ v ≤ nrow regions) →
  ranges_fit regions →
  length (candidates regions) = 2%nat →
  ∃ out l1 l2,
    process_lung_regions label_image regions = Return (out, [l1; l2]) [] ∧
    candidates regions = [l1; l2] ∧ l1 < l2 ∧
    ∀ p v, in_matrix label_image p → cell label_image p = Some v →
      cell out p = Some (if bool_decide (v = l1 ∨ v = l2) then v else 0).
Proof.
  intros Hwf Hwfr Hc4 Hn Hvalid _ Hlen.
  destruct (process_lung_regions_spec label_image regions Hwf Hwfr Hc4 Hn Hvalid)
    as (out & kept & Hp & _ & Hfew & _ & _ & Hcells).
  rewrite Hfew in Hp, Hcells by lia.
  destruct (candidates regions) as [|l1 [|l2 [|]]] eqn:Hc; try done.
  exists out, l1, l2. split; [done|]. split; [done|].
  split; [by apply (candidates_ascending regions)|].
  intros p v Hip Hv. rewrite (Hcells p v Hip Hv). f_equal.
  apply (f_equal (λ b : bool, if b then v else 0)). apply bool_decide_ext.
  rewrite !elem_of_cons, elem_of_nil. tauto.
Qed.

Lemma process_lung_regions_two_candidates_witness :
  ∃ out l1 l2,
    process_lung_regions (mkMatrix 1 3 [1; 2; 2])
      (mkMatrix 2 4 [0; 0;  0; 0;  0; 1;  0; 2]) = Return (out, [l1; l2]) [] ∧
    candidates (mkMatrix 2 4 [0; 0;  0; 0;  0; 1;  0; 2]) = [l1; l2] ∧ l1 < l2 ∧
    ∀ p v, in_matrix (mkMatrix 1 3 [1; 2; 2]) p →
      cell (mkMatrix 1 3 [1; 2; 2]) p = Some v →
      cell out p = Some (if bool_decide (v = l1 ∨ v = l2) then v else 0).
Proof.
  apply (process_lung_regions_two_candidates (mkMatrix 1 3 [1; 2; 2])
           (mkMatrix 2 4 [0; 0;  0; 0;  0; 1;  0; 2])).
  - unfold wf_matrix. simpl. lia.
  - unfold wf_matrix. simpl. lia.
  - reflexivity.
  - simpl. lia.
  - intros v Hv. simpl in *.
    repeat (apply elem_of_cons in Hv as [->|Hv]; [lia|]).
    by apply elem_of_nil in Hv.
  - intros i x_min x_max y_min y_max Hi H0 H1 H2 H3. simpl in Hi.
    assert (Hrow : i = 0 ∨ i = 1) by lia.
    destruct Hrow as [-> | ->]; vm_compute in H0, H1, H2, H3;
      simplify_eq; unfold in_int; lia.
  - vm_compute. reflexivity.
Defined.

(** ** [filter_lung_regions] called on its own *)

Lemma validation_loop (region_areas valid_regions : list Z) :
  foreachR valid_regions (λ label (_ : unit),
    if (label <=? 0) || (Z.of_nat (length region_areas) <? label)
    then Stop "filter_lung_regions: Invalid label found in valid_regions."
    else Return tt []) tt
  = if bool_decide (Forall (λ l, 1 ≤ l ≤ Z.of_nat (length region_areas)) valid_regions)
    then Return tt []
    else Stop "filter_lung_regions: Invalid label found in valid_regions.".
Proof.
  induction valid_regions as [|l v IH]; [done|]. cbn [foreachR].
  destruct (Z.leb_spec l 0) as [Hl|Hl]; cbn [orb].
  - rewrite bool_decide_eq_false_2; [done|]. intros [? _]%Forall_cons. lia.
  - destruct (Z.ltb_spec (Z.of_nat (length region_areas)) l) as [Hb|Hb].
    + rewrite bool_decide_eq_false_2; [done|]. intros [? _]%Forall_cons. lia.
    + rewrite result_bind_ret, IH.
      destruct (decide (Forall (λ l, 1 ≤ l ≤ Z.of_nat (length region_areas)) v)) as [Hv|Hv].
      * rewrite (bool_decide_eq_true_2 _ Hv).
        rewrite bool_decide_eq_true_2; [done|]. constructor; [lia | done].
      * rewrite (bool_decide_eq_false_2 _ Hv).
        rewrite bool_decide_eq_false_2; [done|]. by intros [_ ?]%Forall_cons.
Qed.

(** X19.  [filter_lung_regions] stops on bad input: with "Empty input
    vectors detected" when either vector is empty, and with "Invalid label
    found in valid_regions" when both are non-empty and some listed label
    lies outside [1 .. length region_areas]. *)
Theorem filter_lung_regions_rejects (valid_regions region_areas : list Z) :
  (valid_regions = [] ∨ region_areas = [] →
     filter_lung_regions valid_regions region_areas
     = Stop "filter_lung_regions: Empty input vectors detected.") ∧
  (valid_regions ≠ [] → region_areas ≠ [] →
     (∃ l, l ∈ valid_regions ∧ (l ≤ 0 ∨ Z.of_nat (length region_areas) < l)) →
     filter_lung_regions valid_regions region_areas
     = Stop "filter_lung_regions: Invalid label found in valid_regions.").
Proof.
  split.
  - intros He. unfold filter_lung_regions.
    destruct He as [-> | ->]; [done|]. by rewrite orb_true_r.
  - intros Hv Ha (l & Hl & Hbad). unfold filter_lung_regions.
    rewrite (bool_decide_eq_false_2 _ Hv), (bool_decide_eq_false_2 _ Ha).
    cbn [orb]. rewrite validation_loop. rewrite bool_decide_eq_false_2; [done|].
    intros HF. rewrite Forall_forall in HF. specialize (HF l Hl). lia.
Qed.

Lemma filter_lung_regions_rejects_witness :
  filter_lung_regions [3] [5; 7]
  = Stop "filter_lung_regions: Invalid label found in valid_regions.".
Proof.
  apply (proj2 (filter_lung_regions_rejects [3] [5; 7])).
  - done.
  - done.
  - exists 3. split; [by left | right; simpl; lia].
Defined.

(** The state of the ranking scan, whatever the areas are. *)
Definition scanned (done : list Z) (st : Z * Z * Z * Z) : Prop :=
  let '(a1, a2, m1, m2) := st in
  -1 ≤ a2 ∧ a2 ≤ a1 ∧ (m1 = -1 → a1 = -1) ∧
  (m1 = -1 ∨ m1 ∈ done) ∧ (m2 = -1 ∨ m2 ∈ done) ∧
  (m1 ≠ -1 → (1 ≤ length done)%nat) ∧
  (m2 ≠ -1 → m1 ≠ -1 ∧ (2 ≤ length done)%nat).

(** X20.  On a non-empty list of valid labels, and whatever the areas
    are, [filter_lung_regions] returns at most two labels, no more than it
    was given and all taken from the list, and it raises its warning exactly
    when it returns fewer than two. *)
Theorem filter_lung_regions_returns (valid_regions region_areas : list Z) :
  valid_regions ≠ [] →
  (∀ l, l ∈ valid_regions → 1 ≤ l ≤ Z.of_nat (length region_areas)) →
  ∃ kept w, filter_lung_regions valid_regions region_areas = Return kept w ∧
    (length kept ≤ 2)%nat ∧ (length kept ≤ length valid_regions)%nat ∧
    (∀ l, l ∈ kept → l ∈ valid_regions) ∧
    ((length kept = 2%nat ∧ w = []) ∨
     ((length kept < 2)%nat ∧
      w = ["filter_lung_regions: Less than two valid lung regions were found."])).
Proof.
  intros Hne Hlab. unfold filter_lung_regions.
  assert (Hra : region_areas ≠ []).
  { intros ->. destruct valid_regions as [|l ?]; [done|].
    destruct (Hlab l) as [? ?]; [by left|]. cbn in *. lia. }
  rewrite (bool_decide_eq_false_2 _ Hne), (bool_decide_eq_false_2 _ Hra).
  cbn [orb]. rewrite validation_loop.
  rewrite bool_decide_eq_true_2 by (by apply Forall_forall).
  rewrite result_bind_ret.
  match goal with |- context [foreachR valid_regions ?body ?s0] =>
    destruct (foreachR_rule scanned body valid_regions s0)
      as ([[[a1 a2] m1] m2] & -> & Hsc)
  end.
  { unfold scanned. repeat split; try lia; try (by left); done. }
  { intros done l rest [[[a1 a2] m1] m2] Hv (H1 & H2 & H3 & H4 & H5 & H6 & H7).
    assert (Hl : 1 ≤ l ≤ Z.of_nat (length region_areas)).
    { apply Hlab. rewrite Hv. apply elem_of_app. right. by left. }
    destruct (rd_is_Some region_areas (l - 1)) as [a Ha]; [lia|].
    rewrite Ha. cbn [lift]. rewrite result_bind_ret.
    assert (Hin : l ∈ done ++ [l]) by (apply elem_of_app; right; by left).
    assert (Hmono : ∀ m, m = -1 ∨ m ∈ done → m = -1 ∨ m ∈ done ++ [l]).
    { intros m [?|?]; [by left | right; apply elem_of_app; by left]. }
    destruct (Z.ltb_spec a1 a) as [Hlt|Hge].
    - eexists. split; [done|]. unfold scanned. rewrite length_app. cbn [length].
      repeat split; try lia; auto.
    - destruct (Z.ltb_spec a2 a) as [Hlt2|Hge2].
      + eexists. split; [done|]. unfold scanned. rewrite length_app. cbn [length].
        assert (m1 ≠ -1) by (intros Hm; specialize (H3 Hm); lia).
        specialize (H6 ltac:(done)).
        repeat split; try lia; auto.
      + eexists. split; [done|]. unfold scanned. rewrite length_app. cbn [length].
        repeat split; try lia; auto; intros Hm;
          try specialize (H6 Hm); try destruct (H7 Hm); try lia; done. }
  rewrite result_bind_ret. cbv zeta.
  destruct Hsc as (H1 & H2 & H3 & H4 & H5 & H6 & H7).
  assert (Hpos : ∀ m, m ∈ valid_regions → m ≠ -1).
  { intros m Hm ->. specialize (Hlab _ Hm). lia. }
  destruct (Z.eqb_spec m1 (-1)) as [E1|E1], (Z.eqb_spec m2 (-1)) as [E2|E2];
    cbn [negb app length Nat.ltb Nat.leb].
  - eexists _, _. split; [done|]. cbn [length].
    split; [lia|]. split; [lia|]. split; [by intros l []%elem_of_nil|]. right. split; [lia | done].
  - by destruct (H7 E2).
  - eexists _, _. split; [done|]. cbn [length]. specialize (H6 E1).
    split; [lia|]. split; [lia|]. split.
    + intros l [->|[]%elem_of_nil]%elem_of_cons. by destruct H4.
    + right. split; [lia | done].
  - eexists _, _. split; [done|]. cbn [length]. destruct (H7 E2) as [_ ?].
    split; [lia|]. split; [lia|]. split.
    + intros l [->|[->|[]%elem_of_nil]%elem_of_cons]%elem_of_cons;
        [by destruct H4 | by destruct H5].
    + left. done.
Qed.

Lemma filter_lung_regions_returns_witness :
  ∃ kept w, filter_lung_regions [2] [5; 7] = Return kept w ∧
    (length kept ≤ 2)%nat ∧ (length kept ≤ length [2])%nat ∧
    (∀ l, l ∈ kept → l ∈ [2]) ∧
    ((length kept = 2%nat ∧ w = []) ∨
     ((length kept < 2)%nat ∧
      w = ["filter_lung_regions: Less than two valid lung regions were found."])).
Proof.
  apply (filter_lung_regions_returns [2] [5; 7]).
  - done.
  - intros l Hl. apply elem_of_cons in Hl as [->|Hl]; [simpl; lia|].
    by apply elem_of_nil in Hl.
Defined.

(** ** Labels without pixels *)

Lemma absent_label_passes (li : IntegerMatrix) (n l : Z) :
  wf_matrix li → 1 ≤ l ≤ n →
  (∀ p, in_matrix li p → cell li p ≠ Some l) →
  ∃ B, regionprops_bbox li n = Some B ∧ shape n 4 B ∧ l ∈ candidates B.
Proof.
  intros Hwf Hl Habs.
  destruct (regionprops_bbox_rows li Hwf n) as (B & HB & Hs & Hrows); [lia|].
  exists B. split; [done|]. split; [done|].
  destruct (Hrows l Hl) as (a & b & c & d & H0 & H1 & H2 & H3 & _ & Hna).
  destruct (Hna Habs) as (-> & -> & -> & ->).
  unfold candidates. apply list_elem_of_filter. split.
  - unfold passes. unfold cell in H0, H1, H2, H3. cbn [xx yy] in H0, H1, H2, H3.
    by rewrite H0, H1, H2, H3.
  - destruct Hs as (Hr & _). apply elem_of_seqZ. lia.
Qed.

(** X21.  A label without pixels is not filtered out.  [regionprops_bbox]
    reports it with the NA sentinel in every field; [process_lung_regions]
    reads the sentinel as a number, so both ranges are 0 and the label is a
    candidate; with at most two labels it is returned among the kept
    labels. *)
Theorem process_lung_regions_keeps_absent_label (label_image : IntegerMatrix)
    (num_labels l : Z) :
  wf_matrix label_image →
  (∀ v, v ∈ data label_image → 0 ≤ v ≤ num_labels) →
  1 ≤ l ≤ num_labels →
  (∀ p, in_matrix label_image p → cell label_image p ≠ Some l) →
  ∃ bboxes out kept,
    regionprops_bbox label_image num_labels = Some bboxes ∧
    cell bboxes (XY (l - 1) 0) = Some NA_INTEGER ∧
    process_lung_regions label_image bboxes = Return (out, kept) [] ∧
    l ∈ candidates bboxes ∧
    (num_labels ≤ 2 → l ∈ kept).
Proof.
  intros Hwf Hvalid Hl Habs.
  destruct (absent_label_passes label_image num_labels l Hwf Hl Habs)
    as (B & HB & (Hr & Hc & HwfB) & Hcand).
  destruct (regionprops_bbox_rows label_image Hwf num_labels) as (B' & HB' & _ & Hrows);
    [lia|].
  assert (B' = B) as -> by congruence.
  destruct (Hrows l Hl) as (a & b & c & d & H0 & _ & _ & _ & _ & Hna).
  destruct (Hna Habs) as (-> & _).
  destruct (process_lung_regions_spec label_image B Hwf HwfB Hc)
    as (out & kept & Hp & _ & Hfew & _); [lia | by rewrite Hr |].
  exists B, out, kept. split; [done|]. split; [done|]. split; [done|].
  split; [done|]. intros Hn. rewrite Hfew; [done|].
  unfold candidates.
  etrans; [apply length_filter|]. rewrite length_seqZ. lia.
Qed.

Lemma process_lung_regions_keeps_absent_label_witness :
  ∃ bboxes out kept,
    regionprops_bbox (mkMatrix 1 2 [1; 1]) 2 = Some bboxes ∧
    cell bboxes (XY (2 - 1) 0) = Some NA_INTEGER ∧
    process_lung_regions (mkMatrix 1 2 [1; 1]) bboxes = Return (out, kept) [] ∧
    2 ∈ candidates bboxes ∧
    (2 ≤ 2 → 2 ∈ kept).
Proof.
  apply (process_lung_regions_keeps_absent_label (mkMatrix 1 2 [1; 1]) 2 2).
  - unfold wf_matrix. simpl. lia.
  - intros v Hv. simpl in Hv.
    repeat (apply elem_of_cons in Hv as [->|Hv]; [lia|]).
    by apply elem_of_nil in Hv.
  - lia.
  - intros [i j] [Hi Hj]. simpl in Hi, Hj.
    assert (i = 0) as -> by lia.
    assert (j = 0 ∨ j = 1) as [-> | ->] by lia; vm_compute; congruence.
Defined.

(** ** Selecting twice *)

Lemma result_bind_Return {A B : Type} (m : result A) (f : A → result B) (b : B)
    (w : list string) :
  (m ≫= f) = Return b w →
  ∃ a w1 w2, m = Return a w1 ∧ f a = Return b w2 ∧ w = w1 ++ w2.
Proof.
  unfold mbind, result_bind. destruct m as [a w1| |]; [|done..].
  destruct (f a) as [b' w2| |] eqn:Hf; [|done..].
  intros [= <- <-]. by exists a, w1, w2.
Qed.

Lemma forR_up_keeps {St : Type} (I : St → Prop) (body : Z → St → result St)
    (n : nat) (lo : Z) (s s' : St) (w : list string) :
  (∀ i t t' u, I t → body i t = Return t' u → I t') →
  I s → forR_up n lo body s = Return s' w → I s'.
Proof.
  intros Hkeep. revert lo s w. induction n as [|n IH]; intros lo s w Hs Hf.
  - cbn in Hf. by injection Hf as <- _.
  - cbn [forR_up] in Hf.
    apply result_bind_Return in Hf as (s1 & w1 & w2 & Hb & Hf & _).
    eapply IH; [|done]. by eapply Hkeep.
Qed.

Lemma forR_keeps {St : Type} (I : St → Prop) (body : Z → St → result St)
    (lo hi : Z) (s s' : St) (w : list string) :
  (∀ i t t' u, I t → body i t = Return t' u → I t') →
  I s → forR lo hi body s = Return s' w → I s'.
Proof. apply forR_up_keeps. Qed.

Lemma mset_shape {A : Type} (nr nc : Z) (M M' : Matrix A) (i j : Z) (v : A) :
  shape nr nc M → mset M i j v = Some M' → shape nr nc M'.
Proof.
  intros (Hr & Hc & H1 & H2 & Hlen) Hm. unfold mset in Hm.
  destruct (wr (data M) (offset M i j) v) as [d|] eqn:Hd; [|done].
  cbn [mbind option_bind] in Hm. injection Hm as <-.
  apply wr_length in Hd. split; [done|]. split; [done|].
  unfold wf_matrix. cbn [nrow ncol data]. rewrite Hd. done.
Qed.

(** Whatever it is given, [process_lung_regions] returns a grid of the
    extents of [label_image]. *)
Lemma process_lung_regions_shape (label_image regions out : IntegerMatrix)
    (kept : list Z) (w : list string) :
  wf_matrix label_image →
  process_lung_regions label_image regions = Return (out, kept) w →
  shape (nrow label_image) (ncol label_image) out.
Proof.
  intros Hwf Hp. unfold process_lung_regions in Hp. cbv zeta in Hp.
  destruct (nrow regions =? 0); [done|].
  apply result_bind_Return in Hp as (ra & ? & ? & _ & Hp & _).
  apply result_bind_Return in Hp as (vr & ? & ? & _ & Hp & _).
  apply result_bind_Return in Hp as (tt & ? & ? & _ & Hp & _).
  apply result_bind_Return in Hp as (li' & ? & ? & Hsweep & Hp & _).
  injection Hp as <- _ _.
  revert Hsweep. apply forR_keeps; [|done].
  intros i t t' u Ht. apply forR_keeps; [|done].
  intros j M M' u' HM Hb.
  apply result_bind_Return in Hb as (label & ? & ? & _ & Hb & _).
  destruct ((0 <? label) && negb (bool_decide (label ∈ tt))).
  - destruct (mset M i j 0) as [M1|] eqn:Hm; [|done]. cbn [lift] in Hb.
    injection Hb as <- _. by eapply mset_shape.
  - by injection Hb as <- _.
Qed.

Section Reselect.
Context (f f' : Z → Z).

Lemma first_max_unique (l pre post pre' post' : list Z) (m m' : Z) :
  l = pre ++ m :: post → (∀ x, x ∈ pre → f x < f m) → (∀ x, x ∈ post → f x ≤ f m) →
  l = pre' ++ m' :: post' → (∀ x, x ∈ pre' → f x < f m') → (∀ x, x ∈ post' → f x ≤ f m') →
  pre = pre' ∧ m = m' ∧ post = post'.
Proof.
  revert l pre'. induction pre as [|x pre IH]; intros l pre' Hl Hpre Hpost He Hpre' Hpost'.
  - subst l. destruct pre' as [|x' pre']; cbn [app] in He.
    + injection He as Hm Hp. by subst.
    + injection He as Hm Hp. subst x' post.
      assert (f m < f m') by (apply Hpre'; by left).
      assert (f m' ≤ f m); [|lia].
      apply Hpost. apply elem_of_app. right. by left.
  - subst l. destruct pre' as [|x' pre']; cbn [app] in He.
    + injection He as Hm Hp. subst x post'.
      assert (f m' < f m) by (apply Hpre; by left).
      assert (f m ≤ f m'); [|lia].
      apply Hpost'. apply elem_of_app. right. by left.
    + injection He as Hx He. subst x'.
      destruct (IH (pre ++ m :: post) pre' eq_refl) as (-> & -> & ->); try done.
      * intros y Hy. apply Hpre. by right.
      * intros y Hy. apply Hpre'. by right.
Qed.

Lemma top_two_unique (l : list Z) (a b a' b' : Z) :
  top_two f l a b → top_two f l a' b' → a = a' ∧ b = b'.
Proof.
  intros (pre & post & Hl & Hpre & Hpost & pre2 & post2 & Hr & Hpre2 & Hpost2)
         (pre' & post' & Hl' & Hpre' & Hpost' & pre2' & post2' & Hr' & Hpre2' & Hpost2').
  destruct (first_max_unique l pre post pre' post' a a') as (-> & -> & ->); try done.
  split; [done|].
  by destruct (first_max_unique (pre' ++ post') pre2 post2 pre2' post2' b b')
    as (_ & -> & _).
Qed.

Lemma top_two_shrink (l : list Z) (a b : Z) :
  (∀ x, x ∈ l → f' x ≤ f x) → f' a = f a → f' b = f b →
  top_two f l a b → top_two f' l a b.
Proof.
  intros Hle Ha Hb (pre & post & Hl & Hpre & Hpost & pre2 & post2 & Hr & Hpre2 & Hpost2).
  assert (Hin : ∀ x, x ∈ pre ++ post → x ∈ l).
  { intros x [?|?]%elem_of_app; rewrite Hl; apply elem_of_app; [by left|].
    right. by right. }
  exists pre, post. split; [done|]. split.
  { intros x Hx. rewrite Ha. specialize (Hpre x Hx).
    assert (f' x ≤ f x); [|lia]. apply Hle, Hin, elem_of_app. by left. }
  split.
  { intros x Hx. rewrite Ha. specialize (Hpost x Hx).
    assert (f' x ≤ f x); [|lia]. apply Hle, Hin, elem_of_app. by right. }
  exists pre2, post2. split; [done|]. split.
  - intros x Hx. rewrite Hb. specialize (Hpre2 x Hx).
    assert (f' x ≤ f x); [|lia]. apply Hle, Hin. rewrite Hr. apply elem_of_app. by left.
  - intros x Hx. rewrite Hb. specialize (Hpost2 x Hx).
    assert (f' x ≤ f x); [|lia]. apply Hle, Hin. rewrite Hr. apply elem_of_app.
    right. by right.
Qed.
End Reselect.

Lemma data_cells {A B : Type} (g : A → B) (M : Matrix A) (M' : Matrix B) :
  wf_matrix M → shape (nrow M) (ncol M) M' →
  (∀ p v, in_matrix M p → cell M p = Some v → cell M' p = Some (g v)) →
  data M' = g <$> data M.
Proof.
  intros Hwf (Hr & Hc & Hwf') Hcells. pose proof Hwf as (Hnr & Hnc & Hlen).
  destruct Hwf' as (_ & _ & Hlen'). rewrite Hr, Hc in Hlen'.
  apply list_eq. intros i. rewrite list_lookup_fmap.
  destruct (decide (i < length (data M))%nat) as [Hlt|Hge].
  - destruct (flat_inb (XY (nrow M) (ncol M)) (Z.of_nat i)) as [Hin He];
      [done | cbn [xx yy]; lia |]. cbn [xx yy] in Hin, He.
    destruct (lookup_lt_is_Some_2 (data M) i Hlt) as [v Hv]. rewrite Hv. cbn.
    assert (Hc' : cell M (XY (Z.of_nat i `mod` nrow M) (Z.of_nat i `div` nrow M)) = Some v).
    { unfold cell. rewrite mget_pix. cbn [xx yy]. rewrite <- He.
      apply rd_Some. split; [lia|]. by rewrite Nat2Z.id. }
    specialize (Hcells (XY (Z.of_nat i `mod` nrow M) (Z.of_nat i `div` nrow M)) v Hin Hc').
    unfold cell in Hcells.
    rewrite mget_pix in Hcells. cbn [xx yy] in Hcells. rewrite Hr, <- He in Hcells.
    apply rd_Some in Hcells as [_ Hcells]. by rewrite Nat2Z.id in Hcells.
  - rewrite !lookup_ge_None_2; [done | lia | lia].
Qed.

Lemma length_filter_fmap {A B : Type} (g : A → B) (P : B → Prop)
    `{∀ y, Decision (P y)} (l : list A) :
  length (filter P (g <$> l)) = length (filter (λ a, P (g a)) l).
Proof.
  induction l as [|a l IH]; [done|]. cbn [fmap list_fmap].
  rewrite !filter_cons. destruct (decide (P (g a))); cbn [length]; by rewrite IH.
Qed.

Lemma length_filter_le {A : Type} (P Q : A → Prop) `{∀ y, Decision (P y)}
    `{∀ y, Decision (Q y)} (l : list A) :
  (∀ a, P a → Q a) → (length (filter P l) ≤ length (filter Q l))%nat.
Proof.
  intros HPQ. induction l as [|a l IH]; [done|]. rewrite !filter_cons.
  destruct (decide (P a)) as [HP|HP].
  - rewrite decide_True by auto. cbn [length]. lia.
  - destruct (decide (Q a)); cbn [length]; lia.
Qed.

Lemma length_filter_iff {A : Type} (P Q : A → Prop) `{∀ y, Decision (P y)}
    `{∀ y, Decision (Q y)} (l : list A) :
  (∀ a, P a ↔ Q a) → length (filter P l) = length (filter Q l).
Proof.
  intros HPQ. apply Nat.le_antisymm; apply length_filter_le; intros a; apply HPQ.
Qed.

(** X22.  Selecting twice is selecting once: for valid labels and a table
    whose ranges fit an [int] (no range subtraction overflows),
    [process_lung_regions] applied to the grid it returned, with the same
    table, returns the same grid and the same kept labels. *)
Theorem process_lung_regions_twice (label_image regions : IntegerMatrix) :
  wf_matrix label_image → wf_matrix regions → ncol regions = 4 →
  0 < nrow regions →
  (∀ v, v ∈ data label_image → 0 ≤ v ≤ nrow regions) →
  ranges_fit regions →
  ∃ out kept,
    process_lung_regions label_image regions = Return (out, kept) [] ∧
    process_lung_regions out regions = Return (out, kept) [].
Proof.
  intros Hwf Hwfr Hc4 Hn Hvalid _.
  destruct (process_lung_regions_spec label_image regions Hwf Hwfr Hc4 Hn Hvalid)
    as (out & kept & Hp & Hmany & Hfew & Hr & Hc & Hcells).
  pose proof (process_lung_regions_shape _ _ _ _ _ Hwf Hp) as Hso.
  pose proof Hso as (_ & _ & Hwfo).
  set (g := λ v : Z, if bool_decide (v ∈ kept) then v else 0).
  assert (Hdata : data out = g <$> data label_image).
  { by apply data_cells. }
  assert (Hvalid' : ∀ v, v ∈ data out → 0 ≤ v ≤ nrow regions).
  { intros v. rewrite Hdata. intros (u & -> & Hu)%list_elem_of_fmap.
    specialize (Hvalid u Hu). unfold g. case_bool_decide; lia. }
  assert (Hkeptpos : ∀ l, l ∈ kept → 1 ≤ l).
  { intros l Hl.
    destruct (Nat.ltb_spec 2 (length (candidates regions))) as [Hm|Hf].
    - destruct (Hmany Hm) as (l1 & l2 & -> & pre & post & Hcs & _ & _ & pre2 & post2 & Hrs & _).
      assert (l ∈ candidates regions).
      { assert (Hin2 : l2 ∈ pre ++ post) by (rewrite Hrs; apply elem_of_app; right; by left).
        apply elem_of_cons in Hl as [->|Hl].
        - rewrite Hcs. apply elem_of_app. right. by left.
        - apply elem_of_cons in Hl as [->|[]%elem_of_nil]. rewrite Hcs.
          apply elem_of_app in Hin2 as [?|?]; apply elem_of_app; [by left|].
          right. by right. }
      apply candidates_range in H. lia.
    - rewrite (Hfew Hf) in Hl. apply candidates_range in Hl. lia. }
  assert (Hsame : ∀ l, l ∈ kept → area out l = area label_image l).
  { intros l Hl. unfold area. rewrite Hdata. f_equal.
    rewrite (length_filter_fmap g (λ v, v = l)).
    apply length_filter_iff. intros v. unfold g. case_bool_decide; [done|].
    split; [intros <-; specialize (Hkeptpos _ Hl); lia | by intros ->]. }
  assert (Hless : ∀ l, 1 ≤ l → area out l ≤ area label_image l).
  { intros l Hl. unfold area. rewrite Hdata.
    rewrite (length_filter_fmap g (λ v, v = l)).
    apply inj_le. apply length_filter_le. intros v. unfold g.
    case_bool_decide; [done | lia]. }
  destruct (process_lung_regions_spec out regions Hwfo Hwfr Hc4 Hn Hvalid')
    as (out2 & kept2 & Hp2 & Hmany2 & Hfew2 & Hr2 & Hc2 & Hcells2).
  pose proof (process_lung_regions_shape _ _ _ _ _ Hwfo Hp2) as (_ & _ & Hwfo2).
  assert (kept2 = kept) as ->.
  { destruct (Nat.ltb_spec 2 (length (candidates regions))) as [Hm|Hf].
    - destruct (Hmany Hm) as (l1 & l2 & -> & Htop).
      destruct (Hmany2 Hm) as (l1' & l2' & -> & Htop2).
      assert (Htop' : top_two (area out) (candidates regions) l1 l2).
      { apply (top_two_shrink (area label_image)); [| | |done].
        - intros x Hx%candidates_range. apply Hless. lia.
        - apply Hsame. by left.
        - apply Hsame. right. by left. }
      by destruct (top_two_unique (area out) _ _ _ _ _ Htop2 Htop') as [-> ->].
    - by rewrite (Hfew Hf), (Hfew2 Hf). }
  exists out, kept. split; [done|]. rewrite Hp2. do 2 f_equal.
  apply (matrix_ext out out2 Hwfo Hwfo2); [lia | lia |].
  intros p Hp'. assert (Hpl : in_matrix label_image p) by (unfold in_matrix in *; lia).
  destruct (in_matrix_cell label_image p Hwf Hpl) as [v Hv].
  specialize (Hcells p v Hpl Hv).
  rewrite (Hcells2 p _ Hp' Hcells), Hcells. f_equal.
  destruct (decide (v ∈ kept)) as [Hk|Hk].
  - by rewrite !(bool_decide_eq_true_2 _ Hk).
  - rewrite !(bool_decide_eq_false_2 _ Hk). cbv iota.
    rewrite bool_decide_eq_false_2; [done|]. intros H0%Hkeptpos. lia.
Qed.

Lemma process_lung_regions_twice_witness :
  ∃ out kept,
    process_lung_regions three_region_labels three_region_bboxes
    = Return (out, kept) [] ∧
    process_lung_regions out three_region_bboxes = Return (out, kept) [].
Proof.
  apply (process_lung_regions_twice three_region_labels three_region_bboxes).
  - unfold wf_matrix. simpl. lia.
  - unfold wf_matrix. simpl. lia.
  - reflexivity.
  - simpl. lia.
  - intros v Hv. unfold three_region_labels, three_region_bboxes in *. simpl in *.
    repeat (apply elem_of_cons in Hv as [->|Hv]; [lia|]).
    by apply elem_of_nil in Hv.
  - intros i x_min x_max y_min y_max Hi H0 H1 H2 H3. simpl in Hi.
    assert (Hrow : i = 0 ∨ i = 1 ∨ i = 2) by lia.
    destruct Hrow as [-> | [-> | ->]]; vm_compute in H0, H1, H2, H3;
      simplify_eq; unfold in_int; lia.
Defined.

(** ** The block extractors *)

Section Blocks.
Context {R : Type} (zero : R) (image : Matrix R) (ss ns : Z).
Hypothesis Hwf : wf_matrix image.
Hypothesis Hss : 0 < ss.
Hypothesis Hns : 0 ≤ ns.
Hypothesis Hrows : ns * ss ≤ nrow image.
Hypothesis Hcols : ns * ss ≤ ncol image.




End Blocks.



(** ** Two loops in lockstep *)

Lemma for_up_lockstep {S T : Type} (Rel : S → T → Prop)
    (body1 : Z → S → option S) (body2 : Z → T → option T) (n : nat) (lo : Z)
    (s : S) (t : T) :
  (∀ i s t, Rel s t → option_Forall2 Rel (body1 i s) (body2 i t)) →
  Rel s t → option_Forall2 Rel (for_up n lo body1 s) (for_up n lo body2 t).
Proof.
  intros Hstep. revert lo s t. induction n as [|n IH]; intros lo s t Hst.
  - by constructor.
  - cbn [for_up]. destruct (Hstep lo s t Hst) as [s' t' Hst'|]; [|constructor].
    cbn [mbind option_bind]. by apply IH.
Qed.

Lemma for_lockstep {S T : Type} (Rel : S → T → Prop)
    (body1 : Z → S → option S) (body2 : Z → T → option T) (lo hi : Z)
    (s : S) (t : T) :
  (∀ i s t, Rel s t → option_Forall2 Rel (body1 i s) (body2 i t)) →
  Rel s t → option_Forall2 Rel (for_ lo hi body1 s) (for_ lo hi body2 t).
Proof. apply for_up_lockstep. Qed.

Lemma rows_laid_out_step {R : Type} (n p : Z) (M : Matrix R) (vec : list R)
    (v w : R) :
  0 ≤ p → rows_laid_out n M vec →
  option_Forall2 (rows_laid_out n)
    (M1 ← mset M 0 p v; mset M1 1 p w)
    (c1 ← wr vec p v; wr c1 (n + p) w).
Proof.
  intros Hp (Hr & HlM & Hlv & Hcells).
  destruct (decide (p < n)) as [Hlt|Hge].
  - unfold mset. unfold offset. rewrite Hr.
    rewrite (wr_is_Some (data M) (0 + 2 * p) v) by lia. cbn [mbind option_bind nrow data].
    rewrite (wr_is_Some _ (1 + 2 * p) w) by (rewrite length_insert; lia).
    cbn [mbind option_bind].
    rewrite (wr_is_Some vec p v) by lia. cbn [mbind option_bind].
    rewrite (wr_is_Some _ (n + p) w) by (rewrite length_insert; lia).
    constructor. split; [done|]. cbn [nrow data].
    split; [by rewrite !length_insert|]. split; [by rewrite !length_insert|].
    intros q Hq. destruct (Hcells q Hq) as [H0 H1].
    unfold cell, mget, offset in *. cbn [xx yy nrow data] in *. rewrite Hr in H0, H1.
    assert (Hrd : ∀ (l : list R) (i j : Z) (u : R), 0 ≤ i → 0 ≤ j →
              Z.of_nat (length l) = 2 * n → j < 2 * n →
              rd (<[Z.to_nat j := u]> l) i = if decide (i = j) then Some u else rd l i).
    { intros l i j u Hi Hj Hl Hjn. unfold rd.
      replace (0 <=? i) with true by (symmetry; lia).
      destruct (decide (i = j)) as [->|Hne].
      - rewrite list_lookup_insert_eq; [done | lia].
      - rewrite list_lookup_insert_ne; [done | lia]. }
    rewrite !Hrd; try rewrite length_insert; try lia.
    repeat case_decide; try lia; try done; subst;
      try (replace (0 + 2 * q) with (0 + 2 * p) in * by lia);
      try (replace (1 + 2 * q) with (1 + 2 * p) in * by lia); try done; try lia.
  - unfold mset, offset. rewrite Hr.
    assert (Hw1 : wr (data M) (0 + 2 * p) v = None).
    { unfold wr. replace (0 + 2 * p <? Z.of_nat (length (data M))) with false
        by (symmetry; lia). by rewrite andb_false_r. }
    rewrite Hw1. cbn [mbind option_bind].
    destruct (wr vec p v) as [c1|] eqn:Hc1; [|constructor].
    cbn [mbind option_bind].
    assert (Hw2 : wr c1 (n + p) w = None).
    { apply wr_length in Hc1. unfold wr.
      replace (n + p <? Z.of_nat (length c1)) with false by (symmetry; lia).
      by rewrite andb_false_r. }
    rewrite Hw2. constructor.
Qed.

Lemma nodule_block_list_lockstep {R : Type} (zero : R)
    (image_slice image_reg_slice : Matrix R)
    (x_start x_end y_start y_end split_size : Z) :
  option_Forall2 (rows_laid_out (split_size * split_size))
    (generate_nodule_block_list_slice_cpp zero image_slice image_reg_slice
       x_start x_end y_start y_end split_size)
    (generate_nodule_block_list_slice_cpp_v2 zero image_slice image_reg_slice
       x_start x_end y_start y_end split_size).
Proof.
  unfold generate_nodule_block_list_slice_cpp, generate_nodule_block_list_slice_cpp_v2.
  cbv zeta. set (n := split_size * split_size).
  assert (Hn : 0 ≤ n) by (unfold n; nia).
  assert (Halloc : alloc_matrix 2 n zero = Some (new_matrix 2 n zero)).
  { unfold alloc_matrix. by replace (n <? 0) with false by (symmetry; lia). }
  rewrite Halloc. cbn [mbind option_bind].
  replace (2 * split_size * split_size) with (2 * n) by (unfold n; lia).
  set (Rel := λ (a : Matrix R * Z) (b : list R * Z),
         a.2 = b.2 ∧ 0 ≤ a.2 ∧ rows_laid_out n a.1 b.1).
  assert (H0 : Rel (new_matrix 2 n zero, 0) (replicate (Z.to_nat (2 * n)) zero, 0)).
  { split; [done|]. split; [done|]. cbn [fst].
    split; [done|]. cbn [new_matrix data]. rewrite !length_replicate.
    split; [lia|]. split; [lia|]. intros q Hq.
    assert (Hrep : ∀ i, 0 ≤ i < 2 * n → rd (replicate (Z.to_nat (2 * n)) zero) i = Some zero).
    { intros i Hi. apply rd_Some. split; [lia|]. apply lookup_replicate_2. lia. }
    rewrite !Hrep by lia.
    rewrite !new_matrix_cell; [done | |]; unfold in_matrix;
      cbn [xx yy nrow ncol new_matrix]; lia. }
  destruct (for_lockstep Rel
    (λ k st, for_ x_start x_end (λ l '(nbl, pixel_index),
       v ← mget image_slice k l;
       nbl ← mset nbl 0 pixel_index v;
       w ← mget image_reg_slice k l;
       nbl ← mset nbl 1 pixel_index w;
       Some (nbl, pixel_index + 1)) st)
    (λ k st, for_ x_start x_end (λ l '(cs, pixel_index),
       v ← mget image_slice k l;
       cs ← wr cs pixel_index v;
       w ← mget image_reg_slice k l;
       cs ← wr cs (n + pixel_index) w;
       Some (cs, pixel_index + 1)) st)
    y_start y_end (new_matrix 2 n zero, 0) (replicate (Z.to_nat (2 * n)) zero, 0))
    as [[M p] [vec p'] (_ & _ & Hrel)|]; [| done | |].
  - intros k s t Hst. apply for_lockstep; [|done].
    intros l [M p] [vec p'] (Hp & Hp0 & Hrel). cbn [fst snd] in *. subst p'.
    destruct (mget image_slice k l) as [v|]; [|constructor].
    cbn [mbind option_bind].
    destruct Hrel as (Hr & HlM & Hlv & Hcells).
    destruct (decide (p < n)) as [Hlt|Hge].
    + destruct (mset M 0 p v) as [M1|] eqn:HM1; cycle 1.
      { exfalso. unfold mset, offset in HM1. rewrite Hr in HM1.
        by rewrite (wr_is_Some (data M) (0 + 2 * p) v) in HM1 by lia. }
      destruct (wr vec p v) as [c1|] eqn:Hc1; cycle 1.
      { exfalso. by rewrite (wr_is_Some vec p v) in Hc1 by lia. }
      cbn [mbind option_bind].
      destruct (mget image_reg_slice k l) as [w|]; [|constructor].
      cbn [mbind option_bind].
      pose proof (rows_laid_out_step n p M vec v w Hp0
                    (conj Hr (conj HlM (conj Hlv Hcells)))) as Hstep.
      rewrite HM1, Hc1 in Hstep. cbn [mbind option_bind] in Hstep.
      destruct Hstep as [M2 c2 Hrel2|]; [|constructor].
      constructor. split; [done|]. split; [cbn; lia | done].
    + assert (HM1 : mset M 0 p v = None).
      { unfold mset, offset. rewrite Hr. unfold wr.
        replace (0 + 2 * p <? Z.of_nat (length (data M))) with false
          by (symmetry; lia). by rewrite andb_false_r. }
      rewrite HM1. cbn [mbind option_bind].
      destruct (wr vec p v) as [c1|] eqn:Hc1; [|constructor].
      cbn [mbind option_bind].
      destruct (mget image_reg_slice k l) as [w|]; [|constructor].
      cbn [mbind option_bind].
      assert (Hw2 : wr c1 (n + p) w = None).
      { apply wr_length in Hc1. unfold wr.
        replace (n + p <? Z.of_nat (length c1)) with false by (symmetry; lia).
        by rewrite andb_false_r. }
      rewrite Hw2. constructor.
  - cbn [mbind option_bind fst]. by constructor.
  - constructor.
Qed.


(** ** Loops whose invariant follows the counter *)

Lemma for_up_keeps_at {St : Type} (I : Z → St → Prop) (body : Z → St → option St)
    (n : nat) (lo : Z) (s s' : St) :
  (∀ i t t', lo ≤ i < lo + Z.of_nat n → I i t → body i t = Some t' → I (i + 1) t') →
  I lo s → for_up n lo body s = Some s' → I (lo + Z.of_nat n) s'.
Proof.
  revert lo s. induction n as [|n IH]; intros lo s Hkeep Hs Hf.
  - cbn in Hf. injection Hf as <-. by replace (lo + Z.of_nat 0) with lo by lia.
  - cbn [for_up] in Hf. destruct (body lo s) as [s1|] eqn:Hb; [|done].
    cbn [mbind option_bind] in Hf.
    replace (lo + Z.of_nat (S n)) with (lo + 1 + Z.of_nat n) by lia.
    apply (IH (lo + 1) s1); [| |done].
    + intros i t t' Hi. apply Hkeep. lia.
    + apply (Hkeep lo s); [lia | done | done].
Qed.

Lemma for_keeps_at {St : Type} (I : Z → St → Prop) (body : Z → St → option St)
    (lo hi : Z) (s s' : St) :
  lo ≤ hi →
  (∀ i t t', lo ≤ i < hi → I i t → body i t = Some t' → I (i + 1) t') →
  I lo s → for_ lo hi body s = Some s' → I hi s'.
Proof.
  intros Hle Hkeep Hs Hf.
  replace hi with (lo + Z.of_nat (Z.to_nat (hi - lo))) by lia.
  apply (for_up_keeps_at I body _ lo s s'); [|done | done].
  intros i t t' Hi. apply Hkeep. lia.
Qed.

Lemma for_fails_at {St : Type} (I : Z → St → Prop) (body : Z → St → option St)
    (lo hi k : Z) (s : St) :
  (∀ i t t', lo ≤ i < hi → I i t → body i t = Some t' → I (i + 1) t') →
  (∀ t, I k t → body k t = None) →
  lo ≤ k < hi → I lo s → for_ lo hi body s = None.
Proof.
  intros Hkeep Hk Hr Hs.
  destruct (for_ lo hi body s) as [s'|] eqn:Hf; [|done]. exfalso.
  unfold for_ in Hf. remember (Z.to_nat (hi - lo)) as n eqn:Hn.
  assert (Hhi : hi = lo + Z.of_nat n) by lia. clear Hn. subst hi.
  revert lo s Hkeep Hr Hs Hf. induction n as [|n IH]; intros lo s Hkeep Hr Hs Hf; [lia|].
  cbn [for_up] in Hf. destruct (body lo s) as [s1|] eqn:Hb; [|done].
  cbn [mbind option_bind] in Hf.
  destruct (decide (k = lo)) as [->|Hne]; [by rewrite (Hk s Hs) in Hb|].
  apply (IH (lo + 1) s1); [| lia | | done].
  - intros i t t' Hi. apply Hkeep. lia.
  - apply (Hkeep lo s); [lia | done | done].
Qed.

(** X25.  When the window holds more than [split_size * split_size]
    pixels, both block-list functions write past the end of their buffer:
    neither has a defined result, whatever the slices hold. *)
Theorem nodule_block_list_overflow {R : Type} (zero : R)
    (image_slice image_reg_slice : Matrix R)
    (x_start x_end y_start y_end split_size : Z) :
  x_start < x_end →
  split_size * split_size < (y_end - y_start) * (x_end - x_start) →
  generate_nodule_block_list_slice_cpp zero image_slice image_reg_slice
    x_start x_end y_start y_end split_size = None ∧
  generate_nodule_block_list_slice_cpp_v2 zero image_slice image_reg_slice
    x_start x_end y_start y_end split_size = None.
Proof.
  intros Hw Hbig.
  assert (H1 : generate_nodule_block_list_slice_cpp zero image_slice image_reg_slice
                 x_start x_end y_start y_end split_size = None).
  { unfold generate_nodule_block_list_slice_cpp.
    set (n := split_size * split_size) in *.
    assert (Hn : 0 ≤ n) by (unfold n; nia).
    assert (Halloc : alloc_matrix 2 n zero = Some (new_matrix 2 n zero)).
    { unfold alloc_matrix. by replace (n <? 0) with false by (symmetry; lia). }
    rewrite Halloc. cbn [mbind option_bind].
    set (w := x_end - x_start) in *.
    set (J := λ (k l : Z) (st : Matrix R * Z),
           st.2 = (k - y_start) * w + (l - x_start) ∧ nrow st.1 = 2 ∧
           Z.of_nat (length (data st.1)) = 2 * n).
    assert (Hcell : ∀ k l t t', J k l t →
              (let '(nbl, pixel_index) := t in
               v ← mget image_slice k l;
               nbl ← mset nbl 0 pixel_index v;
               w ← mget image_reg_slice k l;
               nbl ← mset nbl 1 pixel_index w;
               Some (nbl, pixel_index + 1)) = Some t' → J k (l + 1) t').
    { intros k l [M p] t' (Hp & Hr & Hl) Hb. cbn [fst snd] in *.
      destruct (mget image_slice k l) as [v|]; [|done]. cbn [mbind option_bind] in Hb.
      destruct (mset M 0 p v) as [M1|] eqn:HM1; [|done]. cbn [mbind option_bind] in Hb.
      destruct (mget image_reg_slice k l) as [u|]; [|done]. cbn [mbind option_bind] in Hb.
      destruct (mset M1 1 p u) as [M2|] eqn:HM2; [|done]. cbn [mbind option_bind] in Hb.
      injection Hb as <-. unfold mset in HM1, HM2.
      destruct (wr (data M) _ v) as [d1|] eqn:Hd1; [|done].
      cbn [mbind option_bind] in HM1. injection HM1 as <-.
      cbn [nrow data] in HM2.
      destruct (wr d1 _ u) as [d2|] eqn:Hd2; [|done].
      cbn [mbind option_bind] in HM2. injection HM2 as <-.
      apply wr_length in Hd1, Hd2. unfold J. cbn [fst snd nrow data].
      split; [lia|]. split; [done | lia]. }
    assert (Hrow : ∀ k t t', J k x_start t →
              for_ x_start x_end (λ l '(nbl, pixel_index),
                v ← mget image_slice k l;
                nbl ← mset nbl 0 pixel_index v;
                w ← mget image_reg_slice k l;
                nbl ← mset nbl 1 pixel_index w;
                Some (nbl, pixel_index + 1)) t = Some t' → J (k + 1) x_start t').
    { intros k t t' Ht Hf.
      assert (HJ : J k x_end t').
      { revert Hf. apply (for_keeps_at (J k)); [lia | | done].
        intros l u u' _ Hu Hb. by apply (Hcell k l u u'). }
      destruct HJ as (Hp & Hr & Hl). unfold J.
      split; [unfold w in *; lia | done]. }
    pose (k0 := y_start + n `div` w). pose (l0 := x_start + n `mod` w).
    pose proof (Z.div_mod n w ltac:(lia)) as Hdm.
    pose proof (Z.mod_pos_bound n w ltac:(lia)) as Hmod.
    assert (Hdiv : 0 ≤ n `div` w) by (apply Z.div_pos; lia).
    assert (Hk0 : n `div` w < y_end - y_start).
    { apply Z.div_lt_upper_bound; [lia|]. rewrite Z.mul_comm. lia. }
    rewrite (for_fails_at (λ k, J k x_start) _ y_start y_end k0); [done | | | lia |].
    - intros k t t' _ Ht Hf. by apply (Hrow k t t').
    - intros t Ht. apply (for_fails_at (J k0) _ x_start x_end l0); [| | lia | done].
      + intros l u u' _ Hu Hb. by apply (Hcell k0 l u u').
      + intros [M p] (Hp & Hr & Hl). cbn [fst snd] in *.
        destruct (mget image_slice k0 l0) as [v|]; [|done]. cbn [mbind option_bind].
        assert (HM1 : mset M 0 p v = None).
        { unfold mset, offset. rewrite Hr. unfold wr.
          replace (0 + 2 * p <? Z.of_nat (length (data M))) with false
            by (symmetry; unfold k0, l0 in Hp; lia). by rewrite andb_false_r. }
        by rewrite HM1.
    - unfold J. cbn [fst snd new_matrix nrow data]. rewrite length_replicate.
      split; [lia|]. split; [done|]. lia. }
  split; [done|].
  pose proof (nodule_block_list_lockstep zero image_slice image_reg_slice
                x_start x_end y_start y_end split_size) as Hl.
  rewrite H1 in Hl. by inversion Hl.
Qed.

Lemma nodule_block_list_overflow_witness :
  generate_nodule_block_list_slice_cpp 0 (mkMatrix 2 2 [1; 2; 3; 4])
    (mkMatrix 2 2 [5; 6; 7; 8]) 0 2 0 2 1 = None ∧
  generate_nodule_block_list_slice_cpp_v2 0 (mkMatrix 2 2 [1; 2; 3; 4])
    (mkMatrix 2 2 [5; 6; 7; 8]) 0 2 0 2 1 = None.
Proof.
  apply (nodule_block_list_overflow 0 (mkMatrix 2 2 [1; 2; 3; 4])
           (mkMatrix 2 2 [5; 6; 7; 8]) 0 2 0 2 1); lia.
Defined.

Section Window.
Context {R : Type} (zero : R) (image reg : Matrix R).
Context (xs xe ys ye n : Z).
Hypothesis Hwf : wf_matrix image.
Hypothesis Hwfr : wf_matrix reg.
Hypothesis Hys : 0 ≤ ys ≤ ye.
Hypothesis Hxs : 0 ≤ xs ≤ xe.
Hypothesis Hye : ye ≤ nrow image ∧ ye ≤ nrow reg.
Hypothesis Hxe : xe ≤ ncol image ∧ xe ≤ ncol reg.
Hypothesis Hfit : (ye - ys) * (xe - xs) ≤ n.




End Window.



(** ** The trapezoid rule *)

Section TrapzCorrect.
Context {D : Type} (zero half : D) (add sub mul : D → D → D).
Context (x y : list D).
Let m := Z.of_nat (length x).
Hypothesis Hlen : length y = length x.
Hypothesis Hm : 0 < m.

(** The closed polygon the code builds: the abscissae forth and back, the
    ordinates zero on the way forth. *)
Definition xp_at (q : Z) : D := if q <? m then at_ zero x q else at_ zero x (2 * m - 1 - q).
Definition yp_at (q : Z) : D := if q <? m then zero else at_ zero y (2 * m - 1 - q).

Lemma rd_at (v : list D) (i : Z) :
  0 ≤ i < Z.of_nat (length v) → rd v i = Some (at_ zero v i).
Proof. intros Hi. destruct (rd_is_Some v i Hi) as [a Ha]. unfold at_. by rewrite Ha. Qed.

Definition polygon (i : Z) (st : list D * list D) : Prop :=
  Z.of_nat (length st.1) = 2 * m ∧ Z.of_nat (length st.2) = 2 * m ∧
  ∀ q, 0 ≤ q < i →
    rd st.1 q = Some (xp_at q) ∧ rd st.1 (m + q) = Some (xp_at (m + q)) ∧
    rd st.2 q = Some (yp_at q) ∧ rd st.2 (m + q) = Some (yp_at (m + q)).

Lemma polygon_fill :
  ∃ st, forR 0 m (λ i '(xp, yp),
          xi ← lift (rd x i);
          xp ← lift (wr xp i xi);
          xr ← lift (rd x (m - i - 1));
          xp ← lift (wr xp (m + i) xr);
          yp ← lift (wr yp i zero);
          yr ← lift (rd y (m - i - 1));
          yp ← lift (wr yp (m + i) yr);
          Return (xp, yp) [])
        (replicate (Z.to_nat (m * 2)) zero, replicate (Z.to_nat (m * 2)) zero)
        = Return st [] ∧
    Z.of_nat (length st.1) = 2 * m ∧ Z.of_nat (length st.2) = 2 * m ∧
    ∀ q, 0 ≤ q < 2 * m →
      rd st.1 q = Some (xp_at q) ∧ rd st.2 q = Some (yp_at q).
Proof.
  destruct (forR_rule polygon
    (λ i '(xp, yp),
       xi ← lift (rd x i);
       xp ← lift (wr xp i xi);
       xr ← lift (rd x (m - i - 1));
       xp ← lift (wr xp (m + i) xr);
       yp ← lift (wr yp i zero);
       yr ← lift (rd y (m - i - 1));
       yp ← lift (wr yp (m + i) yr);
       Return (xp, yp) [])
    0 m (replicate (Z.to_nat (m * 2)) zero, replicate (Z.to_nat (m * 2)) zero))
    as ([xp yp] & Hf & Hlx & Hly & Hcells).
  - lia.
  - split; [cbn [fst]; rewrite length_replicate; lia|].
    split; [cbn [snd]; rewrite length_replicate; lia|]. intros; lia.
  - intros i [xp yp] Hi (Hlx & Hly & Hdone). cbn [fst snd] in *.
    rewrite (rd_at x i) by (fold m; lia). cbn [lift]. rewrite result_bind_ret.
    rewrite (wr_is_Some xp i) by lia. cbn [lift]. rewrite result_bind_ret.
    rewrite (rd_at x (m - i - 1)) by (fold m; lia). cbn [lift]. rewrite result_bind_ret.
    rewrite (wr_is_Some _ (m + i)) by (rewrite length_insert; lia).
    cbn [lift]. rewrite result_bind_ret.
    rewrite (wr_is_Some yp i) by lia. cbn [lift]. rewrite result_bind_ret.
    rewrite (rd_at y (m - i - 1)) by (rewrite Hlen; fold m; lia).
    cbn [lift]. rewrite result_bind_ret.
    rewrite (wr_is_Some _ (m + i)) by (rewrite length_insert; lia).
    cbn [lift]. rewrite result_bind_ret.
    eexists. split; [done|]. split; [cbn [fst]; by rewrite !length_insert|].
    split; [cbn [snd]; by rewrite !length_insert|]. cbn [fst snd].
    assert (Hrd : ∀ (l : list D) (a b : Z) (u : D), 0 ≤ a → 0 ≤ b →
              b < Z.of_nat (length l) →
              rd (<[Z.to_nat b := u]> l) a = if decide (a = b) then Some u else rd l a).
    { intros l a b u Ha Hb Hbl. unfold rd.
      replace (0 <=? a) with true by (symmetry; lia).
      destruct (decide (a = b)) as [->|Hne].
      - rewrite list_lookup_insert_eq; [done | lia].
      - rewrite list_lookup_insert_ne; [done | lia]. }
    intros q Hq. rewrite !Hrd; try rewrite length_insert; try lia.
    destruct (decide (q = i)) as [->|Hne].
    + repeat case_decide; try lia. unfold xp_at, yp_at.
      replace (i <? m) with true by (symmetry; lia).
      replace (m + i <? m) with false by (symmetry; lia).
      by replace (2 * m - 1 - (m + i)) with (m - i - 1) by lia.
    + repeat case_decide; try lia. apply Hdone. lia.
  - exists (xp, yp). split; [done|]. cbn [fst snd] in *.
    split; [done|]. split; [done|]. intros q Hq.
    destruct (decide (q < m)) as [Hlt|Hge].
    + destruct (Hcells q) as (? & _ & ? & _); [lia | done].
    + destruct (Hcells (q - m)) as (_ & H1 & _ & H2); [lia|].
      replace (m + (q - m)) with q in * by lia. done.
Qed.

Lemma cross_sums (xp yp : list D) :
  Z.of_nat (length xp) = 2 * m → Z.of_nat (length yp) = 2 * m →
  (∀ q, 0 ≤ q < 2 * m → rd xp q = Some (xp_at q) ∧ rd yp q = Some (yp_at q)) →
  forR 0 (2 * m - 1) (λ i '(p1, p2),
    a ← lift (rd xp i);
    b ← lift (rd yp (i + 1));
    c ← lift (rd xp (i + 1));
    d ← lift (rd yp i);
    Return (add p1 (mul a b), add p2 (mul c d)) []) (zero, zero)
  = Return (sum_upto zero add (λ i, mul (xp_at i) (yp_at (i + 1))) (Z.to_nat (2 * m - 1)),
            sum_upto zero add (λ i, mul (xp_at (i + 1)) (yp_at i)) (Z.to_nat (2 * m - 1))) [].
Proof.
  intros Hlx Hly Hcells.
  destruct (forR_rule
    (λ i st, st = (sum_upto zero add (λ i, mul (xp_at i) (yp_at (i + 1))) (Z.to_nat i),
                   sum_upto zero add (λ i, mul (xp_at (i + 1)) (yp_at i)) (Z.to_nat i)))
    (λ i '(p1, p2),
       a ← lift (rd xp i);
       b ← lift (rd yp (i + 1));
       c ← lift (rd xp (i + 1));
       d ← lift (rd yp i);
       Return (add p1 (mul a b), add p2 (mul c d)) [])
    0 (2 * m - 1) (zero, zero)) as (st & Hf & ->); [lia | done | | done].
  intros i st Hi ->.
  destruct (Hcells i) as [-> ->]; [lia|].
  destruct (Hcells (i + 1)) as [-> ->]; [lia|].
  cbn [lift]. rewrite !result_bind_ret. eexists. split; [done|].
  replace (Z.to_nat (i + 1)) with (S (Z.to_nat i)) by lia. cbn [sum_upto].
  by rewrite Z2Nat.id by lia.
Qed.

(** The value [trapz_rcpp] returns, as the code computes it. *)
Definition shoelace : D :=
  let k := Z.to_nat (2 * m - 1) in
  mul half
    (sub (add (sum_upto zero add (λ i, mul (xp_at i) (yp_at (i + 1))) k)
              (mul (xp_at (2 * m - 1)) (yp_at 0)))
         (add (sum_upto zero add (λ i, mul (xp_at (i + 1)) (yp_at i)) k)
              (mul (xp_at 0) (yp_at (2 * m - 1))))).

Lemma trapz_rcpp_shoelace :
  trapz_rcpp zero half add sub mul x y = Return shoelace [].
Proof.
  unfold trapz_rcpp. fold m. rewrite Hlen. fold m. rewrite Z.eqb_refl. cbn [negb].
  replace (m <=? 0) with false by (symmetry; lia). cbv zeta.
  destruct polygon_fill as ([xp yp] & -> & Hlx & Hly & Hcells).
  cbn [fst snd] in *. rewrite result_bind_ret.
  rewrite (cross_sums xp yp Hlx Hly Hcells), result_bind_ret.
  destruct (Hcells (2 * m - 1)) as [-> ->]; [lia|].
  destruct (Hcells 0) as [-> ->]; [lia|].
  cbn [lift]. by rewrite !result_bind_ret.
Qed.
End TrapzCorrect.

(** X27.  [trapz_rcpp] stops with its message when the lengths differ; for
    equal lengths it returns, every access to [x], [y], [xp] and [yp] being
    in bounds, and the value is 0.0 for empty vectors.  This holds whatever
    the arithmetic does. *)
Theorem trapz_rcpp_total {D : Type} (zero half : D) (add sub mul : D → D → D)
    (x y : list D) :
  (length y ≠ length x →
     trapz_rcpp zero half add sub mul x y
     = Stop "Arguments 'x' and 'y' must have the same length.") ∧
  (length y = length x →
     ∃ r, trapz_rcpp zero half add sub mul x y = Return r [] ∧ (x = [] → r = zero)).
Proof.
  split.
  - intros Hne. unfold trapz_rcpp.
    by replace (Z.of_nat (length y) =? Z.of_nat (length x)) with false by (symmetry; lia).
  - intros Hlen. destruct x as [|a x'] eqn:Hx.
    + exists zero. split; [|done]. unfold trapz_rcpp. rewrite Hlen. done.
    + rewrite <- Hx in *. eexists. split.
      * apply trapz_rcpp_shoelace; [done|]. rewrite Hx. cbn [length]. lia.
      * intros ->. done.
Qed.

Section TrapzExact.
Context {D : Type} (zero one half : D) (add mul sub : D → D → D) (opp : D → D).
Hypothesis Dring : ring_theory zero one add mul sub opp eq.
Add Ring Dr : Dring.

Local Abbreviation sum := (sum_upto zero add).

Lemma sum_ext (f g : Z → D) (k : nat) :
  (∀ i, 0 ≤ i < Z.of_nat k → f i = g i) → sum f k = sum g k.
Proof.
  induction k as [|k IH]; intros He; [done|]. cbn [sum_upto].
  rewrite IH, (He (Z.of_nat k)); [done | lia | intros i Hi; apply He; lia].
Qed.

Lemma sum_null (f : Z → D) (k : nat) :
  (∀ i, 0 ≤ i < Z.of_nat k → f i = zero) → sum f k = zero.
Proof.
  induction k as [|k IH]; intros He; [done|]. cbn [sum_upto].
  rewrite IH, (He (Z.of_nat k)); [ring | lia | intros i Hi; apply He; lia].
Qed.

Lemma sum_split (f : Z → D) (a b : nat) :
  sum f (a + b) = add (sum f a) (sum (λ i, f (Z.of_nat a + i)) b).
Proof.
  induction b as [|b IH].
  - rewrite Nat.add_0_r. cbn [sum_upto]. ring.
  - replace (a + S b)%nat with (S (a + b)) by lia. cbn [sum_upto]. rewrite IH.
    replace (Z.of_nat (a + b)) with (Z.of_nat a + Z.of_nat b) by lia. ring.
Qed.

Lemma sum_shift (f : Z → D) (k : nat) :
  sum f (S k) = add (f 0) (sum (λ t, f (t + 1)) k).
Proof.
  induction k as [|k IH]; [cbn [sum_upto]; change (Z.of_nat 0) with 0; ring|].
  cbn [sum_upto] in *. rewrite IH.
  replace (Z.of_nat (S k)) with (Z.of_nat k + 1) by lia. ring.
Qed.

Context (x y : list D).
Local Abbreviation X := (at_ zero x).
Local Abbreviation Y := (at_ zero y).

Lemma back_sums (j : nat) :
  add (sub (mul (X (Z.of_nat j)) (Y (Z.of_nat j))) (mul (X 0) (Y 0)))
      (sub (sum (λ t, mul (X (Z.of_nat j - t)) (Y (Z.of_nat j - 1 - t))) j)
           (sum (λ t, mul (X (Z.of_nat j - 1 - t)) (Y (Z.of_nat j - t))) j))
  = sum (λ s, mul (sub (X (s + 1)) (X s)) (add (Y (s + 1)) (Y s))) j.
Proof.
  induction j as [|j IH]; [cbn [sum_upto]; change (Z.of_nat 0) with 0; ring|].
  rewrite (sum_shift (λ t, mul (X (Z.of_nat (S j) - t)) (Y (Z.of_nat (S j) - 1 - t)))).
  rewrite (sum_shift (λ t, mul (X (Z.of_nat (S j) - 1 - t)) (Y (Z.of_nat (S j) - t)))).
  cbn [sum_upto]. rewrite <- IH.
  rewrite (sum_ext (λ t, mul (X (Z.of_nat (S j) - (t + 1))) (Y (Z.of_nat (S j) - 1 - (t + 1))))
                   (λ t, mul (X (Z.of_nat j - t)) (Y (Z.of_nat j - 1 - t))));
    [|intros i _; f_equal; f_equal; lia].
  rewrite (sum_ext (λ t, mul (X (Z.of_nat (S j) - 1 - (t + 1))) (Y (Z.of_nat (S j) - (t + 1))))
                   (λ t, mul (X (Z.of_nat j - 1 - t)) (Y (Z.of_nat j - t))));
    [|intros i _; f_equal; f_equal; lia].
  replace (Z.of_nat (S j) - 0) with (Z.of_nat j + 1) by lia.
  replace (Z.of_nat (S j) - 1 - 0) with (Z.of_nat j) by lia.
  replace (Z.of_nat (S j)) with (Z.of_nat j + 1) by lia.
  ring.
Qed.

Lemma shoelace_trapezoids :
  x ≠ [] →
  shoelace zero half add sub mul x y = mul half (trapezoids zero add mul sub x y).
Proof.
  intros Hx. unfold shoelace, trapezoids. cbv zeta. f_equal.
  set (m := Z.of_nat (length x)).
  assert (Hm : 0 < m) by (unfold m; destruct x; [done | cbn [length]; lia]).
  set (j := (length x - 1)%nat).
  assert (Hj : Z.of_nat j = m - 1) by (unfold j, m; lia).
  replace (Z.to_nat (2 * m - 1)) with (j + (1 + j))%nat by lia.
  rewrite !sum_split. cbn [sum_upto].
  rewrite <- back_sums. fold j.
  assert (Hxp : ∀ q, xp_at zero x q = if q <? m then X q else X (2 * m - 1 - q)) by done.
  assert (Hyp : ∀ q, yp_at zero x y q = if q <? m then zero else Y (2 * m - 1 - q)) by done.
  clearbody m j.
  rewrite (sum_null (λ i, mul (xp_at zero x i) (yp_at zero x y (i + 1))) j).
  2:{ intros i Hi. rewrite Hyp. replace (i + 1 <? m) with true by (symmetry; lia). ring. }
  rewrite (sum_null (λ i, mul (xp_at zero x (i + 1)) (yp_at zero x y i)) j).
  2:{ intros i Hi. rewrite Hyp. replace (i <? m) with true by (symmetry; lia). ring. }
  rewrite (sum_ext (λ i, mul (xp_at zero x (Z.of_nat j + (Z.of_nat 1 + i)))
                             (yp_at zero x y (Z.of_nat j + (Z.of_nat 1 + i) + 1)))
                   (λ t, mul (X (Z.of_nat j - t)) (Y (Z.of_nat j - 1 - t)))).
  2:{ intros i Hi. rewrite Hxp, Hyp.
      rewrite !(proj2 (Z.ltb_ge _ m)) by lia.
      f_equal; f_equal; lia. }
  rewrite (sum_ext (λ i, mul (xp_at zero x (Z.of_nat j + (Z.of_nat 1 + i) + 1))
                             (yp_at zero x y (Z.of_nat j + (Z.of_nat 1 + i))))
                   (λ t, mul (X (Z.of_nat j - 1 - t)) (Y (Z.of_nat j - t)))).
  2:{ intros i Hi. rewrite Hxp, Hyp.
      rewrite !(proj2 (Z.ltb_ge _ m)) by lia.
      f_equal; f_equal; lia. }
  rewrite !Hxp, !Hyp.
  rewrite (proj2 (Z.ltb_lt (Z.of_nat j + Z.of_nat 0) m)) by lia.
  rewrite (proj2 (Z.ltb_ge (Z.of_nat j + Z.of_nat 0 + 1) m)) by lia.
  rewrite (proj2 (Z.ltb_ge (2 * m - 1) m)) by lia.
  rewrite (proj2 (Z.ltb_lt 0 m)) by lia.
  replace (2 * m - 1 - (Z.of_nat j + Z.of_nat 0 + 1)) with (Z.of_nat j) by lia.
  replace (Z.of_nat j + Z.of_nat 0) with (Z.of_nat j) by lia.
  replace (2 * m - 1 - (2 * m - 1)) with 0 by lia.
  ring.
Qed.
End TrapzExact.

(** X28.  In exact arithmetic (the operations of any commutative ring in
    place of those of [double], hence without rounding) [trapz_rcpp] on
    non-empty vectors of equal length returns one half times the sum of
    [(x[s + 1] - x[s]) * (y[s + 1] + y[s])]: the trapezoid rule. *)
Theorem trapz_rcpp_exact {D : Type} (zero one half : D) (add mul sub : D → D → D)
    (opp : D → D) (x y : list D) :
  ring_theory zero one add mul sub opp eq →
  length y = length x → x ≠ [] →
  trapz_rcpp zero half add sub mul x y
  = Return (mul half (trapezoids zero add mul sub x y)) [].
Proof.
  intros Dring Hlen Hx.
  rewrite (trapz_rcpp_shoelace zero half add sub mul x y Hlen).
  - f_equal. by apply (shoelace_trapezoids zero one half add mul sub opp Dring).
  - destruct x; [done | cbn [length]; lia].
Qed.

Lemma trapz_rcpp_exact_witness :
  trapz_rcpp 0 1 Z.add Z.sub Z.mul [0; 2; 5] [1; 3; 3]
  = Return (1 * trapezoids 0 Z.add Z.mul Z.sub [0; 2; 5] [1; 3; 3]) [].
Proof.
  apply (trapz_rcpp_exact 0 1 1 Z.add Z.mul Z.sub Z.opp [0; 2; 5] [1; 3; 3]).
  - exact InitialRing.Zth.
  - reflexivity.
  - done.
Defined.
